(** * RepPolice: squat analysis (src/lib/squatAnalysis.ts, src/lib/poseDetection.ts,
      src/app/results/page.tsx)

    A shallow embedding of the motion-analysis core, of the pose-detection
    module (the One Euro filter, the outlier rejector, the conditioning and
    the checks of [processVideo], the classifiers) and of the pure helpers
    of the results page, followed by the properties of the specification
    that were checked against it and by further properties of the code.

    Modelling conventions.
    - A JavaScript [number] that holds a measurement is an exact rational
      ([Q]); a number that holds a frame index, a count or a rounded score is
      an integer ([Z]).  Rounding error, overflow and NaN are outside the
      model.
    - [Math.sqrt], [Math.acos], [Math.atan2] and [Math.PI] are supplied by the
      host (the language standard leaves their results implementation
      approximated); they are the fields of a [MathLib] the code is
      parameterised by.
    - [frames[i]] and [f.landmarks[k]] are reads of arrays of objects whose
      properties are used at once, so a read out of range raises [TypeError];
      fallible code lives in the [result] monad.
    - The [MetricScore] objects of one analysis live in a heap, because
      [analyzeSquat] stores one object under several owners and then mutates
      it.
    - An object that is not shared (a [OneEuroFilter], the state of the frame
      loop) is the record of its fields; a method takes the record and
      returns the new one with its result. *)

From Stdlib Require Import ZArith QArith Qround Qabs Qminmax.
From Stdlib Require Import List Sorted Permutation String Ascii DecimalString.
From Stdlib Require Import Bool Lia Lqa.
Import ListNotations.

Open Scope Z_scope.
Open Scope Q_scope.

(** ** Numbers *)

Definition Qltb (a b : Q) : bool := negb (Qle_bool b a).
Definition Qgtb (a b : Q) : bool := Qltb b a.
Definition Qgeb (a b : Q) : bool := Qle_bool b a.

Infix "<?" := Qltb (at level 70, no associativity) : Q_scope.
Infix "<=?" := Qle_bool (at level 70, no associativity) : Q_scope.
Infix ">?" := Qgtb (at level 70, no associativity) : Q_scope.
Infix ">=?" := Qgeb (at level 70, no associativity) : Q_scope.
Infix "=?" := Qeq_bool (at level 70, no associativity) : Q_scope.

Definition Math_max (a b : Q) : Q := Qmax a b.
Definition Math_min (a b : Q) : Q := Qmin a b.
Definition Math_abs (a : Q) : Q := Qabs a.
Definition Math_floor (a : Q) : Z := Qfloor a.
Definition Math_ceil (a : Q) : Z := Qceiling a.

(** [Math.round] rounds to the nearest integer, a tie going up. *)
Definition Math_round (a : Q) : Z := Qfloor (a + 1 / 2).

(** The integer [n] as a measurement. *)
Definition ofZ (n : Z) : Q := inject_Z n.

Record MathLib : Type := mkMathLib {
  Math_sqrt : Q -> Q;
  Math_acos : Q -> Q;
  Math_atan2 : Q -> Q -> Q;
  Math_PI : Q
}.

(** ** Errors *)

Inductive exn : Type :=
| TypeError
| Error (message : string).

Inductive result (A : Type) : Type :=
| Ok (a : A)
| Throw (e : exn).

Arguments Ok {A} a.
Arguments Throw {A} e.

Definition bind {A B : Type} (c : result A) (k : A -> result B) : result B :=
  match c with
  | Ok a => k a
  | Throw e => Throw e
  end.

Notation "x <- c ;; k" := (bind c (fun x => k))
  (at level 61, c at next level, right associativity).
Notation "' pat <- c ;; k" := (bind c (fun x => let 'pat := x in k))
  (at level 61, pat pattern, c at next level, right associativity).

(** [for (const x of xs) acc = body(x, acc)], stopping at the first throw. *)
Fixpoint foldM {A S : Type} (body : A -> S -> result S) (xs : list A) (acc : S)
  : result S :=
  match xs with
  | [] => Ok acc
  | x :: rest => acc' <- body x acc ;; foldM body rest acc'
  end.

(** [xs.map(f)] for a callback that can throw. *)
Fixpoint mapM {A B : Type} (f : A -> result B) (xs : list A) : result (list B) :=
  match xs with
  | [] => Ok []
  | x :: rest => b <- f x ;; bs <- mapM f rest ;; Ok (b :: bs)
  end.

(** ** Index ranges and array reads *)

(** The indices [lo, lo+1, ..., hi], empty when [hi < lo]. *)
Definition Zrange (lo hi : Z) : list Z :=
  map (fun k => (lo + Z.of_nat k)%Z) (seq 0 (Z.to_nat (hi - lo + 1))).

(** The indices [lo, lo+step, ...] below [hi] (exclusive), for [step >= 1]. *)
Definition Zsteps (lo hi step : Z) : list Z :=
  map (fun k => (lo + Z.of_nat k * step)%Z)
      (seq 0 (Z.to_nat ((hi - lo + step - 1) / step))).

Definition Zlength' {A : Type} (l : list A) : Z := Z.of_nat (List.length l).

(** A read of an array of numbers; every such read of the source is within
    bounds (the loops that index the array are bounded by its length). *)
Definition at_ (values : list Q) (i : Z) : Q := nth (Z.to_nat i) values 0.

Definition atZ (values : list Z) (i : Z) : Z := nth (Z.to_nat i) values 0%Z.

(** [values.reduce((s, v) => s + v, 0)] *)
Definition sum (values : list Q) : Q := fold_left Qplus values 0.

(** [Math.max(...values)] and [Math.min(...values)] on a non-empty array (of
    an empty one JavaScript makes [-Infinity] and [Infinity]; the two callers
    that can pass one are written out where they occur). *)
Definition maximum (values : list Q) : Q :=
  match values with
  | [] => 0
  | v :: rest => fold_left Math_max rest v
  end.

Definition minimum (values : list Q) : Q :=
  match values with
  | [] => 0
  | v :: rest => fold_left Math_min rest v
  end.

(** ** Data model (src/lib/types.ts) *)

Module Landmark.
Record t : Type := mk { x : Q; y : Q; z : Q; visibility : Q }.
End Landmark.

Record PoseFrame : Type := mkPoseFrame {
  timestamp : Q;
  landmarks : list Landmark.t
}.

Inductive CameraAngle : Type :=
| frontal | rear | left_side | right_side | diagonal | uncertain.

Inductive ExerciseType : Type := squat | deadlift | other | unknown.

Inductive MetricRating : Type := green | yellow | red.

Inductive MetricConfidence : Type := high | medium | low.

Module POSE_LANDMARKS.
Definition NOSE := 0%nat.
Definition LEFT_EYE := 2%nat.
Definition RIGHT_EYE := 5%nat.
Definition LEFT_EAR := 7%nat.
Definition RIGHT_EAR := 8%nat.
Definition LEFT_SHOULDER := 11%nat.
Definition RIGHT_SHOULDER := 12%nat.
Definition LEFT_ELBOW := 13%nat.
Definition RIGHT_ELBOW := 14%nat.
Definition LEFT_WRIST := 15%nat.
Definition RIGHT_WRIST := 16%nat.
Definition LEFT_HIP := 23%nat.
Definition RIGHT_HIP := 24%nat.
Definition LEFT_KNEE := 25%nat.
Definition RIGHT_KNEE := 26%nat.
Definition LEFT_ANKLE := 27%nat.
Definition RIGHT_ANKLE := 28%nat.
Definition LEFT_HEEL := 29%nat.
Definition RIGHT_HEEL := 30%nat.
Definition LEFT_FOOT_INDEX := 31%nat.
Definition RIGHT_FOOT_INDEX := 32%nat.
End POSE_LANDMARKS.
Import POSE_LANDMARKS.

Module MetricScore.
Record t : Type := mk {
  score : Z;
  rating : MetricRating;
  summary : string;
  issueFrames : list Z;
  confidence : MetricConfidence
}.
End MetricScore.

(** [frames[i]], used for a property at once. *)
Definition frameAt (frames : list PoseFrame) (i : Z) : result PoseFrame :=
  if (i <? 0)%Z then Throw TypeError
  else match nth_error frames (Z.to_nat i) with
       | Some f => Ok f
       | None => Throw TypeError
       end.

(** [f.landmarks[k]], used for a property at once. *)
Definition lm (f : PoseFrame) (k : nat) : result Landmark.t :=
  match nth_error (landmarks f) k with
  | Some l => Ok l
  | None => Throw TypeError
  end.

(** ** Geometry helpers *)

Definition midpoint (a b : Landmark.t) : Landmark.t :=
  Landmark.mk ((Landmark.x a + Landmark.x b) / 2)
              ((Landmark.y a + Landmark.y b) / 2)
              ((Landmark.z a + Landmark.z b) / 2)
              ((Landmark.visibility a + Landmark.visibility b) / 2).

Definition getRating (score : Z) : MetricRating :=
  if (score >=? 80)%Z then green
  else if (score >=? 50)%Z then yellow
  else red.

Definition clamp (value min max : Q) : Q := Math_max min (Math_min max value).

(** ** Smoothing *)

Definition movingAverage (values : list Q) (windowSize : Z) : list Q :=
  let half := (windowSize / 2)%Z in
  map (fun i =>
         let start := Z.max 0 (i - half) in
         let end_ := Z.min (Zlength' values - 1) (i + half) in
         let sum := fold_left (fun s j => s + at_ values j) (Zrange start end_) 0 in
         sum / ofZ (end_ - start + 1))
      (Zrange 0 (Zlength' values - 1)).

(** ** Rep detection *)

Record DetectedRep : Type := mkDetectedRep {
  startFrame : Z;
  endFrame : Z;
  bottomFrame : Z
}.

(** The [while (true)] loop of [findValley]: [fuel] bounds the iterations. *)
Fixpoint findValley_loop (smoothed : list Q) (direction boundary : Z)
         (fuel : nat) (i : Z) : Z :=
  match fuel with
  | O => i
  | S fuel' =>
      let next := (i + direction)%Z in
      if (if (direction =? -1)%Z then (next <? boundary)%Z else (next >? boundary)%Z)
      then i
      else if at_ smoothed next >? at_ smoothed i then i
      else findValley_loop smoothed direction boundary fuel' next
  end.

(** Walk outward from a rep-bottom peak to the nearest valley.  Each iteration
    moves [i] one step towards [boundary], so [|from - boundary| + 1]
    iterations reach a [break]. *)
Definition findValley (smoothed : list Q) (from direction boundary : Z) : Z :=
  findValley_loop smoothed direction boundary
                  (S (Z.to_nat (Z.abs (from - boundary)))) from.

Definition hipY (f : PoseFrame) : result Q :=
  lh <- lm f LEFT_HIP ;;
  rh <- lm f RIGHT_HIP ;;
  Ok ((Landmark.y lh + Landmark.y rh) / 2).

Definition minProminence : Q := 0.02.

(** The test of the peak loop of [detectReps] at index [i]. *)
Definition isBottom (smoothed : list Q) (i : Z) : bool :=
  if (at_ smoothed i >? at_ smoothed (i - 1))
     && (at_ smoothed i >? at_ smoothed (i - 2))
     && (at_ smoothed i >? at_ smoothed (i + 1))
     && (at_ smoothed i >? at_ smoothed (i + 2))
  then
    let leftMin :=
      fold_left (fun m j => Math_min m (at_ smoothed j))
                (rev (Zrange (Z.max 0 (i - 15)) (i - 1))) (at_ smoothed i) in
    let rightMin :=
      fold_left (fun m j => Math_min m (at_ smoothed j))
                (Zrange (i + 1) (Z.min (Zlength' smoothed - 1) (i + 15)))
                (at_ smoothed i) in
    let prominence := at_ smoothed i - Math_max leftMin rightMin in
    prominence >=? minProminence
  else false.

(** The body of the segmentation loop of [detectReps] at position [i] of
    [bottoms]; [n] is [frames.length]. *)
Definition segment (smoothed : list Q) (n : Z) (bottoms : list Z) (i : Z)
  : DetectedRep :=
  let bottom := atZ bottoms i in
  let prevBottom := if (i >? 0)%Z then atZ bottoms (i - 1) else (-1)%Z in
  let nextBottom :=
    if (i <? Zlength' bottoms - 1)%Z then atZ bottoms (i + 1) else n in
  let start :=
    if (prevBottom =? -1)%Z then findValley smoothed bottom (-1) 0
    else ((prevBottom + bottom) / 2)%Z in
  let end_ :=
    if (i =? Zlength' bottoms - 1)%Z
    then findValley smoothed bottom 1 (Zlength' smoothed - 1)
    else ((bottom + nextBottom) / 2 - 1)%Z in
  {| startFrame := Z.max 0 start;
     endFrame := Z.min (n - 1) end_;
     bottomFrame := bottom |}.

Definition detectReps (frames : list PoseFrame) : result (list DetectedRep) :=
  if (Zlength' frames <? 5)%Z then Ok []
  else
    hipYValues <- mapM hipY frames ;;
    let smoothed := movingAverage hipYValues 5 in
    let bottoms := filter (isBottom smoothed) (Zrange 2 (Zlength' smoothed - 3)) in
    if (Zlength' bottoms =? 0)%Z then Ok []
    else
      Ok (map (segment smoothed (Zlength' frames) bottoms)
              (Zrange 0 (Zlength' bottoms - 1))).

(** ** Number formatting *)

(** [String(n)] for an integer. *)
Definition Z_to_string (n : Z) : string :=
  DecimalString.NilZero.string_of_int (Z.to_int n).

(** [x.toFixed(1)]: the integer [n] nearest to [10 x] (the larger on a tie),
    printed with one digit after the point; a negative [x] prints as ["-"]
    followed by [(-x).toFixed(1)]. *)
Definition toFixed1 (x : Q) : string :=
  let a := if x <? 0 then - x else x in
  let n := Qfloor (a * 10 + 1 / 2) in
  let sign := if x <? 0 then "-"%string else ""%string in
  (sign ++ Z_to_string (n / 10)%Z ++ "." ++ Z_to_string (n mod 10)%Z)%string.

(** [issues.join(", ")] *)
Definition join (sep : string) (parts : list string) : string :=
  match parts with
  | [] => ""%string
  | p :: rest => fold_left (fun s q => (s ++ sep ++ q)%string) rest p
  end.

(** ** Confidence matrix *)

Definition confidenceRow (f r l rs d u : MetricConfidence) (a : CameraAngle)
  : MetricConfidence :=
  match a with
  | frontal => f | rear => r | left_side => l | right_side => rs
  | diagonal => d | uncertain => u
  end.

Definition CONFIDENCE_MATRIX : list (string * (CameraAngle -> MetricConfidence)) :=
  [ ("depth",            confidenceRow medium medium high high high   medium);
    ("kneeTracking",     confidenceRow high   high   low  low  medium medium);
    ("backAngle",        confidenceRow low    low    high high medium medium);
    ("barPath",          confidenceRow low    low    high high medium medium);
    ("symmetry",         confidenceRow high   high   low  low  medium medium);
    ("buttWink",         confidenceRow low    low    high high medium medium);
    ("tempo",            confidenceRow high   high   high high high   high);
    ("heelRise",         confidenceRow medium medium high high high   medium);
    ("stanceWidth",      confidenceRow high   high   low  low  medium medium);
    ("hipShift",         confidenceRow high   high   low  low  medium medium);
    ("kneeValgus",       confidenceRow high   high   low  low  medium medium);
    ("kneeTravel",       confidenceRow low    low    high high medium medium);
    ("depthConsistency", confidenceRow medium medium high high high   medium);
    ("thoracicRounding", confidenceRow low    low    high high medium medium);
    ("hipRiseRate",      confidenceRow low    low    high high medium medium);
    ("reversalControl",  confidenceRow medium medium high high high   medium);
    ("stanceWidthShift", confidenceRow high   high   low  low  medium medium);
    ("headPosition",     confidenceRow low    low    high high medium medium)
  ]%string.

Fixpoint lookupRow (metric : string)
         (table : list (string * (CameraAngle -> MetricConfidence)))
  : option (CameraAngle -> MetricConfidence) :=
  match table with
  | [] => None
  | (k, row) :: rest => if String.eqb k metric then Some row else lookupRow metric rest
  end.

Definition getMetricConfidence (metric : string) (cameraAngle : CameraAngle)
  : MetricConfidence :=
  match lookupRow metric CONFIDENCE_MATRIX with
  | None => medium
  | Some row => row cameraAngle
  end.

(** ** The eighteen scorers *)

Section Scorers.

Context (M : MathLib).

Definition angleBetween (a b c : Landmark.t) : Q :=
  let baX := Landmark.x a - Landmark.x b in
  let baY := Landmark.y a - Landmark.y b in
  let bcX := Landmark.x c - Landmark.x b in
  let bcY := Landmark.y c - Landmark.y b in
  let dot := baX * bcX + baY * bcY in
  let magBA := Math_sqrt M (baX * baX + baY * baY) in
  let magBC := Math_sqrt M (bcX * bcX + bcY * bcY) in
  if (magBA =? 0) || (magBC =? 0) then 0
  else
    let cosAngle := Math_max (-1) (Math_min 1 (dot / (magBA * magBC))) in
    (Math_acos M cosAngle * 180) / Math_PI M.

(** [(Math.atan2(Math.abs(dx), Math.abs(dy)) * 180) / Math.PI], the angle of
    the segment [(dx, dy)] from the vertical, which seven scorers compute. *)
Definition angleFromVertical (dx dy : Q) : Q :=
  (Math_atan2 M (Math_abs dx) (Math_abs dy) * 180) / Math_PI M.

Definition scoreDepth (frames : list PoseFrame) (rep : DetectedRep)
  : result MetricScore.t :=
  f <- frameAt frames (bottomFrame rep) ;;
  ls <- lm f LEFT_SHOULDER ;;
  rs <- lm f RIGHT_SHOULDER ;;
  lh <- lm f LEFT_HIP ;;
  rh <- lm f RIGHT_HIP ;;
  lk <- lm f LEFT_KNEE ;;
  rk <- lm f RIGHT_KNEE ;;
  let leftHipAngle := angleBetween ls lh lk in
  let rightHipAngle := angleBetween rs rh rk in
  let avgHipAngle := (leftHipAngle + rightHipAngle) / 2 in
  let avgHipY := (Landmark.y lh + Landmark.y rh) / 2 in
  let avgKneeY := (Landmark.y lk + Landmark.y rk) / 2 in
  let belowParallel := avgHipY >? avgKneeY in
  let '(score, summary, issueFrames) :=
    if belowParallel then
      let extraDepth := avgHipY - avgKneeY in
      (clamp (80 + extraDepth * 200) 80 100,
       "Good depth — hips dropped below parallel"%string,
       [])
    else
      let deficit := avgKneeY - avgHipY in
      if deficit <? 0.03 then
        (clamp (50 + (1 - deficit / 0.03) * 29) 50 79,
         "Close to parallel but hips didn't quite reach below knee level"%string,
         [])
      else
        (clamp (49 - deficit * 300) 0 49,
         "Squat depth is above parallel — try to get hips below knee level"%string,
         [bottomFrame rep]) in
  Ok {| MetricScore.score := Math_round score;
        MetricScore.rating := getRating (Math_round score);
        MetricScore.summary := summary;
        MetricScore.issueFrames := issueFrames;
        MetricScore.confidence := high |}.

(** True when the hip has descended at least 25% of the way to the bottom. *)
Definition isActiveFrame (frames : list PoseFrame) (rep : DetectedRep)
           (frameIdx : Z) : result bool :=
  let getHipY := fun i => f <- frameAt frames i ;; hipY f in
  standingY <- getHipY (startFrame rep) ;;
  bottomY <- getHipY (bottomFrame rep) ;;
  let totalDrop := bottomY - standingY in
  if Math_abs totalDrop <? 0.01 then Ok true
  else
    currentY <- getHipY frameIdx ;;
    let descent := currentY - standingY in
    let ratio := descent / totalDrop in
    Ok (ratio >=? 0.25).

Definition scoreKneeTracking (frames : list PoseFrame) (rep : DetectedRep)
  : result MetricScore.t :=
  '(maxDriftRatio, issueFrames) <-
    foldM (fun i '(maxDriftRatio, issueFrames) =>
             active <- isActiveFrame frames rep i ;;
             if negb active then Ok (maxDriftRatio, issueFrames)
             else
               f <- frameAt frames i ;;
               lk <- lm f LEFT_KNEE ;;
               rk <- lm f RIGHT_KNEE ;;
               la <- lm f LEFT_ANKLE ;;
               ra <- lm f RIGHT_ANKLE ;;
               let stanceWidth := Math_abs (Landmark.x la - Landmark.x ra) in
               if stanceWidth <? 0.01 then Ok (maxDriftRatio, issueFrames)
               else
                 let leftDrift :=
                   Math_abs (Landmark.x lk - Landmark.x la) / stanceWidth in
                 let rightDrift :=
                   Math_abs (Landmark.x rk - Landmark.x ra) / stanceWidth in
                 let maxFrameDrift := Math_max leftDrift rightDrift in
                 Ok (if maxFrameDrift >? maxDriftRatio
                     then maxFrameDrift else maxDriftRatio,
                     if maxFrameDrift >? 0.1
                     then issueFrames ++ [i] else issueFrames))
          (Zrange (startFrame rep) (endFrame rep)) (0, []) ;;
  let '(score, summary) :=
    if maxDriftRatio <? 0.05 then
      (clamp (80 + (1 - maxDriftRatio / 0.05) * 20) 80 100,
       "Good knee tracking — knees stayed aligned over toes"%string)
    else if maxDriftRatio <? 0.1 then
      (clamp (50 + ((0.1 - maxDriftRatio) / 0.05) * 29) 50 79,
       "Minor knee drift detected — focus on pushing knees out over toes"%string)
    else
      (clamp (49 - (maxDriftRatio - 0.1) * 200) 0 49,
       "Significant knee cave detected — knees collapsed inward during the squat"%string) in
  Ok {| MetricScore.score := Math_round score;
        MetricScore.rating := getRating (Math_round score);
        MetricScore.summary := summary;
        MetricScore.issueFrames := issueFrames;
        MetricScore.confidence := high |}.

Definition scoreBackAngle (frames : list PoseFrame) (rep : DetectedRep)
  : result MetricScore.t :=
  '(angles, issueFrames) <-
    foldM (fun i '(angles, issueFrames) =>
             f <- frameAt frames i ;;
             ls <- lm f LEFT_SHOULDER ;;
             rs <- lm f RIGHT_SHOULDER ;;
             lh <- lm f LEFT_HIP ;;
             rh <- lm f RIGHT_HIP ;;
             let shoulderMid := midpoint ls rs in
             let hipMid := midpoint lh rh in
             let dx := Landmark.x shoulderMid - Landmark.x hipMid in
             let dy := Landmark.y shoulderMid - Landmark.y hipMid in
             let angle := angleFromVertical dx dy in
             Ok (angles ++ [angle],
                 if angle >? 60 then issueFrames ++ [i] else issueFrames))
          (Zrange (startFrame rep) (endFrame rep)) ([], []) ;;
  if (Zlength' angles =? 0)%Z then
    Ok {| MetricScore.score := 50;
          MetricScore.rating := yellow;
          MetricScore.summary := "Could not assess back angle";
          MetricScore.issueFrames := [];
          MetricScore.confidence := high |}
  else
    let maxAngle := maximum angles in
    let mean := sum angles / ofZ (Zlength' angles) in
    let variance :=
      fold_left (fun s a => s + (a - mean) ^ 2) angles 0 / ofZ (Zlength' angles) in
    let stdDev := Math_sqrt M variance in
    let '(score, summary) :=
      if (maxAngle <=? 45) && (stdDev <? 10) then
        (clamp (80 + (1 - maxAngle / 45) * 20) 80 100,
         "Good torso position — maintained an upright back angle"%string)
      else if maxAngle <=? 60 then
        (clamp (50 + ((60 - maxAngle) / 15) * 29) 50 79,
         "Moderate forward lean — try to keep your chest more upright"%string)
      else
        (clamp (49 - (maxAngle - 60) * 2) 0 49,
         "Excessive forward lean — risk of lower back strain"%string) in
    let '(score, summary) :=
      if stdDev >? 15 then
        (Math_max 0 (score - 10),
         (summary ++ ". Torso angle was inconsistent throughout the rep")%string)
      else (score, summary) in
    Ok {| MetricScore.score := Math_round score;
          MetricScore.rating := getRating (Math_round score);
          MetricScore.summary := summary;
          MetricScore.issueFrames := issueFrames;
          MetricScore.confidence := high |}.

Definition estimatedFrameHeightInches : Q := 72.

Definition scoreBarPath (frames : list PoseFrame) (rep : DetectedRep)
  : result MetricScore.t :=
  xPositions <-
    foldM (fun i xPositions =>
             f <- frameAt frames i ;;
             ls <- lm f LEFT_SHOULDER ;;
             rs <- lm f RIGHT_SHOULDER ;;
             let shoulderMid := midpoint ls rs in
             Ok (xPositions ++ [Landmark.x shoulderMid]))
          (Zrange (startFrame rep) (endFrame rep)) [] ;;
  if (Zlength' xPositions =? 0)%Z then
    Ok {| MetricScore.score := 50;
          MetricScore.rating := yellow;
          MetricScore.summary := "Could not assess bar path";
          MetricScore.issueFrames := [];
          MetricScore.confidence := high |}
  else
    let meanX := sum xPositions / ofZ (Zlength' xPositions) in
    let maxDeviation := maximum (map (fun x => Math_abs (x - meanX)) xPositions) in
    let deviationInches := maxDeviation * estimatedFrameHeightInches in
    let issueFrames :=
      fold_left (fun issueFrames i =>
                   if Math_abs (at_ xPositions i - meanX) * estimatedFrameHeightInches >? 4
                   then issueFrames ++ [(startFrame rep + i)%Z] else issueFrames)
                (Zrange 0 (Zlength' xPositions - 1)) [] in
    let '(score, summary) :=
      if deviationInches <? 2 then
        (clamp (80 + (1 - deviationInches / 2) * 20) 80 100,
         "Good bar path — minimal horizontal drift"%string)
      else if deviationInches <? 4 then
        (clamp (50 + ((4 - deviationInches) / 2) * 29) 50 79,
         "Some horizontal drift in bar path — focus on keeping the bar over midfoot"%string)
      else
        (clamp (49 - (deviationInches - 4) * 5) 0 49,
         "Excessive bar path deviation — the bar shifted significantly forward or back"%string) in
    Ok {| MetricScore.score := Math_round score;
          MetricScore.rating := getRating (Math_round score);
          MetricScore.summary := summary;
          MetricScore.issueFrames := issueFrames;
          MetricScore.confidence := high |}.

Definition scoreSymmetry (frames : list PoseFrame) (rep : DetectedRep)
  : result MetricScore.t :=
  f <- frameAt frames (bottomFrame rep) ;;
  ls <- lm f LEFT_SHOULDER ;;
  rs <- lm f RIGHT_SHOULDER ;;
  lh <- lm f LEFT_HIP ;;
  rh <- lm f RIGHT_HIP ;;
  lk <- lm f LEFT_KNEE ;;
  rk <- lm f RIGHT_KNEE ;;
  la <- lm f LEFT_ANKLE ;;
  ra <- lm f RIGHT_ANKLE ;;
  let hipHeightDiff := Math_abs (Landmark.y lh - Landmark.y rh) in
  let leftKneeAngle := angleBetween lh lk la in
  let rightKneeAngle := angleBetween rh rk ra in
  let kneeAngleDiff := Math_abs (leftKneeAngle - rightKneeAngle) in
  let avgKneeAngle := (leftKneeAngle + rightKneeAngle) / 2 in
  let kneeAnglePct := if avgKneeAngle >? 0 then kneeAngleDiff / avgKneeAngle else 0 in
  let shoulderHeightDiff := Math_abs (Landmark.y ls - Landmark.y rs) in
  let bodyHeight :=
    Math_abs ((Landmark.y ls + Landmark.y rs) / 2 - (Landmark.y la + Landmark.y ra) / 2) in
  let hipPct := if bodyHeight >? 0 then hipHeightDiff / bodyHeight else 0 in
  let shoulderPct := if bodyHeight >? 0 then shoulderHeightDiff / bodyHeight else 0 in
  let avgAsymmetry := (hipPct + kneeAnglePct + shoulderPct) / 3 in
  let '(score, summary, issueFrames) :=
    if avgAsymmetry <? 0.05 then
      (clamp (80 + (1 - avgAsymmetry / 0.05) * 20) 80 100,
       "Good symmetry — both sides moved evenly"%string,
       [])
    else if avgAsymmetry <? 0.1 then
      (clamp (50 + ((0.1 - avgAsymmetry) / 0.05) * 29) 50 79,
       "Minor asymmetry detected — one side is working slightly harder"%string,
       [bottomFrame rep])
    else
      (clamp (49 - (avgAsymmetry - 0.1) * 200) 0 49,
       "Significant asymmetry — noticeable imbalance between left and right sides"%string,
       [bottomFrame rep]) in
  Ok {| MetricScore.score := Math_round score;
        MetricScore.rating := getRating (Math_round score);
        MetricScore.summary := summary;
        MetricScore.issueFrames := issueFrames;
        MetricScore.confidence := high |}.

(** The spine angle (shoulder midpoint to hip midpoint, from the vertical) at
    frame [i]; the body of both loops of [scoreButtWink]. *)
Definition spineAngleAt (frames : list PoseFrame) (i : Z) : result Q :=
  f <- frameAt frames i ;;
  ls <- lm f LEFT_SHOULDER ;;
  rs <- lm f RIGHT_SHOULDER ;;
  lh <- lm f LEFT_HIP ;;
  rh <- lm f RIGHT_HIP ;;
  let shoulderMid := midpoint ls rs in
  let hipMid := midpoint lh rh in
  let dx := Landmark.x shoulderMid - Landmark.x hipMid in
  let dy := Landmark.y shoulderMid - Landmark.y hipMid in
  Ok (angleFromVertical dx dy).

Definition scoreButtWink (frames : list PoseFrame) (rep : DetectedRep)
  : result MetricScore.t :=
  let bottomIdx := bottomFrame rep in
  let windowSize :=
    Z.max 1 (Math_floor (ofZ (endFrame rep - startFrame rep) * 0.15)) in
  let approachIdx := Z.max (startFrame rep) (bottomIdx - windowSize * 2) in
  approachAngles <-
    mapM (spineAngleAt frames)
         (Zrange approachIdx (Z.min (bottomIdx - windowSize) (endFrame rep) - 1)) ;;
  let bottomStart := Z.max (startFrame rep) (bottomIdx - windowSize) in
  let bottomEnd := Z.min (endFrame rep) (bottomIdx + windowSize) in
  bottomAngles <- mapM (spineAngleAt frames) (Zrange bottomStart bottomEnd) ;;
  if (Zlength' approachAngles =? 0)%Z || (Zlength' bottomAngles =? 0)%Z then
    Ok {| MetricScore.score := 75;
          MetricScore.rating := yellow;
          MetricScore.summary := "Could not fully assess butt wink";
          MetricScore.issueFrames := [];
          MetricScore.confidence := high |}
  else
    let approachAngle := sum approachAngles / ofZ (Zlength' approachAngles) in
    let maxBottomAngle := maximum bottomAngles in
    let angleIncrease := Math_max 0 (maxBottomAngle - approachAngle) in
    let '(score, summary, issueFrames) :=
      if angleIncrease <? 10 then
        (clamp (80 + (1 - angleIncrease / 10) * 20) 80 100,
         "Good pelvic control — minimal butt wink at the bottom"%string,
         [])
      else if angleIncrease <? 15 then
        (clamp (50 + ((15 - angleIncrease) / 5) * 29) 50 79,
         "Moderate butt wink — some posterior pelvic tilt at depth"%string,
         Zrange bottomStart bottomEnd)
      else
        (clamp (49 - (angleIncrease - 15) * 3) 0 49,
         "Significant butt wink — pelvis tucks under at the bottom, risking lower back strain"%string,
         Zrange bottomStart bottomEnd) in
    Ok {| MetricScore.score := Math_round score;
          MetricScore.rating := getRating (Math_round score);
          MetricScore.summary := summary;
          MetricScore.issueFrames := issueFrames;
          MetricScore.confidence := high |}.

Definition scoreTempo (frames : list PoseFrame) (rep : DetectedRep)
  : result MetricScore.t :=
  fs <- frameAt frames (startFrame rep) ;;
  fb <- frameAt frames (bottomFrame rep) ;;
  fe <- frameAt frames (endFrame rep) ;;
  let startTime := timestamp fs in
  let bottomTime := timestamp fb in
  let endTime := timestamp fe in
  let eccentricDuration := bottomTime - startTime in
  let concentricDuration := endTime - bottomTime in
  let totalDuration := endTime - startTime in
  let score := 100 in
  let issues : list string := [] in
  (* Total too short *)
  let '(score, issues, issueFrames) :=
    if totalDuration <? 1 then
      (Math_min score 30, issues ++ ["rep completed too quickly"%string],
       Zrange (startFrame rep) (endFrame rep))
    else (score, issues, []) in
  (* Fast descent *)
  let '(score, issues) :=
    if eccentricDuration <? 1 then
      (Math_min score 60, issues ++ ["descent too fast (< 1s)"%string])
    else if (eccentricDuration >=? 1.5) && (eccentricDuration <=? 4) then
      (score, issues)
    else if eccentricDuration >? 4 then
      (Math_min score 70, issues ++ ["descent very slow"%string])
    else (score, issues) in
  (* Concentric phase *)
  let '(score, issues) :=
    if concentricDuration <? 0.8 then
      (Math_min score 65, issues ++ ["ascent very fast"%string])
    else if (concentricDuration >? 2.5) && (concentricDuration <=? 3) then
      (Math_min score 75, issues ++ ["ascent slightly slow"%string])
    else if concentricDuration >? 3 then
      (Math_min score 60, issues ++ ["ascent too slow (> 3s)"%string])
    else (score, issues) in
  (* Ratio check *)
  let '(score, issues) :=
    if (eccentricDuration >? 0) && (concentricDuration >? 0) then
      let ratio := eccentricDuration / concentricDuration in
      if (ratio >=? 1.2) && (ratio <=? 2.5) then (score, issues)
      else if ratio <? 1.0 then
        (Math_min score 65, issues ++ ["concentric slower than eccentric"%string])
      else (score, issues)
    else (score, issues) in
  let summary :=
    if (Zlength' issues =? 0)%Z then
      ("Good tempo — " ++ toFixed1 eccentricDuration ++ "s down, "
         ++ toFixed1 concentricDuration ++ "s up")%string
    else
      ("Tempo: " ++ toFixed1 eccentricDuration ++ "s down, "
         ++ toFixed1 concentricDuration ++ "s up — " ++ join ", " issues)%string in
  Ok {| MetricScore.score := Math_round score;
        MetricScore.rating := getRating (Math_round score);
        MetricScore.summary := summary;
        MetricScore.issueFrames := issueFrames;
        MetricScore.confidence := high |}.

Definition scoreHeelRise (frames : list PoseFrame) (rep : DetectedRep)
  : result MetricScore.t :=
  startFrame_ <- frameAt frames (startFrame rep) ;;
  lHeelStart_ <- lm startFrame_ LEFT_HEEL ;;
  rHeelStart_ <- lm startFrame_ RIGHT_HEEL ;;
  let lHeelStart := Landmark.y lHeelStart_ in
  let rHeelStart := Landmark.y rHeelStart_ in
  let avgHeelStart := (lHeelStart + rHeelStart) / 2 in
  '(maxRise, issueFrames) <-
    foldM (fun i '(maxRise, issueFrames) =>
             f <- frameAt frames i ;;
             lHeel_ <- lm f LEFT_HEEL ;;
             rHeel_ <- lm f RIGHT_HEEL ;;
             let lHeel := Landmark.y lHeel_ in
             let rHeel := Landmark.y rHeel_ in
             let avgHeel := (lHeel + rHeel) / 2 in
             let rise := avgHeelStart - avgHeel in
             Ok (if rise >? maxRise then rise else maxRise,
                 if rise >? 0.015 then issueFrames ++ [i] else issueFrames))
          (Zrange (startFrame rep) (endFrame rep)) (0, []) ;;
  let '(score, summary) :=
    if maxRise <? 0.015 then
      (clamp (80 + (1 - maxRise / 0.015) * 20) 80 100,
       "Good heel contact — feet stayed flat throughout the squat"%string)
    else if maxRise <? 0.03 then
      (clamp (50 + ((0.03 - maxRise) / 0.015) * 29) 50 79,
       "Minor heel rise detected — work on ankle mobility or try heel-elevated shoes"%string)
    else
      (clamp (49 - (maxRise - 0.03) * 500) 0 49,
       "Significant heel rise — heels lifted off the ground during the squat"%string) in
  Ok {| MetricScore.score := Math_round score;
        MetricScore.rating := getRating (Math_round score);
        MetricScore.summary := summary;
        MetricScore.issueFrames := issueFrames;
        MetricScore.confidence := high |}.

Definition scoreStanceWidth (frames : list PoseFrame) (rep : DetectedRep)
  : result MetricScore.t :=
  f <- frameAt frames (startFrame rep) ;;
  la <- lm f LEFT_ANKLE ;;
  ra <- lm f RIGHT_ANKLE ;;
  lh <- lm f LEFT_HIP ;;
  rh <- lm f RIGHT_HIP ;;
  let ankleWidth := Math_abs (Landmark.x la - Landmark.x ra) in
  let hipWidth := Math_abs (Landmark.x lh - Landmark.x rh) in
  if hipWidth <? 0.01 then
    Ok {| MetricScore.score := 75;
          MetricScore.rating := yellow;
          MetricScore.summary :=
            "Could not assess stance width — hip width too small to measure";
          MetricScore.issueFrames := [];
          MetricScore.confidence := high |}
  else
    let ratio := ankleWidth / hipWidth in
    let '(score, summary, issueFrames) :=
      if (ratio >=? 1.2) && (ratio <=? 1.8) then
        (clamp (80 + (1 - Math_abs (ratio - 1.5) / 0.3) * 20) 80 100,
         ("Good stance width — ankles are " ++ toFixed1 ratio ++ "x hip width")%string,
         [])
      else if ((ratio >=? 1.1) && (ratio <? 1.2)) || ((ratio >? 1.8) && (ratio <=? 2.0)) then
        (clamp (50 + 29 * (1 - Math_min (Math_abs (ratio - 1.2)) (Math_abs (ratio - 1.8)) / 0.2))
               50 79,
         if ratio <? 1.2
         then "Stance slightly narrow — try widening your feet a bit"%string
         else "Stance slightly wide — consider narrowing your feet slightly"%string,
         [startFrame rep])
      else
        (if ratio <? 1.1
         then clamp (49 - (1.1 - ratio) * 200) 0 49
         else clamp (49 - (ratio - 2.0) * 100) 0 49,
         if ratio <? 1.1
         then "Stance too narrow — feet are closer than hip width, limiting stability"%string
         else "Stance very wide — this may strain your inner thighs and limit depth"%string,
         [startFrame rep]) in
    Ok {| MetricScore.score := Math_round score;
          MetricScore.rating := getRating (Math_round score);
          MetricScore.summary := summary;
          MetricScore.issueFrames := issueFrames;
          MetricScore.confidence := high |}.

Definition scoreHipShift (frames : list PoseFrame) (rep : DetectedRep)
  : result MetricScore.t :=
  xPositions <-
    foldM (fun i xPositions =>
             f <- frameAt frames i ;;
             lh <- lm f LEFT_HIP ;;
             rh <- lm f RIGHT_HIP ;;
             let hipMid := midpoint lh rh in
             Ok (xPositions ++ [Landmark.x hipMid]))
          (Zrange (bottomFrame rep) (endFrame rep)) [] ;;
  if (Zlength' xPositions <? 2)%Z then
    Ok {| MetricScore.score := 75;
          MetricScore.rating := yellow;
          MetricScore.summary := "Could not assess hip shift";
          MetricScore.issueFrames := [];
          MetricScore.confidence := high |}
  else
    let meanX := sum xPositions / ofZ (Zlength' xPositions) in
    let maxDeviation := maximum (map (fun x => Math_abs (x - meanX)) xPositions) in
    let deviationInches := maxDeviation * estimatedFrameHeightInches in
    let issueFrames :=
      fold_left (fun issueFrames i =>
                   if Math_abs (at_ xPositions i - meanX) * estimatedFrameHeightInches >? 1.5
                   then issueFrames ++ [(bottomFrame rep + i)%Z] else issueFrames)
                (Zrange 0 (Zlength' xPositions - 1)) [] in
    let '(score, summary) :=
      if deviationInches <? 1.5 then
        (clamp (80 + (1 - deviationInches / 1.5) * 20) 80 100,
         "Good hip stability — hips stayed centered during ascent"%string)
      else if deviationInches <? 3 then
        (clamp (50 + ((3 - deviationInches) / 1.5) * 29) 50 79,
         "Minor hip shift detected — hips drifted laterally during ascent"%string)
      else
        (clamp (49 - (deviationInches - 3) * 5) 0 49,
         "Significant hip shift — hips swayed to one side, suggesting a strength imbalance"%string) in
    Ok {| MetricScore.score := Math_round score;
          MetricScore.rating := getRating (Math_round score);
          MetricScore.summary := summary;
          MetricScore.issueFrames := issueFrames;
          MetricScore.confidence := high |}.

Definition scoreKneeValgus (frames : list PoseFrame) (rep : DetectedRep)
  : result MetricScore.t :=
  '(maxValgusAngle, issueFrames) <-
    foldM (fun i '(maxValgusAngle, issueFrames) =>
             active <- isActiveFrame frames rep i ;;
             if negb active then Ok (maxValgusAngle, issueFrames)
             else
               f <- frameAt frames i ;;
               lh <- lm f LEFT_HIP ;;
               lk <- lm f LEFT_KNEE ;;
               la <- lm f LEFT_ANKLE ;;
               rh <- lm f RIGHT_HIP ;;
               rk <- lm f RIGHT_KNEE ;;
               ra <- lm f RIGHT_ANKLE ;;
               let leftInward := Landmark.x lk - (Landmark.x lh + Landmark.x la) / 2 in
               let rightInward := (Landmark.x rh + Landmark.x ra) / 2 - Landmark.x rk in
               let hipToAnkleY := Math_abs (Landmark.y lh - Landmark.y la) in
               let leftAngle :=
                 if hipToAnkleY >? 0
                 then (Math_atan2 M (Math_abs leftInward) hipToAnkleY * 180) / Math_PI M
                 else 0 in
               let rightAngle :=
                 if hipToAnkleY >? 0
                 then (Math_atan2 M (Math_abs rightInward) hipToAnkleY * 180) / Math_PI M
                 else 0 in
               let leftValgus := if leftInward >? 0 then leftAngle else 0 in
               let rightValgus := if rightInward >? 0 then rightAngle else 0 in
               let frameMax := Math_max leftValgus rightValgus in
               Ok (if frameMax >? maxValgusAngle then frameMax else maxValgusAngle,
                   if frameMax >? 10 then issueFrames ++ [i] else issueFrames))
          (Zrange (startFrame rep) (endFrame rep)) (0, []) ;;
  let '(score, summary) :=
    if maxValgusAngle <? 10 then
      (clamp (80 + (1 - maxValgusAngle / 10) * 20) 80 100,
       "Good knee alignment — knees tracked in line with toes"%string)
    else if maxValgusAngle <? 15 then
      (clamp (50 + ((15 - maxValgusAngle) / 5) * 29) 50 79,
       "Minor knee valgus — knees collapsed slightly inward"%string)
    else
      (clamp (49 - (maxValgusAngle - 15) * 3) 0 49,
       "Significant knee valgus — knees caved inward, increasing injury risk"%string) in
  Ok {| MetricScore.score := Math_round score;
        MetricScore.rating := getRating (Math_round score);
        MetricScore.summary := summary;
        MetricScore.issueFrames := issueFrames;
        MetricScore.confidence := high |}.

Definition scoreKneeTravel (frames : list PoseFrame) (rep : DetectedRep)
  : result MetricScore.t :=
  f <- frameAt frames (bottomFrame rep) ;;
  lk <- lm f LEFT_KNEE ;;
  rk <- lm f RIGHT_KNEE ;;
  lft <- lm f LEFT_FOOT_INDEX ;;
  rft <- lm f RIGHT_FOOT_INDEX ;;
  let leftTravel := Landmark.x lk - Landmark.x lft in
  let rightTravel := Landmark.x rk - Landmark.x rft in
  let maxTravel := Math_max (Math_abs leftTravel) (Math_abs rightTravel) in
  let travelInches := maxTravel * estimatedFrameHeightInches in
  let '(score, summary, issueFrames) :=
    if travelInches <? 2 then
      (clamp (80 + (1 - travelInches / 2) * 20) 80 100,
       "Good knee position — knees stayed near or behind toe line"%string,
       [])
    else if travelInches <? 4 then
      (clamp (50 + ((4 - travelInches) / 2) * 29) 50 79,
       "Moderate knee travel — knees tracked slightly past toes"%string,
       [bottomFrame rep])
    else
      (clamp (49 - (travelInches - 4) * 5) 0 49,
       "Excessive forward knee travel — knees extended well past toes, increasing knee stress"%string,
       [bottomFrame rep]) in
  Ok {| MetricScore.score := Math_round score;
        MetricScore.rating := getRating (Math_round score);
        MetricScore.summary := summary;
        MetricScore.issueFrames := issueFrames;
        MetricScore.confidence := high |}.

(** [values.indexOf(v)], counting from [i]: the first position that holds a
    number equal to [v], or [-1]. *)
Fixpoint indexOf_from (values : list Q) (v : Q) (i : Z) : Z :=
  match values with
  | [] => (-1)%Z
  | w :: rest => if w =? v then i else indexOf_from rest v (i + 1)%Z
  end.

Definition indexOf (values : list Q) (v : Q) : Z := indexOf_from values v 0.

(** [allReps[i]], used for a property at once. *)
Definition repAt (allReps : list DetectedRep) (i : Z) : result DetectedRep :=
  if (i <? 0)%Z then Throw TypeError
  else match nth_error allReps (Z.to_nat i) with
       | Some r => Ok r
       | None => Throw TypeError
       end.

Definition scoreDepthConsistency (frames : list PoseFrame)
           (allReps : list DetectedRep) : result MetricScore.t :=
  if (Zlength' allReps <? 2)%Z then
    Ok {| MetricScore.score := 100;
          MetricScore.rating := green;
          MetricScore.summary := "Single rep — consistency not applicable";
          MetricScore.issueFrames := [];
          MetricScore.confidence := high |}
  else
    bottomDepths <-
      mapM (fun rep => f <- frameAt frames (bottomFrame rep) ;; hipY f) allReps ;;
    let mean := sum bottomDepths / ofZ (Zlength' bottomDepths) in
    let variance :=
      fold_left (fun s v => s + (v - mean) ^ 2) bottomDepths 0
      / ofZ (Zlength' bottomDepths) in
    let stdDev := Math_sqrt M variance in
    let cv := if mean >? 0 then stdDev / mean else 0 in
    '(score, summary, issueFrames) <-
      (if cv <? 0.02 then
         Ok (clamp (80 + (1 - cv / 0.02) * 20) 80 100,
             "Excellent depth consistency — bottom position was very consistent across reps"%string,
             [])
       else if cv <? 0.05 then
         let minDepth := minimum bottomDepths in
         let shallowest := indexOf bottomDepths minDepth in
         r <- repAt allReps shallowest ;;
         Ok (clamp (50 + ((0.05 - cv) / 0.03) * 29) 50 79,
             "Minor depth variation — some reps were deeper than others"%string,
             [bottomFrame r])
       else
         Ok (clamp (49 - (cv - 0.05) * 500) 0 49,
             "Inconsistent depth — significant variation in bottom position between reps"%string,
             map bottomFrame allReps)) ;;
    Ok {| MetricScore.score := Math_round score;
          MetricScore.rating := getRating (Math_round score);
          MetricScore.summary := summary;
          MetricScore.issueFrames := issueFrames;
          MetricScore.confidence := high |}.

Definition scoreThoracicRounding (frames : list PoseFrame) (rep : DetectedRep)
  : result MetricScore.t :=
  '(maxRounding, issueFrames) <-
    foldM (fun i '(maxRounding, issueFrames) =>
             active <- isActiveFrame frames rep i ;;
             if negb active then Ok (maxRounding, issueFrames)
             else
               f <- frameAt frames i ;;
               ls <- lm f LEFT_SHOULDER ;;
               rs <- lm f RIGHT_SHOULDER ;;
               lh <- lm f LEFT_HIP ;;
               rh <- lm f RIGHT_HIP ;;
               let shoulderMid := midpoint ls rs in
               let hipMid := midpoint lh rh in
               nose <- lm f NOSE ;;
               let trunkDx := Landmark.x shoulderMid - Landmark.x hipMid in
               let trunkDy := Landmark.y shoulderMid - Landmark.y hipMid in
               let trunkAngle := angleFromVertical trunkDx trunkDy in
               let upperDx := Landmark.x nose - Landmark.x shoulderMid in
               let upperDy := Landmark.y nose - Landmark.y shoulderMid in
               let upperAngle := angleFromVertical upperDx upperDy in
               let rounding := Math_max 0 (upperAngle - trunkAngle) in
               Ok (if rounding >? maxRounding then rounding else maxRounding,
                   if rounding >? 20 then issueFrames ++ [i] else issueFrames))
          (Zrange (startFrame rep) (endFrame rep)) (0, []) ;;
  let '(score, summary) :=
    if maxRounding <? 15 then
      (clamp (80 + (1 - maxRounding / 15) * 20) 80 100,
       "Good upper back position — thoracic spine stayed neutral"%string)
    else if maxRounding <? 25 then
      (clamp (50 + ((25 - maxRounding) / 10) * 29) 50 79,
       "Moderate thoracic rounding — upper back collapsed slightly under load"%string)
    else
      (clamp (49 - (maxRounding - 25) * 2) 0 49,
       "Significant thoracic rounding — upper back rounded excessively"%string) in
  Ok {| MetricScore.score := Math_round score;
        MetricScore.rating := getRating (Math_round score);
        MetricScore.summary := summary;
        MetricScore.issueFrames := issueFrames;
        MetricScore.confidence := high |}.

Definition scoreHipRiseRate (frames : list PoseFrame) (rep : DetectedRep)
  : result MetricScore.t :=
  let bottomIdx := bottomFrame rep in
  let endIdx := endFrame rep in
  let ascentFrames := (endIdx - bottomIdx)%Z in
  if (ascentFrames <? 3)%Z then
    Ok {| MetricScore.score := 75;
          MetricScore.rating := yellow;
          MetricScore.summary := "Could not assess hip rise rate — ascent too short";
          MetricScore.issueFrames := [];
          MetricScore.confidence := high |}
  else
    let chunkSize := Z.max 2 (Math_floor (ofZ ascentFrames / 5)) in
    '(maxRateRatio, issueFrames) <-
      foldM (fun i '(maxRateRatio, issueFrames) =>
               f1 <- frameAt frames i ;;
               f2 <- frameAt frames (Z.min (i + chunkSize) endIdx) ;;
               f1lh <- lm f1 LEFT_HIP ;;
               f1rh <- lm f1 RIGHT_HIP ;;
               let hipY1 := (Landmark.y f1lh + Landmark.y f1rh) / 2 in
               f2lh <- lm f2 LEFT_HIP ;;
               f2rh <- lm f2 RIGHT_HIP ;;
               let hipY2 := (Landmark.y f2lh + Landmark.y f2rh) / 2 in
               f1ls <- lm f1 LEFT_SHOULDER ;;
               f1rs <- lm f1 RIGHT_SHOULDER ;;
               let shoulderY1 := (Landmark.y f1ls + Landmark.y f1rs) / 2 in
               f2ls <- lm f2 LEFT_SHOULDER ;;
               f2rs <- lm f2 RIGHT_SHOULDER ;;
               let shoulderY2 := (Landmark.y f2ls + Landmark.y f2rs) / 2 in
               let hipRise := hipY1 - hipY2 in
               let shoulderRise := shoulderY1 - shoulderY2 in
               if shoulderRise >? 0.001 then
                 let rateRatio := hipRise / shoulderRise in
                 Ok (if rateRatio >? maxRateRatio then rateRatio else maxRateRatio,
                     if rateRatio >? 1.5 then issueFrames ++ [i] else issueFrames)
               else if hipRise >? 0.01 then
                 Ok (Math_max maxRateRatio 3, issueFrames ++ [i])
               else Ok (maxRateRatio, issueFrames))
            (Zsteps bottomIdx (endIdx - chunkSize)
                    (Z.max 1 (Math_floor (ofZ chunkSize / 2))))
            (0, []) ;;
    let '(score, summary) :=
      if maxRateRatio <? 1.3 then
        (clamp (80 + (1 - maxRateRatio / 1.3) * 20) 80 100,
         "Good ascent mechanics — hips and shoulders rose together"%string)
      else if maxRateRatio <? 1.8 then
        (clamp (50 + ((1.8 - maxRateRatio) / 0.5) * 29) 50 79,
         "Hips rising slightly ahead of chest — mild good-morning tendency"%string)
      else
        (clamp (49 - (maxRateRatio - 1.8) * 15) 0 49,
         "Good-morning pattern — hips shot up while chest stayed low, risking lower back strain"%string) in
    Ok {| MetricScore.score := Math_round score;
          MetricScore.rating := getRating (Math_round score);
          MetricScore.summary := summary;
          MetricScore.issueFrames := issueFrames;
          MetricScore.confidence := high |}.

(** The body of the two velocity loops of [scoreReversalControl]: the hip
    velocity between frames [i] and [i + 1], kept when time advanced. *)
Definition pushVelocity (frames : list PoseFrame) (i : Z) (velocities : list Q)
  : result (list Q) :=
  let getHipY := fun idx => f <- frameAt frames idx ;; hipY f in
  f1 <- frameAt frames (i + 1) ;;
  f0 <- frameAt frames i ;;
  let dt := timestamp f1 - timestamp f0 in
  if dt >? 0 then
    y1 <- getHipY (i + 1)%Z ;;
    y0 <- getHipY i ;;
    Ok (velocities ++ [(y1 - y0) / dt])
  else Ok velocities.

Definition scoreReversalControl (frames : list PoseFrame) (rep : DetectedRep)
  : result MetricScore.t :=
  let bottomIdx := bottomFrame rep in
  let windowSize :=
    Z.max 2 (Math_floor (ofZ (endFrame rep - startFrame rep) * 0.1)) in
  let preStart := Z.max (startFrame rep) (bottomIdx - windowSize) in
  let postEnd := Z.min (endFrame rep) (bottomIdx + windowSize) in
  if (postEnd - preStart <? 3)%Z then
    Ok {| MetricScore.score := 75;
          MetricScore.rating := yellow;
          MetricScore.summary := "Could not assess reversal control";
          MetricScore.issueFrames := [];
          MetricScore.confidence := high |}
  else
    preVelocities <- foldM (pushVelocity frames) (Zrange preStart (bottomIdx - 1)) [] ;;
    postVelocities <- foldM (pushVelocity frames) (Zrange bottomIdx (postEnd - 1)) [] ;;
    if (Zlength' preVelocities =? 0)%Z || (Zlength' postVelocities =? 0)%Z then
      Ok {| MetricScore.score := 75;
            MetricScore.rating := yellow;
            MetricScore.summary := "Could not assess reversal control";
            MetricScore.issueFrames := [];
            MetricScore.confidence := high |}
    else
      let avgPreVel := sum preVelocities / ofZ (Zlength' preVelocities) in
      let avgPostVel := sum postVelocities / ofZ (Zlength' postVelocities) in
      let velocityChange := Math_abs (avgPreVel - avgPostVel) in
      let '(score, summary, issueFrames) :=
        if velocityChange <? 0.3 then
          (clamp (80 + (1 - velocityChange / 0.3) * 20) 80 100,
           "Good reversal control — smooth, controlled transition at the bottom"%string,
           [])
        else if velocityChange <? 0.6 then
          (clamp (50 + ((0.6 - velocityChange) / 0.3) * 29) 50 79,
           "Moderate bounce at bottom — try pausing briefly at the bottom for more control"%string,
           [bottomIdx])
        else
          (clamp (49 - (velocityChange - 0.6) * 30) 0 49,
           "Hard bounce at bottom — rapid direction change increases injury risk"%string,
           Zrange preStart postEnd) in
      Ok {| MetricScore.score := Math_round score;
            MetricScore.rating := getRating (Math_round score);
            MetricScore.summary := summary;
            MetricScore.issueFrames := issueFrames;
            MetricScore.confidence := high |}.

Definition scoreStanceWidthShift (frames : list PoseFrame) (rep : DetectedRep)
  : result MetricScore.t :=
  startFrame_ <- frameAt frames (startFrame rep) ;;
  sla <- lm startFrame_ LEFT_ANKLE ;;
  sra <- lm startFrame_ RIGHT_ANKLE ;;
  let startAnkleWidth := Math_abs (Landmark.x sla - Landmark.x sra) in
  if startAnkleWidth <? 0.01 then
    Ok {| MetricScore.score := 75;
          MetricScore.rating := yellow;
          MetricScore.summary := "Could not assess stance width shift";
          MetricScore.issueFrames := [];
          MetricScore.confidence := high |}
  else
    '(maxShiftPct, issueFrames) <-
      foldM (fun i '(maxShiftPct, issueFrames) =>
               f <- frameAt frames i ;;
               la <- lm f LEFT_ANKLE ;;
               ra <- lm f RIGHT_ANKLE ;;
               let currentWidth := Math_abs (Landmark.x la - Landmark.x ra) in
               let shiftPct := Math_abs (currentWidth - startAnkleWidth) / startAnkleWidth in
               Ok (if shiftPct >? maxShiftPct then shiftPct else maxShiftPct,
                   if shiftPct >? 0.1 then issueFrames ++ [i] else issueFrames))
            (Zrange (startFrame rep) (endFrame rep)) (0, []) ;;
    let '(score, summary, issueFrames) :=
      if maxShiftPct <? 0.08 then
        (clamp (80 + (1 - maxShiftPct / 0.08) * 20) 80 100,
         "Good stance stability — feet stayed in position throughout the rep"%string,
         issueFrames)
      else if maxShiftPct <? 0.15 then
        (clamp (50 + ((0.15 - maxShiftPct) / 0.07) * 29) 50 79,
         "Minor stance shift — feet drifted slightly during the rep"%string,
         issueFrames ++ [bottomFrame rep])
      else
        (clamp (49 - (maxShiftPct - 0.15) * 200) 0 49,
         "Significant stance shift — feet moved noticeably wider or narrower mid-rep"%string,
         issueFrames) in
    Ok {| MetricScore.score := Math_round score;
          MetricScore.rating := getRating (Math_round score);
          MetricScore.summary := summary;
          MetricScore.issueFrames := issueFrames;
          MetricScore.confidence := high |}.

Definition scoreHeadPosition (frames : list PoseFrame) (rep : DetectedRep)
  : result MetricScore.t :=
  '(maxDeviation, issueFrames) <-
    foldM (fun i '(maxDeviation, issueFrames) =>
             active <- isActiveFrame frames rep i ;;
             if negb active then Ok (maxDeviation, issueFrames)
             else
               f <- frameAt frames i ;;
               nose <- lm f NOSE ;;
               ls <- lm f LEFT_SHOULDER ;;
               rs <- lm f RIGHT_SHOULDER ;;
               let shoulderMid := midpoint ls rs in
               let dx := Landmark.x nose - Landmark.x shoulderMid in
               let dy := Landmark.y nose - Landmark.y shoulderMid in
               let headAngle := angleFromVertical dx dy in
               Ok (if headAngle >? maxDeviation then headAngle else maxDeviation,
                   if headAngle >? 35 then issueFrames ++ [i] else issueFrames))
          (Zrange (startFrame rep) (endFrame rep)) (0, []) ;;
  let '(score, summary) :=
    if maxDeviation <? 25 then
      (clamp (80 + (1 - maxDeviation / 25) * 20) 80 100,
       "Good head position — neck stayed in neutral alignment"%string)
    else if maxDeviation <? 40 then
      (clamp (50 + ((40 - maxDeviation) / 15) * 29) 50 79,
       "Head position slightly off — avoid excessive neck extension or flexion"%string)
    else
      (clamp (49 - (maxDeviation - 40) * 2) 0 49,
       "Poor head position — neck was excessively extended or flexed, risking cervical strain"%string) in
  Ok {| MetricScore.score := Math_round score;
        MetricScore.rating := getRating (Math_round score);
        MetricScore.summary := summary;
        MetricScore.issueFrames := issueFrames;
        MetricScore.confidence := high |}.

End Scorers.

(** ** Averaging helpers *)

(** [[...scores].sort((a, b) => a.score - b.score)]: the sort is stable, so
    entries of equal score keep their order. *)
Fixpoint insertByScore (m : MetricScore.t) (sorted : list MetricScore.t)
  : list MetricScore.t :=
  match sorted with
  | [] => [m]
  | h :: t =>
      if (MetricScore.score m <? MetricScore.score h)%Z then m :: h :: t
      else h :: insertByScore m t
  end.

Definition sortByScore (scores : list MetricScore.t) : list MetricScore.t :=
  fold_left (fun sorted m => insertByScore m sorted) scores [].

(** [scores[i]], used for a property at once. *)
Definition scoreAt (scores : list MetricScore.t) (i : Z) : result MetricScore.t :=
  if (i <? 0)%Z then Throw TypeError
  else match nth_error scores (Z.to_nat i) with
       | Some m => Ok m
       | None => Throw TypeError
       end.

Definition averageMetricScores (scores : list MetricScore.t)
  : result MetricScore.t :=
  if (Zlength' scores =? 0)%Z then
    Ok {| MetricScore.score := 0;
          MetricScore.rating := red;
          MetricScore.summary := "No reps detected";
          MetricScore.issueFrames := [];
          MetricScore.confidence := high |}
  else
    let avgScore :=
      Math_round (ofZ (fold_left (fun s m => (s + MetricScore.score m)%Z) scores 0%Z)
                  / ofZ (Zlength' scores)) in
    let allIssueFrames := flat_map MetricScore.issueFrames scores in
    let sorted := sortByScore scores in
    median <- scoreAt sorted (Zlength' sorted / 2) ;;
    let medianSummary := MetricScore.summary median in
    let goodReps :=
      Zlength' (filter (fun s => (MetricScore.score s >=? 80)%Z) scores) in
    let summary :=
      if (Zlength' scores >? 1)%Z then
        (medianSummary ++ " (" ++ Z_to_string goodReps ++ "/"
           ++ Z_to_string (Zlength' scores) ++ " reps rated good)")%string
      else medianSummary in
    first <- scoreAt scores 0 ;;
    let confidence := MetricScore.confidence first in
    Ok {| MetricScore.score := avgScore;
          MetricScore.rating := getRating avgScore;
          MetricScore.summary := summary;
          MetricScore.issueFrames := allIssueFrames;
          MetricScore.confidence := confidence |}.

(** ** The heap of [MetricScore] objects

    [analyzeSquat] puts the one [depthConsistencyScore] object into every
    [RepData] and into [overall], and afterwards assigns to the [confidence]
    of every metric of every rep.  Objects are therefore held by reference:
    a [loc] is the identity of a [MetricScore] object, the heap gives its
    current fields. *)

Definition loc : Type := nat.
Definition heap : Type := list MetricScore.t.

Definition HM (A : Type) : Type := heap -> result (A * heap).

Definition retH {A : Type} (a : A) : HM A := fun h => Ok (a, h).

Definition bindH {A B : Type} (c : HM A) (k : A -> HM B) : HM B :=
  fun h => match c h with
           | Ok (a, h') => k a h'
           | Throw e => Throw e
           end.

Notation "x <~ c ;; k" := (bindH c (fun x => k))
  (at level 61, c at next level, right associativity).

(** Run pure fallible code. *)
Definition lift {A : Type} (c : result A) : HM A :=
  fun h => match c with
           | Ok a => Ok (a, h)
           | Throw e => Throw e
           end.

(** A new object, an object literal returned by a scorer. *)
Definition new (c : result MetricScore.t) : HM loc :=
  fun h => match c with
           | Ok m => Ok (List.length h, h ++ [m])
           | Throw e => Throw e
           end.

(** The current fields of an object. *)
Definition read (l : loc) : HM MetricScore.t :=
  fun h => match nth_error h l with
           | Some m => Ok (m, h)
           | None => Throw TypeError
           end.

Fixpoint update (h : heap) (l : loc) (f : MetricScore.t -> MetricScore.t) : heap :=
  match h, l with
  | [], _ => []
  | m :: rest, O => f m :: rest
  | m :: rest, S l' => m :: update rest l' f
  end.

(** [obj.confidence = c] *)
Definition setConfidence (l : loc) (c : MetricConfidence) : HM unit :=
  fun h => match nth_error h l with
           | Some _ =>
               Ok (tt, update h l (fun m =>
                         {| MetricScore.score := MetricScore.score m;
                            MetricScore.rating := MetricScore.rating m;
                            MetricScore.summary := MetricScore.summary m;
                            MetricScore.issueFrames := MetricScore.issueFrames m;
                            MetricScore.confidence := c |}))
           | None => Throw TypeError
           end.

Fixpoint foldH {A S : Type} (body : A -> S -> HM S) (xs : list A) (acc : S) : HM S :=
  match xs with
  | [] => retH acc
  | x :: rest => acc' <~ body x acc ;; foldH body rest acc'
  end.

(** [xs.map((x, idx) => f(x, idx))], [idx] counting from [i]. *)
Fixpoint mapiH {A B : Type} (f : A -> Z -> HM B) (xs : list A) (i : Z) : HM (list B) :=
  match xs with
  | [] => retH []
  | x :: rest => b <~ f x i ;; bs <~ mapiH f rest (i + 1)%Z ;; retH (b :: bs)
  end.

Fixpoint mapH {A B : Type} (f : A -> HM B) (xs : list A) : HM (list B) :=
  match xs with
  | [] => retH []
  | x :: rest => b <~ f x ;; bs <~ mapH f rest ;; retH (b :: bs)
  end.

Module RepData.
Record t : Type := mk {
  repNumber : Z;
  startFrame : Z;
  endFrame : Z;
  bottomFrame : Z;
  depth : loc;
  kneeTracking : loc;
  backAngle : loc;
  barPath : loc;
  symmetry : loc;
  buttWink : loc;
  tempo : loc;
  heelRise : loc;
  stanceWidth : loc;
  hipShift : loc;
  kneeValgus : loc;
  kneeTravel : loc;
  depthConsistency : loc;
  thoracicRounding : loc;
  hipRiseRate : loc;
  reversalControl : loc;
  stanceWidthShift : loc;
  headPosition : loc
}.
End RepData.

Module Overall.
Record t : Type := mk {
  depth : loc;
  kneeTracking : loc;
  backAngle : loc;
  barPath : loc;
  symmetry : loc;
  buttWink : loc;
  tempo : loc;
  heelRise : loc;
  stanceWidth : loc;
  hipShift : loc;
  kneeValgus : loc;
  kneeTravel : loc;
  depthConsistency : loc;
  thoracicRounding : loc;
  hipRiseRate : loc;
  reversalControl : loc;
  stanceWidthShift : loc;
  headPosition : loc
}.
End Overall.

Record SquatAnalysisResult : Type := mkSquatAnalysisResult {
  reps : list RepData.t;
  overall : Overall.t;
  repCount : Z;
  exerciseType : option ExerciseType;
  cameraAngle : option CameraAngle
}.

Definition metricKeys : list string :=
  [ "depth"; "kneeTracking"; "backAngle"; "barPath"; "symmetry"; "buttWink";
    "tempo"; "heelRise"; "stanceWidth"; "hipShift"; "kneeValgus"; "kneeTravel";
    "depthConsistency"; "thoracicRounding"; "hipRiseRate"; "reversalControl";
    "stanceWidthShift"; "headPosition" ]%string.

(** The eighteen metric fields of a [RepData] and of [overall], by key. *)
Definition fields : list (string * (RepData.t -> loc) * (Overall.t -> loc)) :=
  [ ("depth", RepData.depth, Overall.depth);
    ("kneeTracking", RepData.kneeTracking, Overall.kneeTracking);
    ("backAngle", RepData.backAngle, Overall.backAngle);
    ("barPath", RepData.barPath, Overall.barPath);
    ("symmetry", RepData.symmetry, Overall.symmetry);
    ("buttWink", RepData.buttWink, Overall.buttWink);
    ("tempo", RepData.tempo, Overall.tempo);
    ("heelRise", RepData.heelRise, Overall.heelRise);
    ("stanceWidth", RepData.stanceWidth, Overall.stanceWidth);
    ("hipShift", RepData.hipShift, Overall.hipShift);
    ("kneeValgus", RepData.kneeValgus, Overall.kneeValgus);
    ("kneeTravel", RepData.kneeTravel, Overall.kneeTravel);
    ("depthConsistency", RepData.depthConsistency, Overall.depthConsistency);
    ("thoracicRounding", RepData.thoracicRounding, Overall.thoracicRounding);
    ("hipRiseRate", RepData.hipRiseRate, Overall.hipRiseRate);
    ("reversalControl", RepData.reversalControl, Overall.reversalControl);
    ("stanceWidthShift", RepData.stanceWidthShift, Overall.stanceWidthShift);
    ("headPosition", RepData.headPosition, Overall.headPosition) ]%string.

(** [repData[key]] *)
Definition repField (key : string) (repData : RepData.t) : option loc :=
  match find (fun e => String.eqb (fst (fst e)) key) fields with
  | Some (_, get, _) => Some (get repData)
  | None => None
  end.

(** [result.overall[key]] *)
Definition overallField (key : string) (o : Overall.t) : option loc :=
  match find (fun e => String.eqb (fst (fst e)) key) fields with
  | Some (_, _, get) => Some (get o)
  | None => None
  end.

(** ** Main analysis *)

(** [arr.slice(start, end)]; a negative argument counts from the end. *)
Definition slice {A : Type} (arr : list A) (start end_ : Z) : list A :=
  let len := Zlength' arr in
  let k := if (start <? 0)%Z then Z.max (len + start) 0 else Z.min start len in
  let final := if (end_ <? 0)%Z then Z.max (len + end_) 0 else Z.min end_ len in
  firstn (Z.to_nat (final - k)) (skipn (Z.to_nat k) arr).

Definition noRepsMessage : string :=
  "Could not detect any squat reps. Make sure your video shows at least one full squat repetition.".

(** The branch of [analyzeSquat] taken when peak detection found no rep:
    fail on a clip without hip movement, else make the whole clip one rep
    with its deepest frame as the bottom.  [peakY] starts at [-Infinity],
    here [None]. *)
Definition wholeClipRep (frames : list PoseFrame) : result (list DetectedRep) :=
  hipYValues <- mapM hipY frames ;;
  if (Zlength' hipYValues =? 0)%Z then
    (* Math.min() is Infinity and Math.max() is -Infinity: the range is
       -Infinity, which is below the floor *)
    Throw (Error noRepsMessage)
  else
    let minY := minimum hipYValues in
    let maxY := maximum hipYValues in
    let range := maxY - minY in
    if range <? 0.005 then Throw (Error noRepsMessage)
    else
      let '(bottomIdx, peakY) :=
        fold_left (fun '(bottomIdx, peakY) i =>
                     if match peakY with
                        | None => true
                        | Some p => at_ hipYValues i >? p
                        end
                     then (i, Some (at_ hipYValues i))
                     else (bottomIdx, peakY))
                  (Zrange 0 (Zlength' hipYValues - 1)) (0%Z, None) in
      Ok [ {| startFrame := 0;
              endFrame := Zlength' frames - 1;
              bottomFrame := bottomIdx |} ].

Section Analysis.

Context (M : MathLib).

(** The callback of [repsToAnalyze.map]: score one rep, then stamp the
    confidence of each of its eighteen metric objects. *)
Definition scoreRep (frames : list PoseFrame) (angle : CameraAngle)
           (depthConsistencyScore : loc) (rep : DetectedRep) (idx : Z)
  : HM RepData.t :=
  depth <~ new (scoreDepth M frames rep) ;;
  kneeTracking <~ new (scoreKneeTracking frames rep) ;;
  backAngle <~ new (scoreBackAngle M frames rep) ;;
  barPath <~ new (scoreBarPath frames rep) ;;
  symmetry <~ new (scoreSymmetry M frames rep) ;;
  buttWink <~ new (scoreButtWink M frames rep) ;;
  tempo <~ new (scoreTempo frames rep) ;;
  heelRise <~ new (scoreHeelRise frames rep) ;;
  stanceWidth <~ new (scoreStanceWidth frames rep) ;;
  hipShift <~ new (scoreHipShift frames rep) ;;
  kneeValgus <~ new (scoreKneeValgus M frames rep) ;;
  kneeTravel <~ new (scoreKneeTravel frames rep) ;;
  thoracicRounding <~ new (scoreThoracicRounding M frames rep) ;;
  hipRiseRate <~ new (scoreHipRiseRate frames rep) ;;
  reversalControl <~ new (scoreReversalControl frames rep) ;;
  stanceWidthShift <~ new (scoreStanceWidthShift frames rep) ;;
  headPosition <~ new (scoreHeadPosition M frames rep) ;;
  let repData :=
    {| RepData.repNumber := idx + 1;
       RepData.startFrame := startFrame rep;
       RepData.endFrame := endFrame rep;
       RepData.bottomFrame := bottomFrame rep;
       RepData.depth := depth;
       RepData.kneeTracking := kneeTracking;
       RepData.backAngle := backAngle;
       RepData.barPath := barPath;
       RepData.symmetry := symmetry;
       RepData.buttWink := buttWink;
       RepData.tempo := tempo;
       RepData.heelRise := heelRise;
       RepData.stanceWidth := stanceWidth;
       RepData.hipShift := hipShift;
       RepData.kneeValgus := kneeValgus;
       RepData.kneeTravel := kneeTravel;
       RepData.depthConsistency := depthConsistencyScore;
       RepData.thoracicRounding := thoracicRounding;
       RepData.hipRiseRate := hipRiseRate;
       RepData.reversalControl := reversalControl;
       RepData.stanceWidthShift := stanceWidthShift;
       RepData.headPosition := headPosition |} in
  _ <~ foldH (fun key (_ : unit) =>
                match repField key repData with
                | Some l => setConfidence l (getMetricConfidence key angle)
                | None => lift (Throw TypeError)
                end)
             metricKeys tt ;;
  retH repData.

(** [averageMetricScores(reps.map((r) => r.metric))], a new object. *)
Definition overallOf (metric : RepData.t -> loc) (reps : list RepData.t) : HM loc :=
  scores <~ mapH (fun r => read (metric r)) reps ;;
  new (averageMetricScores scores).

Definition analyzeSquat (frames : list PoseFrame)
           (exerciseType : option ExerciseType) (cameraAngle : option CameraAngle)
  : HM SquatAnalysisResult :=
  detectedReps <~ lift (detectReps frames) ;;
  repsToAnalyze <~
    lift (if (Zlength' detectedReps >? 0)%Z then Ok detectedReps
          else wholeClipRep frames) ;;
  let angle := match cameraAngle with Some a => a | None => uncertain end in
  depthConsistencyScore <~ new (scoreDepthConsistency M frames repsToAnalyze) ;;
  reps <~ mapiH (scoreRep frames angle depthConsistencyScore) repsToAnalyze 0 ;;
  depth <~ overallOf RepData.depth reps ;;
  kneeTracking <~ overallOf RepData.kneeTracking reps ;;
  backAngle <~ overallOf RepData.backAngle reps ;;
  barPath <~ overallOf RepData.barPath reps ;;
  symmetry <~ overallOf RepData.symmetry reps ;;
  buttWink <~ overallOf RepData.buttWink reps ;;
  tempo <~ overallOf RepData.tempo reps ;;
  heelRise <~ overallOf RepData.heelRise reps ;;
  stanceWidth <~ overallOf RepData.stanceWidth reps ;;
  hipShift <~ overallOf RepData.hipShift reps ;;
  kneeValgus <~ overallOf RepData.kneeValgus reps ;;
  kneeTravel <~ overallOf RepData.kneeTravel reps ;;
  thoracicRounding <~ overallOf RepData.thoracicRounding reps ;;
  hipRiseRate <~ overallOf RepData.hipRiseRate reps ;;
  reversalControl <~ overallOf RepData.reversalControl reps ;;
  stanceWidthShift <~ overallOf RepData.stanceWidthShift reps ;;
  headPosition <~ overallOf RepData.headPosition reps ;;
  retH {| reps := reps;
          overall :=
            {| Overall.depth := depth;
               Overall.kneeTracking := kneeTracking;
               Overall.backAngle := backAngle;
               Overall.barPath := barPath;
               Overall.symmetry := symmetry;
               Overall.buttWink := buttWink;
               Overall.tempo := tempo;
               Overall.heelRise := heelRise;
               Overall.stanceWidth := stanceWidth;
               Overall.hipShift := hipShift;
               Overall.kneeValgus := kneeValgus;
               Overall.kneeTravel := kneeTravel;
               Overall.depthConsistency := depthConsistencyScore;
               Overall.thoracicRounding := thoracicRounding;
               Overall.hipRiseRate := hipRiseRate;
               Overall.reversalControl := reversalControl;
               Overall.stanceWidthShift := stanceWidthShift;
               Overall.headPosition := headPosition |};
          repCount := Zlength' reps;
          exerciseType := exerciseType;
          cameraAngle := cameraAngle |}.

End Analysis.

(** ** Trim frames to rep range *)

Module Trimmed.
Record t : Type := mk {
  frames : list PoseFrame;
  startTimestamp : Q;
  endTimestamp : Q
}.
End Trimmed.

Definition BUFFER_SECONDS : Q := 2.5.

(** [bufferFrames] is [None] when the division is by zero, which JavaScript
    makes [Infinity]: then the whole sequence is kept. *)
Definition trimFramesToReps (frames : list PoseFrame) : result Trimmed.t :=
  if (Zlength' frames =? 0)%Z then
    Ok {| Trimmed.frames := frames;
          Trimmed.startTimestamp := 0;
          Trimmed.endTimestamp := 0 |}
  else
    reps <- detectReps frames ;;
    if (Zlength' reps =? 0)%Z then
      first <- frameAt frames 0 ;;
      last <- frameAt frames (Zlength' frames - 1) ;;
      Ok {| Trimmed.frames := frames;
            Trimmed.startTimestamp := timestamp first;
            Trimmed.endTimestamp := timestamp last |}
    else
      firstRep <- repAt reps 0 ;;
      lastRep <- repAt reps (Zlength' reps - 1) ;;
      avgFrameDuration <-
        (if (Zlength' frames >? 1)%Z then
           last <- frameAt frames (Zlength' frames - 1) ;;
           first <- frameAt frames 0 ;;
           Ok ((timestamp last - timestamp first) / ofZ (Zlength' frames - 1))
         else Ok (1 / 30)) ;;
      let bufferFrames :=
        if avgFrameDuration =? 0 then None
        else Some (Math_ceil (BUFFER_SECONDS / avgFrameDuration)) in
      let trimStart :=
        match bufferFrames with
        | None => 0%Z
        | Some b => Z.max 0 (startFrame firstRep - b)
        end in
      let trimEnd :=
        match bufferFrames with
        | None => (Zlength' frames - 1)%Z
        | Some b => Z.min (Zlength' frames - 1) (endFrame lastRep + b)
        end in
      let trimmedFrames := slice frames trimStart (trimEnd + 1) in
      fstart <- frameAt frames trimStart ;;
      fend <- frameAt frames trimEnd ;;
      Ok {| Trimmed.frames := trimmedFrames;
            Trimmed.startTimestamp := timestamp fstart;
            Trimmed.endTimestamp := timestamp fend |}.

(** ** Outlier rejection (src/lib/poseDetection.ts) *)

Definition estimateBodyHeight (landmarks : list Landmark.t) : result Q :=
  let at_lm := fun k => match nth_error landmarks k with
                        | Some l => Ok l
                        | None => Throw TypeError
                        end in
  ls <- at_lm LEFT_SHOULDER ;;
  rs <- at_lm RIGHT_SHOULDER ;;
  la <- at_lm LEFT_ANKLE ;;
  ra <- at_lm RIGHT_ANKLE ;;
  let shoulderY := (Landmark.y ls + Landmark.y rs) / 2 in
  let ankleY := (Landmark.y la + Landmark.y ra) / 2 in
  Ok (Math_abs (ankleY - shoulderY)).

(** [xs.map((x, i) => f(x, i))] for a callback that can throw, [i] counting
    from [i0]. *)
Fixpoint mapiM {A B : Type} (f : A -> nat -> result B) (xs : list A) (i0 : nat)
  : result (list B) :=
  match xs with
  | [] => Ok []
  | x :: rest => b <- f x i0 ;; bs <- mapiM f rest (S i0) ;; Ok (b :: bs)
  end.

Section OutlierRejection.

Context (M : MathLib).

(** The callback of [rawLandmarks.map] in [rejectOutliers]. *)
Definition rejectOne (prevLandmarks : list Landmark.t) (threshold : Q)
           (lm : Landmark.t) (i : nat) : result Landmark.t :=
  match nth_error prevLandmarks i with
  | None => Throw TypeError
  | Some prev =>
      let dx := Landmark.x lm - Landmark.x prev in
      let dy := Landmark.y lm - Landmark.y prev in
      let dist := Math_sqrt M (dx * dx + dy * dy) in
      if dist >? threshold then
        Ok {| Landmark.x := Landmark.x prev;
              Landmark.y := Landmark.y prev;
              Landmark.z := Landmark.z prev;
              Landmark.visibility := Landmark.visibility lm |}
      else Ok lm
  end.

Definition rejectOutliers (rawLandmarks : list Landmark.t)
           (prevLandmarks : option (list Landmark.t)) (bodyHeight : Q)
  : result (list Landmark.t) :=
  match prevLandmarks with
  | None => Ok rawLandmarks
  | Some prevLandmarks =>
      if bodyHeight <=? 0 then Ok rawLandmarks
      else
        let threshold := bodyHeight * 0.15 in
        mapiM (rejectOne prevLandmarks threshold) rawLandmarks 0
  end.

End OutlierRejection.

(** ** Camera angle detection *)

Definition CameraAngle_eqb (a b : CameraAngle) : bool :=
  match a, b with
  | frontal, frontal | rear, rear | left_side, left_side
  | right_side, right_side | diagonal, diagonal | uncertain, uncertain => true
  | _, _ => false
  end.

(** A [Map<CameraAngle, number>]: the entries in insertion order. *)
Definition VoteMap : Type := list (CameraAngle * Z).

Fixpoint mapGet (m : VoteMap) (k : CameraAngle) : option Z :=
  match m with
  | [] => None
  | (k', v) :: rest => if CameraAngle_eqb k' k then Some v else mapGet rest k
  end.

Fixpoint mapSet (m : VoteMap) (k : CameraAngle) (v : Z) : VoteMap :=
  match m with
  | [] => [(k, v)]
  | (k', v') :: rest =>
      if CameraAngle_eqb k' k then (k, v) :: rest else (k', v') :: mapSet rest k v
  end.

(** The inner loop of the stable-window search: are both shoulders visible in
    each of the frames [i .. i+4]?  After the first miss ([break]) no further
    frame is read. *)
Definition windowVisible (frames : list PoseFrame) (i : Z) : result bool :=
  foldM (fun j (allVisible : bool) =>
           if negb allVisible then Ok false
           else
             f <- frameAt frames j ;;
             ls <- lm f LEFT_SHOULDER ;;
             rs <- lm f RIGHT_SHOULDER ;;
             if (Landmark.visibility ls <? 0.3) || (Landmark.visibility rs <? 0.3)
             then Ok false else Ok true)
        (Zrange i (i + 4)) true.

(** The outer loop: the first candidate start with a visible window, or [-1]. *)
Fixpoint findStableStart (frames : list PoseFrame) (candidates : list Z)
  : result Z :=
  match candidates with
  | [] => Ok (-1)%Z
  | i :: rest =>
      allVisible <- windowVisible frames i ;;
      if allVisible then Ok i else findStableStart frames rest
  end.

(** The body of the per-frame classification loop: the vote of frame [f], if
    it casts one. *)
Definition classifyFrame (f : PoseFrame) : result (option CameraAngle) :=
  ls <- lm f LEFT_SHOULDER ;;
  rs <- lm f RIGHT_SHOULDER ;;
  if (Landmark.visibility ls <? 0.3) || (Landmark.visibility rs <? 0.3) then Ok None
  else
    let shoulderSpread := Math_abs (Landmark.x ls - Landmark.x rs) in
    nose <- lm f NOSE ;;
    leftEye <- lm f LEFT_EYE ;;
    rightEye <- lm f RIGHT_EYE ;;
    let faceVis :=
      (Landmark.visibility nose + Landmark.visibility leftEye
       + Landmark.visibility rightEye) / 3 in
    if shoulderSpread <? 0.08 then
      l1 <- lm f LEFT_SHOULDER ;;
      l2 <- lm f LEFT_ELBOW ;;
      l3 <- lm f LEFT_WRIST ;;
      let leftVis :=
        (Landmark.visibility l1 + Landmark.visibility l2 + Landmark.visibility l3) / 3 in
      r1 <- lm f RIGHT_SHOULDER ;;
      r2 <- lm f RIGHT_ELBOW ;;
      r3 <- lm f RIGHT_WRIST ;;
      let rightVis :=
        (Landmark.visibility r1 + Landmark.visibility r2 + Landmark.visibility r3) / 3 in
      Ok (Some (if leftVis >=? rightVis then left_side else right_side))
    else if shoulderSpread >? 0.20 then
      Ok (Some (if faceVis >? 0.5 then frontal else rear))
    else
      Ok (Some diagonal).

(** The votes of the sampled frames, in frame order. *)
Definition collectVotes (sampleFrames : list PoseFrame) : result (list CameraAngle) :=
  foldM (fun f votes =>
           v <- classifyFrame f ;;
           match v with
           | None => Ok votes
           | Some a => Ok (votes ++ [a])
           end)
        sampleFrames [].

(** The majority vote: count the votes in a map, then keep the first entry
    (in insertion order) with the largest count. *)
Definition countVotes (votes : list CameraAngle) : VoteMap :=
  fold_left (fun voteCounts v =>
               mapSet voteCounts v
                      (match mapGet voteCounts v with Some c => c | None => 0%Z end + 1)%Z)
            votes [].

Definition bestVote (voteCounts : VoteMap) : CameraAngle * Z :=
  fold_left (fun '(bestAngle, bestCount) '(angle, count) =>
               if (count >? bestCount)%Z then (angle, count)
               else (bestAngle, bestCount))
            voteCounts (uncertain, 0%Z).

(** The summary that the source prints to the console is not modelled. *)
Definition detectCameraAngle (frames : list PoseFrame) : result CameraAngle :=
  if (Zlength' frames <? 5)%Z then Ok uncertain
  else
    stableStart <- findStableStart frames (Zrange 0 (Zlength' frames - 5)) ;;
    if (stableStart =? -1)%Z then Ok uncertain
    else
      let maxSamples := 15%Z in
      let sampleEnd := Z.min (Zlength' frames) (stableStart + maxSamples) in
      let sampleFrames := slice frames stableStart sampleEnd in
      votes <- collectVotes sampleFrames ;;
      if (Zlength' votes =? 0)%Z then Ok uncertain
      else
        let voteCounts := countVotes votes in
        let '(bestAngle, bestCount) := bestVote voteCounts in
        let confidence := ofZ bestCount / ofZ (Zlength' votes) in
        let finalAngle := if confidence >=? 0.6 then bestAngle else uncertain in
        Ok finalAngle.

(** ** Exercise type detection *)

Section ExerciseType.

Context (M : MathLib).

(** The body of the frame loop of [detectExerciseType]. *)
Definition collectFrame (f : PoseFrame) (acc : list Q * list Q * list Q)
  : result (list Q * list Q * list Q) :=
  let '(hipYValues, hipXValues, kneeAngles) := acc in
  lh <- lm f LEFT_HIP ;;
  rh <- lm f RIGHT_HIP ;;
  lk <- lm f LEFT_KNEE ;;
  rk <- lm f RIGHT_KNEE ;;
  la <- lm f LEFT_ANKLE ;;
  ra <- lm f RIGHT_ANKLE ;;
  if (Landmark.visibility lh <? 0.3) || (Landmark.visibility rh <? 0.3)
  then Ok (hipYValues, hipXValues, kneeAngles)
  else
    let hipYValues := hipYValues ++ [(Landmark.y lh + Landmark.y rh) / 2] in
    let hipXValues := hipXValues ++ [(Landmark.x lh + Landmark.x rh) / 2] in
    let kneeAngles :=
      if (Landmark.visibility lk >? 0.3) && (Landmark.visibility la >? 0.3)
      then kneeAngles ++ [angleBetween M lh lk la] else kneeAngles in
    let kneeAngles :=
      if (Landmark.visibility rk >? 0.3) && (Landmark.visibility ra >? 0.3)
      then kneeAngles ++ [angleBetween M rh rk ra] else kneeAngles in
    Ok (hipYValues, hipXValues, kneeAngles).

Definition detectExerciseType (frames : list PoseFrame) : result ExerciseType :=
  if (Zlength' frames <? 4)%Z then Ok unknown
  else
    '(hipYValues, hipXValues, kneeAngles) <- foldM collectFrame frames ([], [], []) ;;
    if (Zlength' hipYValues <? 2)%Z then Ok unknown
    else
      let hipYRange := maximum hipYValues - minimum hipYValues in
      let hipXRange := maximum hipXValues - minimum hipXValues in
      let kneeAngleRange :=
        if (Zlength' kneeAngles >? 0)%Z
        then maximum kneeAngles - minimum kneeAngles else 0 in
      if (hipYRange >? 0.1) && (kneeAngleRange >? 30) then Ok squat
      else if (hipYRange >? 0.08) && (hipXRange >? 0.05) && (kneeAngleRange <? 30)
      then Ok deadlift
      else if hipYRange >? 0.05 then Ok squat
      else Ok other.

End ExerciseType.

(** ** One Euro filter (src/lib/poseDetection.ts) *)

(** The class [OneEuroFilter]: an object is its fields, a method takes the
    object and returns it with the result. *)
Module OneEuroFilter.

Record t : Type := mk {
  minCutoff : Q;
  beta : Q;
  dCutoff : Q;
  xPrev : Q;
  dxPrev : Q;
  tPrev : Q;
  initialized : bool
}.

(** [new OneEuroFilter(minCutoff, beta, dCutoff)] *)
Definition new (minCutoff beta dCutoff : Q) : t :=
  {| minCutoff := minCutoff;
     beta := beta;
     dCutoff := dCutoff;
     xPrev := 0;
     dxPrev := 0;
     tPrev := 0;
     initialized := false |}.

Section Methods.

Context (M : MathLib).

(** [r / (r + 1)]; the callers pass a [dt > 0], and with cutoffs that are
    not negative [r + 1] is at least 1. *)
Definition smoothingFactor (cutoff dt : Q) : Q :=
  let r := 2 * Math_PI M * cutoff * dt in
  r / (r + 1).

Definition filter (this : t) (x t : Q) : Q * OneEuroFilter.t :=
  if negb (initialized this) then
    (x, {| minCutoff := minCutoff this;
           beta := beta this;
           dCutoff := dCutoff this;
           xPrev := x;
           dxPrev := 0;
           tPrev := t;
           initialized := true |})
  else
    let dt := t - tPrev this in
    if dt <=? 0 then (xPrev this, this)
    else
      let dx := (x - xPrev this) / dt in
      let aD := smoothingFactor (dCutoff this) dt in
      let dxSmoothed := aD * dx + (1 - aD) * dxPrev this in
      let cutoff := minCutoff this + beta this * Math_abs dxSmoothed in
      let a := smoothingFactor cutoff dt in
      let xFiltered := a * x + (1 - a) * xPrev this in
      (xFiltered, {| minCutoff := minCutoff this;
                     beta := beta this;
                     dCutoff := dCutoff this;
                     xPrev := xFiltered;
                     dxPrev := dxSmoothed;
                     tPrev := t;
                     initialized := true |}).

End Methods.

End OneEuroFilter.

(** ** Per-landmark-group filter parameters *)

Definition CORE_TORSO : list Z := [11; 12; 23; 24]%Z.
Definition LEGS : list Z := [25; 26; 27; 28]%Z.

(** [set.has(i)] *)
Definition has (set : list Z) (i : Z) : bool := existsb (Z.eqb i) set.

(** The pair is [{ minCutoff, beta }]. *)
Definition getFilterParams (landmarkIndex : Z) : Q * Q :=
  if has CORE_TORSO landmarkIndex then (1.5, 0.005)
  else if has LEGS landmarkIndex then (0.8, 0.01)
  else (0.5, 0.015).

(** ** Conditioning of the detections in [processVideo] *)

(** The three filters of one landmark: for x, y and z. *)
Definition Filters : Type :=
  (OneEuroFilter.t * OneEuroFilter.t * OneEuroFilter.t)%type.

(** [Array.from({ length: 33 }, (_, i) => ...)]: 33 x 3 filters with the
    tuning of their landmark group. *)
Definition newFilters : list Filters :=
  map (fun i => let '(minCutoff, beta) := getFilterParams i in
                (OneEuroFilter.new minCutoff beta 1,
                 OneEuroFilter.new minCutoff beta 1,
                 OneEuroFilter.new minCutoff beta 1))
      (Zrange 0 32).

(** The state of the frame loop of [processVideo]. *)
Module Conditioner.
Record t : Type := mk {
  filters : list Filters;
  prevLandmarks : option (list Landmark.t);
  bodyHeight : Q;
  frames : list PoseFrame
}.
End Conditioner.

Definition newConditioner : Conditioner.t :=
  {| Conditioner.filters := newFilters;
     Conditioner.prevLandmarks := None;
     Conditioner.bodyHeight := 0;
     Conditioner.frames := [] |}.

Section Conditioning.

Context (M : MathLib).

(** [rawLandmarks.map((lm, j) => ({ x: filters[j][0].filter(lm.x, time), ... }))]:
    landmark [j] goes through the filters [j], which keep their new state; a
    landmark without filters ([filters[j]] undefined) raises. *)
Fixpoint filterLandmarks (filters : list Filters) (rawLandmarks : list Landmark.t)
         (time : Q) : result (list Landmark.t * list Filters) :=
  match rawLandmarks with
  | [] => Ok ([], filters)
  | lm :: rest =>
      match filters with
      | [] => Throw TypeError
      | (fx, fy, fz) :: others =>
          let '(x, fx') := OneEuroFilter.filter M fx (Landmark.x lm) time in
          let '(y, fy') := OneEuroFilter.filter M fy (Landmark.y lm) time in
          let '(z, fz') := OneEuroFilter.filter M fz (Landmark.z lm) time in
          '(landmarks, others') <- filterLandmarks others rest time ;;
          Ok ({| Landmark.x := x; Landmark.y := y; Landmark.z := z;
                 Landmark.visibility := Landmark.visibility lm |} :: landmarks,
              (fx', fy', fz') :: others')
      end
  end.

(** The body of the frame loop of [processVideo] once the landmarker has
    answered for the frame at [time]: [poses] is [result.landmarks].  Without
    a pose nothing changes; else the first pose is checked against the
    previous one, filtered and pushed. *)
Definition conditionFrame (this : Conditioner.t) (poses : list (list Landmark.t))
           (time : Q) : result Conditioner.t :=
  match poses with
  | [] => Ok this
  | rawLandmarks :: _ =>
      bodyHeight <-
        (if Conditioner.bodyHeight this =? 0 then estimateBodyHeight rawLandmarks
         else Ok (Conditioner.bodyHeight this)) ;;
      rawLandmarks <-
        rejectOutliers M rawLandmarks (Conditioner.prevLandmarks this) bodyHeight ;;
      '(landmarks, filters) <-
        filterLandmarks (Conditioner.filters this) rawLandmarks time ;;
      Ok {| Conditioner.filters := filters;
            Conditioner.prevLandmarks := Some rawLandmarks;
            Conditioner.bodyHeight := bodyHeight;
            Conditioner.frames :=
              Conditioner.frames this
                ++ [ {| timestamp := time; landmarks := landmarks |} ] |}
  end.

End Conditioning.

(** ** The checks of [processVideo] after the frame loop *)

Module PoseAnalysisResult.
Record t : Type := mk {
  frames : list PoseFrame;
  videoDuration : Q;
  fps : Z;
  frameCount : Z;
  cameraAngle : CameraAngle;
  exerciseType : ExerciseType
}.
End PoseAnalysisResult.







Section Gate.

Context (M : MathLib).


End Gate.

(** ** Helpers of the results page (src/app/results/page.tsx) *)

Definition overallRating (score : Z) : MetricRating :=
  if (score >=? 80)%Z then green
  else if (score >=? 50)%Z then yellow
  else red.

(** [m.confidence !== "low"] *)
Definition notLow (m : MetricScore.t) : bool :=
  match MetricScore.confidence m with
  | low => false
  | _ => true
  end.

(** [ms.reduce((sum, m) => sum + m.score, 0)] *)
Definition sumScores (ms : list MetricScore.t) : Z :=
  fold_left (fun sum m => (sum + MetricScore.score m)%Z) ms 0%Z.

(** The overall score of [ResultsPage]: the rounded mean score of the
    overall metrics that are not of low confidence, of all of them when all
    are.  The page passes the eighteen overall metrics. *)
Definition overallScore (allMetrics : list MetricScore.t) : Z :=
  let confidentMetrics := List.filter notLow allMetrics in
  if (Zlength' confidentMetrics >? 0)%Z
  then Math_round (ofZ (sumScores confidentMetrics) / ofZ (Zlength' confidentMetrics))
  else Math_round (ofZ (sumScores allMetrics) / ofZ (Zlength' allMetrics)).

(** The loop of [findNearestFrameIdx] over the indices [rest]. *)
Fixpoint findNearest_loop (frames : list PoseFrame) (time : Q) (rest : list Z)
         (best : Z) (bestDist : Q) : result Z :=
  match rest with
  | [] => Ok best
  | i :: rest' =>
      f <- frameAt frames i ;;
      let dist := Math_abs (timestamp f - time) in
      if dist <? bestDist then findNearest_loop frames time rest' i dist
      else Ok best
  end.

Definition findNearestFrameIdx (frames : list PoseFrame) (time : Q) : result Z :=
  if (Zlength' frames =? 0)%Z then Ok 0%Z
  else
    first <- frameAt frames 0 ;;
    findNearest_loop frames time (Zrange 1 (Zlength' frames - 1)) 0
                     (Math_abs (timestamp first - time)).

(** The rectangle in which the video is shown inside the canvas. *)
Module DisplayRect.
Record t : Type := mk { dw : Q; dh : Q; ox : Q; oy : Q }.
End DisplayRect.

(** [Math.trunc] *)
Definition Math_trunc (q : Q) : Z := if q <? 0 then Qceiling q else Qfloor q.

(** [x % y] on numbers: the remainder has the sign of [x]. *)
Definition remainder (x y : Q) : Q := x - y * ofZ (Math_trunc (x / y)).

(** [s.padStart(targetLength, c)] for a one-character filler [c]. *)
Fixpoint padding (n : nat) (c : string) : string :=
  match n with
  | O => ""%string
  | S n' => (c ++ padding n' c)%string
  end.

Definition padStart (targetLength : nat) (c : string) (s : string) : string :=
  (padding (targetLength - String.length s) c ++ s)%string.

(** The clock of the replay, [m:ss]. *)
Definition formatTimestamp (seconds : Q) : string :=
  let m := Math_floor (seconds / 60) in
  let s := Math_floor (remainder seconds 60) in
  (Z_to_string m ++ ":" ++ padStart 2 "0" (Z_to_string s))%string.

(** ** A host and sample clips for concrete runs *)

(** Rational approximations of the host functions, rounded to four
    decimals: the square root by the integer square root, the arc tangent by
    a quadratic (good to about a fifth of a degree), the arc cosine by a
    cubic in the square root. *)
Definition approx (q : Q) : Q := Qred (Qfloor (q * 10000 + 1 / 2) # 10000).

Definition hostPI : Q := 3.1416.

Definition hostSqrt (q : Q) : Q :=
  if q <=? 0 then 0
  else Qred (Z.sqrt (Qnum q * 100000000 / Zpos (Qden q)) # 10000).

Definition hostAtan (t : Q) : Q :=
  let a := Qabs t in
  let r :=
    if a <=? 1 then a * (hostPI / 4) + 0.273 * a * (1 - a)
    else
      let u := 1 / a in
      hostPI / 2 - (u * (hostPI / 4) + 0.273 * u * (1 - u)) in
  approx (if t <? 0 then - r else r).

Definition hostAtan2 (y x : Q) : Q :=
  if x >? 0 then hostAtan (y / x)
  else if x <? 0 then
    (if y >=? 0 then hostAtan (y / x) + hostPI else hostAtan (y / x) - hostPI)
  else if y >? 0 then hostPI / 2
  else if y <? 0 then - (hostPI / 2)
  else 0.

Definition hostAcos (c : Q) : Q :=
  let a := Qabs c in
  let r :=
    hostSqrt (1 - a)
    * (1.5707288 - 0.2121144 * a + 0.0742610 * a * a - 0.0187293 * a * a * a) in
  approx (if c <? 0 then hostPI - r else r).

Definition hostMath : MathLib :=
  {| Math_sqrt := hostSqrt;
     Math_acos := hostAcos;
     Math_atan2 := hostAtan2;
     Math_PI := hostPI |}.

Definition landmark (x y : Q) : Landmark.t :=
  {| Landmark.x := x; Landmark.y := y; Landmark.z := 0; Landmark.visibility := 1 |}.

(** A figure seen from the front with its hips at height [hipY], all 33
    landmarks visible: shoulders 0.3 above the hips, knees at 0.7, ankles at
    0.9. *)
Definition figure (t hipY : Q) : PoseFrame :=
  let head := landmark 0.5 (hipY - 0.45) in
  {| timestamp := t;
     landmarks :=
       [ head; head; head; head; head; head; head; head; head; head; head;
         landmark 0.4 (hipY - 0.3); landmark 0.6 (hipY - 0.3);
         landmark 0.38 (hipY - 0.15); landmark 0.62 (hipY - 0.15);
         landmark 0.38 hipY; landmark 0.62 hipY;
         landmark 0.38 hipY; landmark 0.62 hipY;
         landmark 0.38 hipY; landmark 0.62 hipY;
         landmark 0.38 hipY; landmark 0.62 hipY;
         landmark 0.45 hipY; landmark 0.55 hipY;
         landmark 0.42 0.7; landmark 0.58 0.7;
         landmark 0.42 0.9; landmark 0.58 0.9;
         landmark 0.42 0.92; landmark 0.58 0.92;
         landmark 0.42 0.93; landmark 0.58 0.93 ] |}.

(** The clip whose frame [i] is taken at [i * dt] seconds and shows the hips
    at height [ys[i]]. *)
Definition clip (dt : Q) (ys : list Q) : list PoseFrame :=
  map (fun '(i, hy) => figure (ofZ (Z.of_nat i) * dt) hy)
      (combine (seq 0 (List.length ys)) ys).

(** One squat at 30 frames per second would be too quick to score well, but
    the segmentation only looks at the hip heights: a descent from 0.5 to
    0.75 and back. *)
Definition oneSquat : list Q :=
  [0.5; 0.5; 0.5; 0.52; 0.56; 0.62; 0.68; 0.73; 0.75; 0.73; 0.68; 0.62; 0.56;
   0.52; 0.5; 0.5; 0.5].

(** A clip of three squats, ten frames per second. *)
Definition threeSquats : list PoseFrame :=
  clip 0.1 (oneSquat ++ oneSquat ++ oneSquat).

(** The analysis of one squat and of the clip of three, run on the host. *)
Definition oneSquatRun : result (SquatAnalysisResult * heap) :=
  Eval vm_compute in
    analyzeSquat hostMath (clip 0.1 oneSquat) (Some squat) None [].

Definition threeSquatsRun : result (SquatAnalysisResult * heap) :=
  Eval vm_compute in
    analyzeSquat hostMath threeSquats (Some squat) (Some left_side) [].

(** ** Vocabulary of the properties *)

(** Every frame carries the 33 landmarks of the pose model. *)
Definition wellFormed (frames : list PoseFrame) : Prop :=
  Forall (fun f => List.length (landmarks f) = 33%nat) frames.

Definition wellFormedb (frames : list PoseFrame) : bool :=
  forallb (fun f => Nat.eqb (List.length (landmarks f)) 33) frames.

(** A rep lies within the clip, its bottom between its start and its end. *)
Definition validRep (frames : list PoseFrame) (rep : DetectedRep) : Prop :=
  (0 <= startFrame rep <= bottomFrame rep)%Z
  /\ (bottomFrame rep <= endFrame rep < Zlength' frames)%Z.

(** Two peaks are at least three frames apart. *)
Definition gap3 (a b : Z) : Prop := (a + 3 <= b)%Z.

(** Two landmark arrays for the outlier rejector: in [jumpNow] the nose
    (landmark 0) has jumped by 0.3 since [jumpBefore], the left eye
    (landmark 2) by 0.01; the body height is 0.6, the threshold 0.09. *)
Definition jumpBefore : list Landmark.t := landmarks (figure 0 0.5).

Definition jumpNow : list Landmark.t :=
  {| Landmark.x := 0.8; Landmark.y := 0.05; Landmark.z := 0.25;
     Landmark.visibility := 0.5 |}
    :: landmark 0.5 0.05
    :: {| Landmark.x := 0.51; Landmark.y := 0.05; Landmark.z := 0.25;
          Landmark.visibility := 0.5 |}
    :: skipn 3 jumpBefore.

(** Ascending order of scores. *)
Definition scoreLe (a b : MetricScore.t) : Prop :=
  (MetricScore.score a <= MetricScore.score b)%Z.

(** The sum of the scores of the reps. *)
Definition totalScore (scores : list MetricScore.t) : Z :=
  fold_right (fun m s => (MetricScore.score m + s)%Z) 0%Z scores.

(** The context that [averageMetricScores] appends to the summary. *)
Definition goodRepsSuffix (scores : list MetricScore.t) : string :=
  if (Zlength' scores >? 1)%Z then
    (" (" ++ Z_to_string (Zlength' (filter (fun s => (MetricScore.score s >=? 80)%Z) scores))
       ++ "/" ++ Z_to_string (Zlength' scores) ++ " reps rated good)")%string
  else ""%string.

(** The representative summary as the specification words it: that of the
    rep whose score is the lower median, the entry at position
    [floor((n - 1) / 2)] of the scores in ascending order. *)
Definition lowerMedianSummary (scores : list MetricScore.t) : string :=
  match nth_error (sortByScore scores) (Z.to_nat ((Zlength' scores - 1) / 2)) with
  | Some m => MetricScore.summary m
  | None => ""%string
  end.

(** Two reps of one metric, the first scoring 60 and the second 90. *)
Definition fairRep : MetricScore.t :=
  {| MetricScore.score := 60;
     MetricScore.rating := yellow;
     MetricScore.summary := "Minor knee drift detected";
     MetricScore.issueFrames := [12; 13]%Z;
     MetricScore.confidence := medium |}.

Definition goodRep : MetricScore.t :=
  {| MetricScore.score := 90;
     MetricScore.rating := green;
     MetricScore.summary := "Good knee tracking";
     MetricScore.issueFrames := [13]%Z;
     MetricScore.confidence := medium |}.

(** Landmark [k] of a frame that carries it. *)
Definition landmarkOf (f : PoseFrame) (k : nat) : Landmark.t :=
  nth k (landmarks f) (landmark 0 0).

(** The frames with usable hip data: both hips at visibility 0.3 or more. *)
Definition hipsUsable (f : PoseFrame) : bool :=
  (Landmark.visibility (landmarkOf f LEFT_HIP) >=? 0.3)
  && (Landmark.visibility (landmarkOf f RIGHT_HIP) >=? 0.3).

Definition usableFrames (frames : list PoseFrame) : list PoseFrame :=
  filter hipsUsable frames.

Definition avgHipY (f : PoseFrame) : Q :=
  (Landmark.y (landmarkOf f LEFT_HIP) + Landmark.y (landmarkOf f RIGHT_HIP)) / 2.

Definition avgHipX (f : PoseFrame) : Q :=
  (Landmark.x (landmarkOf f LEFT_HIP) + Landmark.x (landmarkOf f RIGHT_HIP)) / 2.

(** The knee angles a usable frame contributes: that of each leg whose knee
    and ankle are at visibility above 0.3, the left leg first. *)
Definition kneeAnglesOf (M : MathLib) (f : PoseFrame) : list Q :=
  (if (Landmark.visibility (landmarkOf f LEFT_KNEE) >? 0.3)
      && (Landmark.visibility (landmarkOf f LEFT_ANKLE) >? 0.3)
   then [angleBetween M (landmarkOf f LEFT_HIP) (landmarkOf f LEFT_KNEE)
                      (landmarkOf f LEFT_ANKLE)]
   else [])
  ++ (if (Landmark.visibility (landmarkOf f RIGHT_KNEE) >? 0.3)
         && (Landmark.visibility (landmarkOf f RIGHT_ANKLE) >? 0.3)
      then [angleBetween M (landmarkOf f RIGHT_HIP) (landmarkOf f RIGHT_KNEE)
                         (landmarkOf f RIGHT_ANKLE)]
      else []).

(** The range (max - min) of a pooled measurement, 0 when there is none. *)
Definition rangeOf (values : list Q) : Q :=
  match values with
  | [] => 0
  | _ => maximum values - minimum values
  end.

Definition hipYRange (frames : list PoseFrame) : Q :=
  rangeOf (map avgHipY (usableFrames frames)).

Definition hipXRange (frames : list PoseFrame) : Q :=
  rangeOf (map avgHipX (usableFrames frames)).

Definition kneeAngleRange (M : MathLib) (frames : list PoseFrame) : Q :=
  rangeOf (flat_map (kneeAnglesOf M) (usableFrames frames)).

(** The classification as the specification words it. *)
Definition classifyExercise (M : MathLib) (frames : list PoseFrame) : ExerciseType :=
  if (Zlength' (usableFrames frames) <? 2)%Z then unknown
  else if (hipYRange frames >? 0.1) && (kneeAngleRange M frames >? 30) then squat
  else if (hipYRange frames >? 0.08) && (hipXRange frames >? 0.05)
          && (kneeAngleRange M frames <? 30) then deadlift
  else if hipYRange frames >? 0.05 then squat
  else other.

(** Three frames of a squat, every landmark visible. *)
Definition threeFrames : list PoseFrame := clip 0.1 [0.5; 0.6; 0.7].

(** Both shoulders at visibility 0.3 or more. *)
Definition shouldersVisible (f : PoseFrame) : bool :=
  (Landmark.visibility (landmarkOf f LEFT_SHOULDER) >=? 0.3)
  && (Landmark.visibility (landmarkOf f RIGHT_SHOULDER) >=? 0.3).

(** A stable window starts at frame [i]: the five frames [i .. i+4] exist
    and show both shoulders. *)
Definition stableAt (frames : list PoseFrame) (i : Z) : Prop :=
  (0 <= i)%Z /\ (i + 5 <= Zlength' frames)%Z
  /\ forall j, (i <= j < i + 5)%Z ->
               exists f, nth_error frames (Z.to_nat j) = Some f
                         /\ shouldersVisible f = true.

(** The vote of one sampled frame as the specification words it. *)
Definition frameVote (f : PoseFrame) : option CameraAngle :=
  if shouldersVisible f then
    let spread :=
      Math_abs (Landmark.x (landmarkOf f LEFT_SHOULDER)
                - Landmark.x (landmarkOf f RIGHT_SHOULDER)) in
    let faceVis :=
      (Landmark.visibility (landmarkOf f NOSE)
       + Landmark.visibility (landmarkOf f LEFT_EYE)
       + Landmark.visibility (landmarkOf f RIGHT_EYE)) / 3 in
    let leftVis :=
      (Landmark.visibility (landmarkOf f LEFT_SHOULDER)
       + Landmark.visibility (landmarkOf f LEFT_ELBOW)
       + Landmark.visibility (landmarkOf f LEFT_WRIST)) / 3 in
    let rightVis :=
      (Landmark.visibility (landmarkOf f RIGHT_SHOULDER)
       + Landmark.visibility (landmarkOf f RIGHT_ELBOW)
       + Landmark.visibility (landmarkOf f RIGHT_WRIST)) / 3 in
    if spread <? 0.08 then
      Some (if leftVis >=? rightVis then left_side else right_side)
    else if spread >? 0.20 then
      Some (if faceVis >? 0.5 then frontal else rear)
    else Some diagonal
  else None.

(** The votes of the up to 15 frames sampled from frame [s] on. *)
Definition sampleVotes (frames : list PoseFrame) (s : Z) : list CameraAngle :=
  flat_map (fun f => match frameVote f with Some a => [a] | None => [] end)
           (slice frames s (Z.min (Zlength' frames) (s + 15))).

(** How many of the votes are for [a]. *)
Definition votesFor (a : CameraAngle) (votes : list CameraAngle) : Z :=
  Zlength' (filter (CameraAngle_eqb a) votes).

(** The invariant of a [MetricScore]: the score is an integer from 0 to 100
    and the rating is the tier of the score. *)
Definition validScore (m : MetricScore.t) : Prop :=
  (0 <= MetricScore.score m <= 100)%Z
  /\ (MetricScore.rating m = green <-> (80 <= MetricScore.score m)%Z)
  /\ (MetricScore.rating m = yellow <-> (50 <= MetricScore.score m < 80)%Z)
  /\ (MetricScore.rating m = red <-> (MetricScore.score m < 50)%Z).

(** Every object of the heap satisfies the invariant. *)
Definition validHeap (h : heap) : Prop := Forall validScore h.

(** What [analyzeSquat] makes of one rep: the frame bounds are copied, the
    rep number is the position counted from 1, the depth-consistency object
    is the shared one, and every metric is an object of the heap. *)
Definition scoredAs (dcs : loc) (h : heap) (rep : DetectedRep) (idx : Z)
           (r : RepData.t) : Prop :=
  RepData.repNumber r = (idx + 1)%Z
  /\ RepData.startFrame r = startFrame rep
  /\ RepData.endFrame r = endFrame rep
  /\ RepData.bottomFrame r = bottomFrame rep
  /\ RepData.depthConsistency r = dcs
  /\ forall key, In key metricKeys ->
                 exists l, repField key r = Some l /\ (l < List.length h)%nat.

(** [scoredAs] for a list of reps, numbered from [idx] on. *)
Fixpoint allScoredAs (dcs : loc) (h : heap) (reps : list DetectedRep) (idx : Z)
         (rs : list RepData.t) : Prop :=
  match reps, rs with
  | [], [] => True
  | rep :: reps', r :: rs' =>
      scoredAs dcs h rep idx r /\ allScoredAs dcs h reps' (idx + 1) rs'
  | _, _ => False
  end.

(** ** Vocabulary of the further properties *)

(** The hip heights of a clip, frame by frame. *)
Definition hipHeights (frames : list PoseFrame) : list Q := map avgHipY frames.

(** [b] is the deepest frame among the first [k] of the hip heights [hs],
    the first one on a tie. *)
Definition firstDeepest (hs : list Q) (k b : Z) : Prop :=
  (0 <= b < k)%Z
  /\ (forall j, (0 <= j < k)%Z -> at_ hs j <= at_ hs b)
  /\ (forall j, (0 <= j < b)%Z -> at_ hs j < at_ hs b).

(** The range of the hip heights of a clip. *)
Definition hipRange (frames : list PoseFrame) : Q :=
  maximum (hipHeights frames) - minimum (hipHeights frames).

(** The object at [l] carries the confidence [c]. *)
Definition confidenceAt (h : heap) (l : loc) (c : MetricConfidence) : Prop :=
  exists m, nth_error h l = Some m /\ MetricScore.confidence m = c.

(** Whether the stamping loop over [keys] assigns to the object [l] of
    [repData]. *)
Definition stamps (keys : list string) (repData : RepData.t) (l : loc) : bool :=
  existsb (fun key => match repField key repData with
                      | Some l' => Nat.eqb l' l
                      | None => false
                      end) keys.

(** Every metric object of [r] carries the confidence of its key for the
    camera angle; only the depth-consistency key names the shared object
    [dcs]. *)
Definition stamped (angle : CameraAngle) (dcs : loc) (h : heap) (r : RepData.t)
  : Prop :=
  forall key, In key metricKeys ->
    exists l, repField key r = Some l
              /\ confidenceAt h l (getMetricConfidence key angle)
              /\ (l = dcs -> key = "depthConsistency"%string).

(** The timestamp of frame [i] of a clip that has one. *)
Definition timestampAt (frames : list PoseFrame) (i : Z) : Q :=
  match nth_error frames (Z.to_nat i) with
  | Some f => timestamp f
  | None => 0
  end.




(** The timestamps of the clip increase from frame to frame. *)
Definition increasingTimestamps (frames : list PoseFrame) : Prop :=
  forall i j, (0 <= i < j)%Z -> (j < Zlength' frames)%Z ->
              timestampAt frames i < timestampAt frames j.

(** The distance in time of frame [i] from [time]. *)
Definition timeDistance (frames : list PoseFrame) (time : Q) (i : Z) : Q :=
  Math_abs (timestampAt frames i - time).

(** The eighteen overall metrics as [ResultsPage] lists them. *)
Definition overallMetrics (o : Overall.t) : list loc :=
  [ Overall.depth o; Overall.kneeTracking o; Overall.backAngle o; Overall.barPath o;
    Overall.symmetry o; Overall.buttWink o; Overall.tempo o; Overall.heelRise o;
    Overall.stanceWidth o; Overall.hipShift o; Overall.kneeValgus o;
    Overall.kneeTravel o; Overall.depthConsistency o; Overall.thoracicRounding o;
    Overall.hipRiseRate o; Overall.reversalControl o; Overall.stanceWidthShift o;
    Overall.headPosition o ].


(** The height of the knee midpoint in a frame. *)
Definition avgKneeY (f : PoseFrame) : Q :=
  (Landmark.y (landmarkOf f LEFT_KNEE) + Landmark.y (landmarkOf f RIGHT_KNEE)) / 2.

(** Frame [i] lies within the rep. *)
Definition inRep (rep : DetectedRep) (i : Z) : Prop :=
  (startFrame rep <= i <= endFrame rep)%Z.

(** Every issue frame of [m] lies within one of the reps. *)
Definition issuesIn (reps : list DetectedRep) (m : MetricScore.t) : Prop :=
  Forall (fun i => exists rep, In rep reps /\ inRep rep i) (MetricScore.issueFrames m).

(** Every issue frame of [m] is a frame of the clip that lies within one of
    the reps of the result. *)
Definition flagsWithin (frames : list PoseFrame) (rs : list RepData.t)
           (m : MetricScore.t) : Prop :=
  forall i, In i (MetricScore.issueFrames m) ->
            (0 <= i < Zlength' frames)%Z
            /\ exists r, In r rs
                         /\ (RepData.startFrame r <= i <= RepData.endFrame r)%Z.

(** * Properties *)

(** Linear integer arithmetic with the quotients by constants spelled out. *)
Ltac zlia := Z.to_euclidean_division_equations; lia.

(** ** Comparisons, rounding and clamping *)

Lemma Qltb_lt (a b : Q) : (a <? b) = true <-> a < b.
Proof.
  unfold Qltb. rewrite negb_true_iff.
  split; intro H.
  - apply Qnot_le_lt. intro Hle. apply Qle_bool_iff in Hle. congruence.
  - destruct (Qle_bool b a) eqn:E; [|reflexivity].
    apply Qle_bool_iff in E. exfalso. exact (Qlt_not_le _ _ H E).
Qed.

Lemma Qltb_ge (a b : Q) : (a <? b) = false <-> b <= a.
Proof.
  unfold Qltb. rewrite negb_false_iff. apply Qle_bool_iff.
Qed.

Lemma Qgtb_gt (a b : Q) : (a >? b) = true <-> b < a.
Proof. apply Qltb_lt. Qed.

Lemma Qgtb_le (a b : Q) : (a >? b) = false <-> a <= b.
Proof. apply Qltb_ge. Qed.

Lemma Qgeb_ge (a b : Q) : (a >=? b) = true <-> b <= a.
Proof. apply Qle_bool_iff. Qed.

Lemma Qgeb_lt (a b : Q) : (a >=? b) = false <-> a < b.
Proof.
  unfold Qgeb. split; intro H.
  - apply Qnot_le_lt. intro Hle. apply Qle_bool_iff in Hle. congruence.
  - destruct (Qle_bool b a) eqn:E; [|reflexivity].
    apply Qle_bool_iff in E. exfalso. exact (Qlt_not_le _ _ H E).
Qed.

Lemma Qleb_gt (a b : Q) : (a <=? b) = false <-> b < a.
Proof. apply (Qgeb_lt b a). Qed.

(** [>] on measurements is asymmetric. *)
Lemma Qgtb_asym (a b : Q) : (a >? b) = true -> (b >? a) = true -> False.
Proof.
  rewrite !Qgtb_gt. intros H1 H2. exact (Qlt_irrefl _ (Qlt_trans _ _ _ H1 H2)).
Qed.

Lemma Math_max_cases (a b : Q) :
  (Math_max a b = a /\ b <= a) \/ (Math_max a b = b /\ a <= b).
Proof.
  unfold Math_max, Qmax, GenericMinMax.gmax.
  destruct (a ?= b) eqn:E.
  - apply Qeq_alt in E. left. split; [reflexivity | rewrite E; apply Qle_refl].
  - apply Qlt_alt in E. right. split; [reflexivity | apply Qlt_le_weak; assumption].
  - apply Qgt_alt in E. left. split; [reflexivity | apply Qlt_le_weak; assumption].
Qed.

Lemma Math_min_cases (a b : Q) :
  (Math_min a b = a /\ a <= b) \/ (Math_min a b = b /\ b <= a).
Proof.
  unfold Math_min, Qmin, GenericMinMax.gmin.
  destruct (a ?= b) eqn:E.
  - apply Qeq_alt in E. left. split; [reflexivity | rewrite E; apply Qle_refl].
  - apply Qlt_alt in E. left. split; [reflexivity | apply Qlt_le_weak; assumption].
  - apply Qgt_alt in E. right. split; [reflexivity | apply Qlt_le_weak; assumption].
Qed.

Lemma clamp_bounds (value min max : Q) :
  min <= max -> min <= clamp value min max <= max.
Proof.
  intro H. unfold clamp.
  destruct (Math_min_cases max value) as [[E ?] | [E ?]]; rewrite E;
    match goal with
    | |- context [Math_max ?a ?b] =>
        destruct (Math_max_cases a b) as [[E' ?] | [E' ?]]; rewrite E'
    end; split; lra.
Qed.

Lemma Math_round_bounds (lo hi : Z) (q : Q) :
  inject_Z lo <= q <= inject_Z hi -> (lo <= Math_round q <= hi)%Z.
Proof.
  intros [Hlo Hhi]. unfold Math_round.
  assert (Hhalf : 1 / 2 == 1 # 2) by reflexivity.
  split.
  - rewrite <- (Qfloor_Z lo). apply Qfloor_resp_le. lra.
  - assert (H : (Qfloor (q + 1 / 2) < hi + 1)%Z).
    { rewrite Zlt_Qlt. apply Qle_lt_trans with (q + 1 / 2).
      - apply Qfloor_le.
      - rewrite inject_Z_plus. change (inject_Z 1) with 1. lra. }
    lia.
Qed.

(** ** Index ranges *)

Lemma Zrange_length (lo hi : Z) :
  List.length (Zrange lo hi) = Z.to_nat (hi - lo + 1).
Proof. unfold Zrange. now rewrite length_map, length_seq. Qed.

Lemma Zrange_In (lo hi i : Z) : In i (Zrange lo hi) <-> (lo <= i <= hi)%Z.
Proof.
  unfold Zrange. rewrite in_map_iff. split.
  - intros [k [<- Hk]]. apply in_seq in Hk. lia.
  - intros H. exists (Z.to_nat (i - lo)). split; [lia|]. apply in_seq. lia.
Qed.

Lemma Zrange_nth (lo hi d : Z) (k : nat) :
  (k < Z.to_nat (hi - lo + 1))%nat ->
  nth k (Zrange lo hi) d = (lo + Z.of_nat k)%Z.
Proof.
  intro H. unfold Zrange.
  rewrite nth_indep with (d' := (lo + Z.of_nat 0)%Z)
    by now rewrite length_map, length_seq.
  rewrite (map_nth (fun k => (lo + Z.of_nat k)%Z) (seq 0 (Z.to_nat (hi - lo + 1))) 0%nat k).
  rewrite seq_nth by assumption. reflexivity.
Qed.

Lemma Zrange_nth_error (lo hi : Z) (k : nat) (i : Z) :
  nth_error (Zrange lo hi) k = Some i ->
  i = (lo + Z.of_nat k)%Z /\ (lo <= i <= hi)%Z.
Proof.
  intro H.
  assert (Hk : (k < Z.to_nat (hi - lo + 1))%nat).
  { rewrite <- Zrange_length. apply nth_error_Some. congruence. }
  apply nth_error_nth with (d := 0%Z) in H.
  rewrite Zrange_nth in H by assumption. lia.
Qed.

Lemma Zrange_sorted (lo hi : Z) : StronglySorted Z.lt (Zrange lo hi).
Proof.
  unfold Zrange. generalize (Z.to_nat (hi - lo + 1)) as n.
  generalize 0%nat as k. intros k n. revert k.
  induction n as [|n IH]; intro k; simpl; constructor.
  - apply IH.
  - apply Forall_forall. intros i Hi. apply in_map_iff in Hi.
    destruct Hi as [j [<- Hj]]. apply in_seq in Hj. lia.
Qed.

Lemma filter_StronglySorted (R : Z -> Z -> Prop) (P : Z -> bool) (l : list Z) :
  StronglySorted Z.lt l ->
  (forall a b, P a = true -> P b = true -> (a < b)%Z -> R a b) ->
  StronglySorted R (filter P l).
Proof.
  intros Hs HR. induction Hs as [|a l Hs IH Ha]; simpl.
  - constructor.
  - destruct (P a) eqn:Pa; [|exact IH].
    constructor; [exact IH|].
    apply Forall_forall. intros b Hb. apply filter_In in Hb.
    destruct Hb as [Hb Pb]. rewrite Forall_forall in Ha.
    apply HR; auto.
Qed.

Lemma StronglySorted_nth (R : Z -> Z -> Prop) (l : list Z) (d : Z) (i j : nat) :
  StronglySorted R l -> (i < j < List.length l)%nat ->
  R (nth i l d) (nth j l d).
Proof.
  intro Hs. revert i j. induction Hs as [|a l Hs IH Ha]; intros i j Hij.
  - simpl in Hij. lia.
  - destruct j as [|j]; [lia|]. destruct i as [|i]; simpl.
    + rewrite Forall_forall in Ha. apply Ha, nth_In. simpl in Hij. lia.
    + apply IH. simpl in Hij. lia.
Qed.

(** ** Rep detection: the peaks *)

Lemma isBottom_peak (smoothed : list Q) (i : Z) :
  isBottom smoothed i = true ->
  (at_ smoothed i >? at_ smoothed (i - 1)) = true
  /\ (at_ smoothed i >? at_ smoothed (i - 2)) = true
  /\ (at_ smoothed i >? at_ smoothed (i + 1)) = true
  /\ (at_ smoothed i >? at_ smoothed (i + 2)) = true.
Proof.
  unfold isBottom.
  destruct (at_ smoothed i >? at_ smoothed (i - 1)); simpl; [|discriminate].
  destruct (at_ smoothed i >? at_ smoothed (i - 2)); simpl; [|discriminate].
  destruct (at_ smoothed i >? at_ smoothed (i + 1)); simpl; [|discriminate].
  destruct (at_ smoothed i >? at_ smoothed (i + 2)); simpl; [|discriminate].
  auto.
Qed.

(** Two peaks are at least three frames apart: a peak exceeds its two
    neighbours on either side, so neither of them is a peak. *)
Lemma isBottom_gap (smoothed : list Q) (a b : Z) :
  isBottom smoothed a = true -> isBottom smoothed b = true ->
  (a < b)%Z -> gap3 a b.
Proof.
  intros Ha Hb Hlt. unfold gap3.
  apply isBottom_peak in Ha. apply isBottom_peak in Hb.
  destruct Ha as (_ & _ & Ha1 & Ha2). destruct Hb as (Hb1 & Hb2 & _ & _).
  destruct (Z.eq_dec b (a + 1)) as [->|N1].
  - replace (a + 1 - 1)%Z with a in Hb1 by lia.
    exfalso. exact (Qgtb_asym _ _ Ha1 Hb1).
  - destruct (Z.eq_dec b (a + 2)) as [->|N2]; [|lia].
    replace (a + 2 - 2)%Z with a in Hb2 by lia.
    exfalso. exact (Qgtb_asym _ _ Ha2 Hb2).
Qed.

Lemma bottoms_sorted (smoothed : list Q) (lo hi : Z) :
  StronglySorted gap3 (filter (isBottom smoothed) (Zrange lo hi)).
Proof.
  apply filter_StronglySorted.
  - apply Zrange_sorted.
  - apply isBottom_gap.
Qed.

Lemma bottoms_range (smoothed : list Q) (lo hi b : Z) :
  In b (filter (isBottom smoothed) (Zrange lo hi)) -> (lo <= b <= hi)%Z.
Proof. intro H. apply filter_In in H. now apply Zrange_In. Qed.

(** ** Rep detection: the valley walk *)

Lemma findValley_loop_down (smoothed : list Q) (boundary : Z) (fuel : nat) (i : Z) :
  (boundary <= i)%Z ->
  (boundary <= findValley_loop smoothed (-1) boundary fuel i <= i)%Z.
Proof.
  revert i. induction fuel as [|fuel IH]; intros i Hi; simpl; [lia|].
  destruct (i + -1 <? boundary)%Z eqn:E; [lia|].
  destruct (at_ smoothed (i + -1) >? at_ smoothed i); [lia|].
  apply Z.ltb_ge in E. specialize (IH (i + -1)%Z E). lia.
Qed.

Lemma findValley_loop_up (smoothed : list Q) (boundary : Z) (fuel : nat) (i : Z) :
  (i <= boundary)%Z ->
  (i <= findValley_loop smoothed 1 boundary fuel i <= boundary)%Z.
Proof.
  revert i. induction fuel as [|fuel IH]; intros i Hi; simpl; [lia|].
  destruct (i + 1 >? boundary)%Z eqn:E; [lia|].
  destruct (at_ smoothed (i + 1) >? at_ smoothed i); [lia|].
  assert (E' : (i + 1 <= boundary)%Z) by (rewrite Z.gtb_ltb in E; apply Z.ltb_ge in E; lia).
  specialize (IH (i + 1)%Z E'). lia.
Qed.

(** The fuel of [findValley] is enough: the walk ends at a [break], so that
    more fuel gives the same frame. *)
Lemma findValley_loop_fuel (smoothed : list Q) (direction boundary : Z)
      (fuel extra : nat) (i : Z) :
  direction = (-1)%Z \/ direction = 1%Z ->
  (Z.to_nat (Z.abs (i - boundary)) < fuel)%nat ->
  (direction = (-1)%Z -> boundary <= i)%Z ->
  (direction = 1%Z -> i <= boundary)%Z ->
  findValley_loop smoothed direction boundary (fuel + extra) i
  = findValley_loop smoothed direction boundary fuel i.
Proof.
  intros Hd. revert i. induction fuel as [|fuel IH]; intros i Hf Hdown Hup; [lia|].
  simpl.
  destruct (if (direction =? -1)%Z then (i + direction <? boundary)%Z
            else (i + direction >? boundary)%Z) eqn:E; [reflexivity|].
  destruct (at_ smoothed (i + direction) >? at_ smoothed i); [reflexivity|].
  destruct Hd as [-> | ->]; simpl in E.
  - apply Z.ltb_ge in E. apply IH; lia.
  - rewrite Z.gtb_ltb in E. apply Z.ltb_ge in E. apply IH; lia.
Qed.

Lemma mapM_length {A B : Type} (f : A -> result B) (xs : list A) (ys : list B) :
  mapM f xs = Ok ys -> List.length ys = List.length xs.
Proof.
  revert ys. induction xs as [|x xs IH]; intros ys H; simpl in H.
  - now inversion H.
  - destruct (f x); simpl in H; [|discriminate].
    destruct (mapM f xs); simpl in H; [|discriminate].
    inversion H; subst. simpl. f_equal. now apply IH.
Qed.

Lemma movingAverage_length (values : list Q) (windowSize : Z) :
  List.length (movingAverage values windowSize) = List.length values.
Proof.
  unfold movingAverage. rewrite length_map, Zrange_length. unfold Zlength'. lia.
Qed.

(** ** Rep detection: the segments *)

Lemma atZ_In (l : list Z) (i : Z) :
  (0 <= i < Zlength' l)%Z -> In (atZ l i) l.
Proof. intro H. unfold atZ. apply nth_In. unfold Zlength' in H. lia. Qed.

Lemma atZ_gap (l : list Z) (i j : Z) :
  StronglySorted gap3 l -> (0 <= i < j)%Z -> (j < Zlength' l)%Z ->
  gap3 (atZ l i) (atZ l j).
Proof.
  intros Hs Hij Hj. unfold atZ. apply StronglySorted_nth; [assumption|].
  unfold Zlength' in Hj. lia.
Qed.

Lemma atZ_mono (l : list Z) (i j : Z) :
  StronglySorted gap3 l -> (0 <= i <= j)%Z -> (j < Zlength' l)%Z ->
  (atZ l i <= atZ l j)%Z.
Proof.
  intros Hs Hij Hj. destruct (Z.eq_dec i j) as [->|N]; [lia|].
  assert (H : gap3 (atZ l i) (atZ l j)) by (apply atZ_gap; auto; lia).
  unfold gap3 in H. lia.
Qed.

Lemma segment_spec (smoothed : list Q) (n : Z) (bottoms : list Z) (i : Z) :
  Zlength' smoothed = n ->
  StronglySorted gap3 bottoms ->
  (forall b, In b bottoms -> 2 <= b <= n - 3)%Z ->
  (0 <= i < Zlength' bottoms)%Z ->
  let r := segment smoothed n bottoms i in
  bottomFrame r = atZ bottoms i
  /\ (0 <= startFrame r <= bottomFrame r)%Z
  /\ (bottomFrame r <= endFrame r <= n - 1)%Z
  /\ (0 < i -> startFrame r = (atZ bottoms (i - 1) + atZ bottoms i) / 2)%Z
  /\ (i < Zlength' bottoms - 1 ->
      endFrame r = (atZ bottoms i + atZ bottoms (i + 1)) / 2 - 1)%Z.
Proof.
  intros Hn Hs Hr Hi r. subst r. unfold segment. simpl.
  assert (Hb : (2 <= atZ bottoms i <= n - 3)%Z) by (apply Hr, atZ_In; lia).
  split; [reflexivity|].
  (* the start *)
  assert (Hstart :
    (0 <= Z.max 0
            (if ((if (i >? 0)%Z then atZ bottoms (i - 1) else (-1)%Z) =? -1)%Z
             then findValley smoothed (atZ bottoms i) (-1) 0
             else ((if (i >? 0)%Z then atZ bottoms (i - 1) else (-1)%Z)
                   + atZ bottoms i) / 2)
       <= atZ bottoms i)%Z
    /\ (0 < i ->
        Z.max 0
            (if ((if (i >? 0)%Z then atZ bottoms (i - 1) else (-1)%Z) =? -1)%Z
             then findValley smoothed (atZ bottoms i) (-1) 0
             else ((if (i >? 0)%Z then atZ bottoms (i - 1) else (-1)%Z)
                   + atZ bottoms i) / 2)
        = (atZ bottoms (i - 1) + atZ bottoms i) / 2)%Z).
  { destruct (i >? 0)%Z eqn:Ei.
    - assert (Hp : (2 <= atZ bottoms (i - 1) <= n - 3)%Z) by (apply Hr, atZ_In; lia).
      assert (Hg : gap3 (atZ bottoms (i - 1)) (atZ bottoms i))
        by (apply atZ_gap; auto; lia).
      unfold gap3 in Hg.
      destruct (atZ bottoms (i - 1) =? -1)%Z eqn:E1; [apply Z.eqb_eq in E1; lia|].
      split; [|intros _]; zlia.
    - simpl. unfold findValley.
      pose proof (findValley_loop_down smoothed 0
                    (S (Z.to_nat (Z.abs (atZ bottoms i - 0)))) (atZ bottoms i)).
      split; [lia|]. intro. lia. }
  (* the end *)
  assert (Hend :
    (atZ bottoms i
     <= Z.min (n - 1)
          (if (i =? Zlength' bottoms - 1)%Z
           then findValley smoothed (atZ bottoms i) 1 (Zlength' smoothed - 1)
           else ((atZ bottoms i
                  + (if (i <? Zlength' bottoms - 1)%Z
                     then atZ bottoms (i + 1) else n)) / 2 - 1))
     <= n - 1)%Z
    /\ (i < Zlength' bottoms - 1 ->
        Z.min (n - 1)
          (if (i =? Zlength' bottoms - 1)%Z
           then findValley smoothed (atZ bottoms i) 1 (Zlength' smoothed - 1)
           else ((atZ bottoms i
                  + (if (i <? Zlength' bottoms - 1)%Z
                     then atZ bottoms (i + 1) else n)) / 2 - 1))
        = (atZ bottoms i + atZ bottoms (i + 1)) / 2 - 1)%Z).
  { destruct (i =? Zlength' bottoms - 1)%Z eqn:Ei.
    - apply Z.eqb_eq in Ei. unfold findValley. rewrite Hn.
      pose proof (findValley_loop_up smoothed (n - 1)
                    (S (Z.to_nat (Z.abs (atZ bottoms i - (n - 1))))) (atZ bottoms i)).
      split; [lia|]. intro. lia.
    - apply Z.eqb_neq in Ei.
      assert (El : (i <? Zlength' bottoms - 1)%Z = true) by (apply Z.ltb_lt; lia).
      rewrite El.
      assert (Hq : (2 <= atZ bottoms (i + 1) <= n - 3)%Z) by (apply Hr, atZ_In; lia).
      assert (Hg : gap3 (atZ bottoms i) (atZ bottoms (i + 1)))
        by (apply atZ_gap; auto; lia).
      unfold gap3 in Hg.
      split; [|intros _]; zlia. }
  tauto.
Qed.

(** What [detectReps] returns, when it returns reps at all: the segments of
    a non-empty list of peaks. *)
Lemma detectReps_inv (frames : list PoseFrame) (reps : list DetectedRep) :
  detectReps frames = Ok reps ->
  reps = [] \/
  exists smoothed bottoms,
    Zlength' smoothed = Zlength' frames
    /\ StronglySorted gap3 bottoms
    /\ (forall b, In b bottoms -> 2 <= b <= Zlength' frames - 3)%Z
    /\ reps = map (segment smoothed (Zlength' frames) bottoms)
                  (Zrange 0 (Zlength' bottoms - 1)).
Proof.
  unfold detectReps. intro H.
  destruct (Zlength' frames <? 5)%Z; [left; congruence|].
  destruct (mapM hipY frames) as [hipYValues|] eqn:Eh; cbn [bind] in H; [|discriminate].
  set (smoothed := movingAverage hipYValues 5) in *.
  set (bottoms := filter (isBottom smoothed) (Zrange 2 (Zlength' smoothed - 3))) in *.
  destruct (Zlength' bottoms =? 0)%Z; [left; congruence|].
  right. exists smoothed, bottoms.
  assert (Hlen : Zlength' smoothed = Zlength' frames).
  { unfold Zlength', smoothed. rewrite movingAverage_length.
    now rewrite (mapM_length _ _ _ Eh). }
  split; [exact Hlen|]. split; [apply bottoms_sorted|].
  split; [|congruence].
  intros b Hb. apply bottoms_range in Hb. lia.
Qed.

Lemma nth_error_segments (smoothed : list Q) (n : Z) (bottoms : list Z)
      (i : nat) (r : DetectedRep) :
  nth_error (map (segment smoothed n bottoms) (Zrange 0 (Zlength' bottoms - 1))) i
  = Some r ->
  r = segment smoothed n bottoms (Z.of_nat i)
  /\ (0 <= Z.of_nat i < Zlength' bottoms)%Z.
Proof.
  intro H. rewrite nth_error_map in H.
  destruct (nth_error (Zrange 0 (Zlength' bottoms - 1)) i) as [k|] eqn:E;
    simpl in H; [|discriminate].
  apply Zrange_nth_error in E. destruct E as [-> E].
  inversion H. split; [reflexivity|lia].
Qed.

(** C10. The reps returned by [detectReps] are ordered and do not overlap:
    every rep has [0 <= startFrame <= bottomFrame <= endFrame <=
    frames.length - 1]; consecutive bottoms are at least three frames apart and
    the later rep starts on the frame after the earlier one ends; hence the
    bottoms increase strictly and no frame belongs to two reps. *)
Theorem detectReps_ordered (frames : list PoseFrame) (reps : list DetectedRep) :
  detectReps frames = Ok reps ->
  (forall r, In r reps ->
     (0 <= startFrame r <= bottomFrame r)%Z
     /\ (bottomFrame r <= endFrame r <= Zlength' frames - 1)%Z)
  /\ (forall i r1 r2,
        nth_error reps i = Some r1 -> nth_error reps (S i) = Some r2 ->
        (bottomFrame r1 + 3 <= bottomFrame r2)%Z
        /\ startFrame r2 = (endFrame r1 + 1)%Z)
  /\ (forall i j r1 r2,
        (i < j)%nat -> nth_error reps i = Some r1 -> nth_error reps j = Some r2 ->
        (bottomFrame r1 < bottomFrame r2)%Z /\ (endFrame r1 < startFrame r2)%Z).
Proof.
  intro H. apply detectReps_inv in H.
  destruct H as [-> | (smoothed & bottoms & Hlen & Hs & Hr & ->)].
  { split; [intros r []|].
    split; intros; match goal with
                   | H : nth_error [] ?i = Some _ |- _ => destruct i; discriminate
                   end. }
  split; [|split].
  - intros r Hin. apply In_nth_error in Hin. destruct Hin as [i Hi].
    apply nth_error_segments in Hi. destruct Hi as [-> Hi].
    pose proof (segment_spec smoothed _ bottoms _ Hlen Hs Hr Hi) as S. cbv zeta in S.
    tauto.
  - intros i r1 r2 H1 H2.
    apply nth_error_segments in H1. destruct H1 as [-> Hi1].
    apply nth_error_segments in H2. destruct H2 as [-> Hi2].
    pose proof (segment_spec smoothed _ bottoms _ Hlen Hs Hr Hi1) as S1.
    pose proof (segment_spec smoothed _ bottoms _ Hlen Hs Hr Hi2) as S2.
    cbv zeta in S1, S2.
    destruct S1 as (B1 & _ & _ & _ & E1). destruct S2 as (B2 & _ & _ & St2 & _).
    rewrite B1, B2, St2, E1 by lia.
    replace (Z.of_nat (S i) - 1)%Z with (Z.of_nat i) by lia.
    replace (Z.of_nat i + 1)%Z with (Z.of_nat (S i)) by lia.
    assert (G : gap3 (atZ bottoms (Z.of_nat i)) (atZ bottoms (Z.of_nat (S i))))
      by (apply atZ_gap; auto; lia).
    unfold gap3 in G. split; lia.
  - intros i j r1 r2 Hij H1 H2.
    apply nth_error_segments in H1. destruct H1 as [-> Hi1].
    apply nth_error_segments in H2. destruct H2 as [-> Hi2].
    pose proof (segment_spec smoothed _ bottoms _ Hlen Hs Hr Hi1) as S1.
    pose proof (segment_spec smoothed _ bottoms _ Hlen Hs Hr Hi2) as S2.
    cbv zeta in S1, S2.
    destruct S1 as (B1 & _ & _ & _ & E1). destruct S2 as (B2 & _ & _ & St2 & _).
    rewrite B1, B2, St2, E1 by lia.
    assert (G : gap3 (atZ bottoms (Z.of_nat i)) (atZ bottoms (Z.of_nat j)))
      by (apply atZ_gap; auto; lia).
    assert (M1 : (atZ bottoms (Z.of_nat i + 1) <= atZ bottoms (Z.of_nat j))%Z)
      by (apply atZ_mono; auto; lia).
    assert (M2 : (atZ bottoms (Z.of_nat i) <= atZ bottoms (Z.of_nat j - 1))%Z)
      by (apply atZ_mono; auto; lia).
    unfold gap3 in G. split; zlia.
Qed.

Lemma detectReps_ordered_witness :
  detectReps threeSquats
  = Ok [ {| startFrame := 0; endFrame := 15; bottomFrame := 8 |};
         {| startFrame := 16; endFrame := 32; bottomFrame := 25 |};
         {| startFrame := 33; endFrame := 50; bottomFrame := 42 |} ]
  /\ (forall i r1 r2,
        nth_error [ {| startFrame := 0; endFrame := 15; bottomFrame := 8 |};
                    {| startFrame := 16; endFrame := 32; bottomFrame := 25 |};
                    {| startFrame := 33; endFrame := 50; bottomFrame := 42 |} ] i
        = Some r1 ->
        nth_error [ {| startFrame := 0; endFrame := 15; bottomFrame := 8 |};
                    {| startFrame := 16; endFrame := 32; bottomFrame := 25 |};
                    {| startFrame := 33; endFrame := 50; bottomFrame := 42 |} ] (S i)
        = Some r2 ->
        (bottomFrame r1 + 3 <= bottomFrame r2)%Z
        /\ startFrame r2 = (endFrame r1 + 1)%Z).
Proof.
  assert (H : detectReps threeSquats
              = Ok [ {| startFrame := 0; endFrame := 15; bottomFrame := 8 |};
                     {| startFrame := 16; endFrame := 32; bottomFrame := 25 |};
                     {| startFrame := 33; endFrame := 50; bottomFrame := 42 |} ])
    by (vm_compute; reflexivity).
  split; [exact H|].
  exact (proj1 (proj2 (detectReps_ordered _ _ H))).
Defined.

(** ** Depth consistency of a single rep *)

(** C8. With fewer than two reps [scoreDepthConsistency] returns the perfect
    score: 100, rated green, with no issue frames. *)
Theorem scoreDepthConsistency_single (M : MathLib) (frames : list PoseFrame)
        (allReps : list DetectedRep) :
  (Zlength' allReps < 2)%Z ->
  scoreDepthConsistency M frames allReps
  = Ok {| MetricScore.score := 100;
          MetricScore.rating := green;
          MetricScore.summary := "Single rep — consistency not applicable";
          MetricScore.issueFrames := [];
          MetricScore.confidence := high |}.
Proof.
  intro H. unfold scoreDepthConsistency.
  apply Z.ltb_lt in H. rewrite H. reflexivity.
Qed.

Lemma scoreDepthConsistency_single_witness :
  (Zlength' [ {| startFrame := 0; endFrame := 16; bottomFrame := 8 |} ] < 2)%Z
  /\ scoreDepthConsistency hostMath (clip 0.1 oneSquat)
       [ {| startFrame := 0; endFrame := 16; bottomFrame := 8 |} ]
     = Ok {| MetricScore.score := 100;
             MetricScore.rating := green;
             MetricScore.summary := "Single rep — consistency not applicable";
             MetricScore.issueFrames := [];
             MetricScore.confidence := high |}.
Proof.
  split; [reflexivity|].
  apply (scoreDepthConsistency_single hostMath (clip 0.1 oneSquat)
           [ {| startFrame := 0; endFrame := 16; bottomFrame := 8 |} ]).
  reflexivity.
Defined.

(** ** Outlier rejection *)

Lemma mapiM_rejectOne (M : MathLib) (prev : list Landmark.t) (threshold : Q)
      (raw : list Landmark.t) (i0 : nat) :
  (i0 + List.length raw <= List.length prev)%nat ->
  exists out,
    mapiM (rejectOne M prev threshold) raw i0 = Ok out
    /\ List.length out = List.length raw
    /\ forall k l,
         nth_error raw k = Some l ->
         exists o, nth_error out k = Some o
                   /\ rejectOne M prev threshold l (i0 + k) = Ok o.
Proof.
  revert i0. induction raw as [|l raw IH]; intros i0 Hlen; simpl in *.
  - exists []. split; [reflexivity|]. split; [reflexivity|].
    intros k l H. destruct k; discriminate.
  - assert (Hp : exists p, nth_error prev i0 = Some p).
    { destruct (nth_error prev i0) eqn:E; [eauto|].
      apply nth_error_None in E. lia. }
    destruct Hp as [p Hp].
    assert (Ho : exists o, rejectOne M prev threshold l i0 = Ok o).
    { unfold rejectOne. rewrite Hp.
      destruct (_ >? threshold); eauto. }
    destruct Ho as [o Ho]. rewrite Ho. cbn [bind].
    destruct (IH (S i0)) as (out & E & L & N); [lia|].
    rewrite E. cbn [bind]. exists (o :: out).
    split; [reflexivity|]. split; [simpl; congruence|].
    intros k l' Hk. destruct k as [|k]; simpl in *.
    + inversion Hk; subst. exists o. rewrite Nat.add_0_r. auto.
    + destruct (N k l' Hk) as (o' & Ho' & R). exists o'.
      replace (i0 + S k)%nat with (S i0 + k)%nat by lia. auto.
Qed.

(** C7. After the first valid frame (a previous landmark array exists and the
    estimated body height is positive) [rejectOutliers] returns an array of
    the same length in which a landmark that moved more than 15% of the body
    height from its previous position has the previous position and the new
    visibility, and any other landmark is the new observation itself. *)
Theorem rejectOutliers_spec (M : MathLib) (rawLandmarks prevLandmarks : list Landmark.t)
        (bodyHeight : Q) :
  0 < bodyHeight ->
  List.length prevLandmarks = List.length rawLandmarks ->
  exists out,
    rejectOutliers M rawLandmarks (Some prevLandmarks) bodyHeight = Ok out
    /\ List.length out = List.length rawLandmarks
    /\ forall i l prev,
         nth_error rawLandmarks i = Some l ->
         nth_error prevLandmarks i = Some prev ->
         let dx := Landmark.x l - Landmark.x prev in
         let dy := Landmark.y l - Landmark.y prev in
         let dist := Math_sqrt M (dx * dx + dy * dy) in
         (bodyHeight * 0.15 < dist ->
          nth_error out i
          = Some {| Landmark.x := Landmark.x prev;
                    Landmark.y := Landmark.y prev;
                    Landmark.z := Landmark.z prev;
                    Landmark.visibility := Landmark.visibility l |})
         /\ (dist <= bodyHeight * 0.15 -> nth_error out i = Some l).
Proof.
  intros Hb Hlen. unfold rejectOutliers.
  assert (E : (bodyHeight <=? 0) = false) by (apply Qleb_gt; exact Hb).
  rewrite E.
  destruct (mapiM_rejectOne M prevLandmarks (bodyHeight * 0.15) rawLandmarks 0)
    as (out & Eo & L & N); [simpl; lia|].
  exists out. split; [exact Eo|]. split; [exact L|].
  intros i l prev Hl Hp. cbv zeta.
  destruct (N i l Hl) as (o & Ho & R). simpl in R.
  unfold rejectOne in R. rewrite Hp in R.
  split; intro Hd.
  - apply Qgtb_gt in Hd. rewrite Hd in R. congruence.
  - apply Qgtb_le in Hd. rewrite Hd in R. congruence.
Qed.

Lemma rejectOutliers_spec_witness :
  0 < 0.6
  /\ List.length jumpBefore = List.length jumpNow
  /\ exists out,
       rejectOutliers hostMath jumpNow (Some jumpBefore) 0.6 = Ok out
       /\ nth_error out 0
          = Some {| Landmark.x := 0.5; Landmark.y := 0.5 - 0.45; Landmark.z := 0;
                    Landmark.visibility := 0.5 |}
       /\ nth_error out 2 = nth_error jumpNow 2.
Proof.
  split; [reflexivity|]. split; [reflexivity|].
  destruct (rejectOutliers_spec hostMath jumpNow jumpBefore 0.6)
    as (out & E & _ & N); [reflexivity | reflexivity |].
  exists out. split; [exact E|]. split.
  - apply (proj1 (N 0%nat _ _ eq_refl eq_refl)). reflexivity.
  - apply (proj2 (N 2%nat _ _ eq_refl eq_refl)). vm_compute. discriminate.
Defined.

(** ** Aggregation *)

Lemma insertByScore_perm (m : MetricScore.t) (sorted : list MetricScore.t) :
  Permutation (insertByScore m sorted) (m :: sorted).
Proof.
  induction sorted as [|h t IH]; simpl.
  - apply Permutation_refl.
  - destruct (MetricScore.score m <? MetricScore.score h)%Z.
    + apply Permutation_refl.
    + eapply Permutation_trans; [apply perm_skip, IH | apply perm_swap].
Qed.

Lemma insertByScore_sorted (m : MetricScore.t) (sorted : list MetricScore.t) :
  Sorted scoreLe sorted -> Sorted scoreLe (insertByScore m sorted).
Proof.
  intro Hs. induction Hs as [|h t Hs IH Hh]; simpl.
  - repeat constructor.
  - destruct (MetricScore.score m <? MetricScore.score h)%Z eqn:E.
    + apply Z.ltb_lt in E. constructor; [constructor; assumption|].
      constructor. unfold scoreLe. lia.
    + apply Z.ltb_ge in E. constructor; [exact IH|].
      destruct t as [|h' t']; simpl.
      * constructor. exact E.
      * destruct (MetricScore.score m <? MetricScore.score h')%Z.
        -- constructor. exact E.
        -- inversion Hh; subst. constructor. assumption.
Qed.

Lemma sortByScore_perm (scores : list MetricScore.t) :
  Permutation (sortByScore scores) scores.
Proof.
  unfold sortByScore.
  assert (G : forall acc, Permutation
                (fold_left (fun sorted m => insertByScore m sorted) scores acc)
                (acc ++ scores)).
  { induction scores as [|m rest IH]; intro acc; simpl.
    - rewrite app_nil_r. apply Permutation_refl.
    - eapply Permutation_trans; [apply IH|].
      eapply Permutation_trans;
        [apply Permutation_app_tail, insertByScore_perm|].
      simpl. apply Permutation_middle. }
  apply (G []).
Qed.

Lemma sortByScore_sorted (scores : list MetricScore.t) :
  Sorted scoreLe (sortByScore scores).
Proof.
  unfold sortByScore.
  assert (G : forall acc, Sorted scoreLe acc ->
                Sorted scoreLe
                  (fold_left (fun sorted m => insertByScore m sorted) scores acc)).
  { induction scores as [|m rest IH]; intros acc Ha; simpl.
    - exact Ha.
    - apply IH, insertByScore_sorted, Ha. }
  apply G. constructor.
Qed.

Lemma filter_none {A : Type} (f : A -> bool) (l : list A) :
  (forall a, In a l -> f a = false) -> filter f l = [].
Proof.
  induction l as [|a l IH]; intro H; simpl; [reflexivity|].
  rewrite (H a) by (left; reflexivity). apply IH. intros b Hb. apply H. now right.
Qed.

(** The sort is stable: the entries of any one score keep their order. *)
Lemma insertByScore_stable (v : Z) (m : MetricScore.t) (sorted : list MetricScore.t) :
  StronglySorted scoreLe sorted ->
  filter (fun s => (MetricScore.score s =? v)%Z) (insertByScore m sorted)
  = filter (fun s => (MetricScore.score s =? v)%Z) (sorted ++ [m]).
Proof.
  intro Hs. induction Hs as [|h t Hs IH Hh]; [reflexivity|].
  cbn [insertByScore].
  destruct (MetricScore.score m <? MetricScore.score h)%Z eqn:E.
  - apply Z.ltb_lt in E.
    assert (Hall : forall s, In s (h :: t) ->
                     (MetricScore.score m < MetricScore.score s)%Z).
    { intros s [<-|Hin]; [exact E|].
      rewrite Forall_forall in Hh. specialize (Hh s Hin).
      unfold scoreLe in Hh. lia. }
    rewrite filter_app.
    change (m :: h :: t) with ([m] ++ (h :: t)). rewrite filter_app.
    destruct (MetricScore.score m =? v)%Z eqn:Em.
    + apply Z.eqb_eq in Em.
      rewrite (filter_none _ (h :: t)).
      * now rewrite app_nil_r.
      * intros s Hin. apply Hall in Hin. apply Z.eqb_neq. lia.
    + simpl. rewrite Em. now rewrite app_nil_r.
  - simpl. rewrite IH. reflexivity.
Qed.

Lemma sortByScore_strongly_sorted (scores : list MetricScore.t) :
  StronglySorted scoreLe (sortByScore scores).
Proof.
  apply Sorted_StronglySorted.
  - intros a b c. unfold scoreLe. lia.
  - apply sortByScore_sorted.
Qed.

Lemma insertByScore_strongly_sorted (m : MetricScore.t) (sorted : list MetricScore.t) :
  StronglySorted scoreLe sorted -> StronglySorted scoreLe (insertByScore m sorted).
Proof.
  intro H. apply Sorted_StronglySorted.
  - intros a b c. unfold scoreLe. lia.
  - apply insertByScore_sorted, StronglySorted_Sorted, H.
Qed.

Lemma sortByScore_stable (v : Z) (scores : list MetricScore.t) :
  filter (fun s => (MetricScore.score s =? v)%Z) (sortByScore scores)
  = filter (fun s => (MetricScore.score s =? v)%Z) scores.
Proof.
  unfold sortByScore.
  assert (G : forall acc, StronglySorted scoreLe acc ->
                filter (fun s => (MetricScore.score s =? v)%Z)
                       (fold_left (fun sorted m => insertByScore m sorted) scores acc)
                = filter (fun s => (MetricScore.score s =? v)%Z) (acc ++ scores)).
  { induction scores as [|m rest IH]; intros acc Ha; simpl.
    - now rewrite app_nil_r.
    - rewrite IH by (apply insertByScore_strongly_sorted, Ha).
      rewrite !filter_app, insertByScore_stable by exact Ha.
      rewrite filter_app. simpl. rewrite <- app_assoc.
      destruct (MetricScore.score m =? v)%Z; reflexivity. }
  apply (G []). constructor.
Qed.

Lemma Math_round_mean_eq (t : Z) (p : positive) :
  Math_round (ofZ t / ofZ (Z.pos p)) = ((2 * t + Z.pos p) / (2 * Z.pos p))%Z.
Proof.
  unfold Math_round, ofZ, Qdiv, Qinv, inject_Z. cbn [Qnum Qden].
  unfold Qmult, Qplus, Qfloor. cbn [Qnum Qden].
  f_equal; lia.
Qed.

(** [Math.round(t / n)] is the integer nearest to the mean, the larger one
    on a tie. *)
Lemma Math_round_mean (t n : Z) :
  (0 < n)%Z ->
  (2 * Math_round (ofZ t / ofZ n) * n <= 2 * t + n
   < 2 * (Math_round (ofZ t / ofZ n) + 1) * n)%Z.
Proof.
  intro Hn. destruct n as [|p|p]; try lia.
  rewrite Math_round_mean_eq.
  pose proof (Z.div_mod (2 * t + Z.pos p) (2 * Z.pos p) ltac:(lia)) as D.
  pose proof (Z.mod_pos_bound (2 * t + Z.pos p) (2 * Z.pos p) ltac:(lia)) as B.
  nia.
Qed.

Lemma fold_left_totalScore (scores : list MetricScore.t) (acc : Z) :
  fold_left (fun s m => (s + MetricScore.score m)%Z) scores acc
  = (acc + totalScore scores)%Z.
Proof.
  revert acc. induction scores as [|m rest IH]; intro acc; simpl; [lia|].
  rewrite IH. lia.
Qed.

Lemma append_empty_r (s : string) : (s ++ "")%string = s.
Proof. induction s as [|c s IH]; simpl; [reflexivity|]. now rewrite IH. Qed.

(** C4, as the code has it.  For a non-empty list of per-rep scores the
    overall score is the mean rounded to the nearest integer (a tie going up);
    the summary is that of the entry at position [floor(n / 2)] of the scores
    sorted ascending by a stable sort (the median for an odd number of reps,
    the upper median for an even one), followed by the count of reps scoring
    at least 80 when there are several reps; the issue frames are those of
    all reps, concatenated in rep order. *)
Theorem averageMetricScores_spec (scores : list MetricScore.t) :
  scores <> [] ->
  exists r median,
    averageMetricScores scores = Ok r
    /\ (2 * MetricScore.score r * Zlength' scores
        <= 2 * totalScore scores + Zlength' scores
        < 2 * (MetricScore.score r + 1) * Zlength' scores)%Z
    /\ nth_error (sortByScore scores) (Z.to_nat (Zlength' scores / 2)) = Some median
    /\ Permutation (sortByScore scores) scores
    /\ StronglySorted scoreLe (sortByScore scores)
    /\ (forall v, filter (fun s => (MetricScore.score s =? v)%Z) (sortByScore scores)
                  = filter (fun s => (MetricScore.score s =? v)%Z) scores)
    /\ MetricScore.summary r
       = (MetricScore.summary median ++ goodRepsSuffix scores)%string
    /\ MetricScore.issueFrames r = flat_map MetricScore.issueFrames scores.
Proof.
  intro Hne.
  assert (Hlen : (0 < Zlength' scores)%Z).
  { unfold Zlength'. destruct scores; [congruence|simpl; lia]. }
  assert (Hsl : Zlength' (sortByScore scores) = Zlength' scores).
  { unfold Zlength'. now rewrite (Permutation_length (sortByScore_perm scores)). }
  assert (Hm : exists median,
             nth_error (sortByScore scores) (Z.to_nat (Zlength' scores / 2))
             = Some median).
  { destruct (nth_error (sortByScore scores) (Z.to_nat (Zlength' scores / 2))) eqn:E;
      [eauto|].
    apply nth_error_None in E. unfold Zlength' in *. zlia. }
  destruct Hm as [median Hm].
  destruct scores as [|first rest] eqn:Es; [congruence|]. rewrite <- Es in *.
  assert (Hf : scoreAt scores 0 = Ok first) by (rewrite Es; reflexivity).
  unfold averageMetricScores.
  assert (E0 : (Zlength' scores =? 0)%Z = false) by (apply Z.eqb_neq; lia).
  rewrite E0.
  assert (Hmed : scoreAt (sortByScore scores) (Zlength' (sortByScore scores) / 2)
                 = Ok median).
  { unfold scoreAt. rewrite Hsl.
    assert (E : (Zlength' scores / 2 <? 0)%Z = false) by (apply Z.ltb_ge; zlia).
    rewrite E, Hm. reflexivity. }
  rewrite Hmed. cbn [bind]. rewrite Hf. cbn [bind].
  eexists. exists median. split; [reflexivity|]. cbn [MetricScore.score
    MetricScore.summary MetricScore.issueFrames].
  split.
  { rewrite fold_left_totalScore. rewrite Z.add_0_l.
    apply Math_round_mean. exact Hlen. }
  split; [exact Hm|].
  split; [apply sortByScore_perm|].
  split; [apply sortByScore_strongly_sorted|].
  split; [intro v; apply sortByScore_stable|].
  split; [|reflexivity].
  unfold goodRepsSuffix. destruct (Zlength' scores >? 1)%Z.
  - reflexivity.
  - now rewrite append_empty_r.
Qed.

Lemma averageMetricScores_spec_witness :
  [fairRep; goodRep] <> []
  /\ exists r,
       averageMetricScores [fairRep; goodRep] = Ok r
       /\ MetricScore.score r = 75%Z
       /\ MetricScore.summary r = "Good knee tracking (1/2 reps rated good)"%string
       /\ MetricScore.issueFrames r = [12; 13; 13]%Z.
Proof.
  split; [discriminate|].
  destruct (averageMetricScores_spec [fairRep; goodRep])
    as (r & median & E & _ & _ & _ & _ & _ & _ & _); [discriminate|].
  exists r. split; [exact E|].
  assert (E' : averageMetricScores [fairRep; goodRep]
               = Ok {| MetricScore.score := 75;
                       MetricScore.rating := yellow;
                       MetricScore.summary := "Good knee tracking (1/2 reps rated good)";
                       MetricScore.issueFrames := [12; 13; 13]%Z;
                       MetricScore.confidence := medium |})
    by (vm_compute; reflexivity).
  rewrite E' in E. inversion E. repeat split.
Defined.

(** The claim as worded fails for an even number of reps: of two reps scoring
    60 and 90 the code reports the summary of the one scoring 90, the lower
    median is the one scoring 60. *)
Lemma averageMetricScores_lower_median_counterexample :
  exists r,
    averageMetricScores [fairRep; goodRep] = Ok r
    /\ MetricScore.summary r = "Good knee tracking (1/2 reps rated good)"%string
    /\ (lowerMedianSummary [fairRep; goodRep] ++ goodRepsSuffix [fairRep; goodRep])%string
       = "Minor knee drift detected (1/2 reps rated good)"%string
    /\ MetricScore.summary r
       <> (lowerMedianSummary [fairRep; goodRep]
             ++ goodRepsSuffix [fairRep; goodRep])%string.
Proof.
  eexists. split; [vm_compute; reflexivity|].
  split; [reflexivity|]. split; [reflexivity|].
  vm_compute. discriminate.
Qed.

(** ** Reads of well-formed frames *)

Lemma lm_wf (f : PoseFrame) (k : nat) :
  List.length (landmarks f) = 33%nat -> (k < 33)%nat ->
  lm f k = Ok (landmarkOf f k).
Proof.
  intros Hl Hk. unfold lm, landmarkOf.
  destruct (nth_error (landmarks f) k) eqn:E.
  - now rewrite (nth_error_nth _ _ _ E).
  - apply nth_error_None in E. lia.
Qed.

Lemma wellFormed_cons (f : PoseFrame) (frames : list PoseFrame) :
  wellFormed (f :: frames) <->
  List.length (landmarks f) = 33%nat /\ wellFormed frames.
Proof. unfold wellFormed. apply Forall_cons_iff. Qed.

Lemma frameAt_wf (frames : list PoseFrame) (i : Z) :
  wellFormed frames -> (0 <= i < Zlength' frames)%Z ->
  exists f, frameAt frames i = Ok f
            /\ nth_error frames (Z.to_nat i) = Some f
            /\ List.length (landmarks f) = 33%nat.
Proof.
  intros Hw Hi. unfold frameAt.
  assert (E : (i <? 0)%Z = false) by (apply Z.ltb_ge; lia). rewrite E.
  destruct (nth_error frames (Z.to_nat i)) as [f|] eqn:Ef.
  - exists f. split; [reflexivity|]. split; [reflexivity|].
    unfold wellFormed in Hw. rewrite Forall_forall in Hw.
    apply Hw. eapply nth_error_In; eauto.
  - apply nth_error_None in Ef. unfold Zlength' in Hi. lia.
Qed.

Lemma wellFormedb_true (frames : list PoseFrame) :
  wellFormedb frames = true -> wellFormed frames.
Proof.
  unfold wellFormedb, wellFormed. rewrite forallb_forall, Forall_forall.
  intros H f Hf. apply Nat.eqb_eq. auto.
Qed.

(** ** Exercise type *)

Lemma collectFrame_wf (M : MathLib) (f : PoseFrame) (ys xs ks : list Q) :
  List.length (landmarks f) = 33%nat ->
  collectFrame M f (ys, xs, ks)
  = Ok (if hipsUsable f
        then (ys ++ [avgHipY f], xs ++ [avgHipX f], ks ++ kneeAnglesOf M f)
        else (ys, xs, ks)).
Proof.
  intro Hl. unfold collectFrame.
  rewrite !lm_wf by (assumption || (unfold LEFT_HIP, RIGHT_HIP, LEFT_KNEE,
    RIGHT_KNEE, LEFT_ANKLE, RIGHT_ANKLE; lia)).
  cbn [bind]. unfold hipsUsable, Qgeb, avgHipY, avgHipX, kneeAnglesOf.
  unfold Qltb.
  destruct (0.3 <=? Landmark.visibility (landmarkOf f LEFT_HIP));
    destruct (0.3 <=? Landmark.visibility (landmarkOf f RIGHT_HIP));
    cbn [negb orb andb]; try reflexivity.
  destruct ((Landmark.visibility (landmarkOf f LEFT_KNEE) >? 0.3)
            && (Landmark.visibility (landmarkOf f LEFT_ANKLE) >? 0.3));
    destruct ((Landmark.visibility (landmarkOf f RIGHT_KNEE) >? 0.3)
              && (Landmark.visibility (landmarkOf f RIGHT_ANKLE) >? 0.3));
    cbn [app]; rewrite ?app_nil_r, <- ?app_assoc; reflexivity.
Qed.

Lemma foldM_collectFrame (M : MathLib) (frames : list PoseFrame) (ys xs ks : list Q) :
  wellFormed frames ->
  foldM (collectFrame M) frames (ys, xs, ks)
  = Ok (ys ++ map avgHipY (usableFrames frames),
        xs ++ map avgHipX (usableFrames frames),
        ks ++ flat_map (kneeAnglesOf M) (usableFrames frames)).
Proof.
  revert ys xs ks. induction frames as [|f frames IH]; intros ys xs ks Hw.
  - simpl. now rewrite !app_nil_r.
  - apply wellFormed_cons in Hw. destruct Hw as [Hl Hw].
    cbn [foldM]. rewrite collectFrame_wf by assumption. cbn [bind].
    unfold usableFrames. cbn [filter]. fold (usableFrames frames).
    destruct (hipsUsable f).
    + rewrite IH by assumption. cbn [map flat_map].
      rewrite <- !app_assoc. reflexivity.
    + apply IH. assumption.
Qed.

Lemma Zlength'_zero {A : Type} (l : list A) :
  (Zlength' l >? 0)%Z = false -> l = [].
Proof.
  destruct l; [reflexivity|]. unfold Zlength'. simpl. intro H.
  rewrite Z.gtb_ltb in H. apply Z.ltb_ge in H. lia.
Qed.

(** C5, as the code has it.  On well-formed frames [detectExerciseType]
    returns [unknown] exactly when the clip has fewer than 4 frames or fewer
    than 2 of its frames have usable hip data; otherwise it classifies by the
    ranges over the usable frames: squat for a hip-height range above 0.10
    with a knee-angle range above 30 degrees, else deadlift for a hip-height
    range above 0.08 with a horizontal hip range above 0.05 and a knee-angle
    range below 30 degrees, else squat for a hip-height range above 0.05,
    else other. *)
Theorem detectExerciseType_spec (M : MathLib) (frames : list PoseFrame) :
  wellFormed frames ->
  exists t,
    detectExerciseType M frames = Ok t
    /\ t = (if (Zlength' frames <? 4)%Z then unknown else classifyExercise M frames)
    /\ (t = unknown <->
        (Zlength' frames < 4)%Z \/ (Zlength' (usableFrames frames) < 2)%Z).
Proof.
  intro Hw. unfold detectExerciseType.
  destruct (Zlength' frames <? 4)%Z eqn:E4.
  { exists unknown. split; [reflexivity|]. split; [reflexivity|].
    apply Z.ltb_lt in E4. tauto. }
  apply Z.ltb_ge in E4.
  rewrite foldM_collectFrame by assumption. cbn [bind app].
  unfold classifyExercise.
  replace (Zlength' (map avgHipY (usableFrames frames)))
    with (Zlength' (usableFrames frames))
    by (unfold Zlength'; now rewrite length_map).
  destruct (Zlength' (usableFrames frames) <? 2)%Z eqn:E2.
  { exists unknown. split; [reflexivity|]. split; [reflexivity|].
    apply Z.ltb_lt in E2. tauto. }
  apply Z.ltb_ge in E2.
  assert (Hy : maximum (map avgHipY (usableFrames frames))
               - minimum (map avgHipY (usableFrames frames))
               = hipYRange frames).
  { unfold hipYRange, rangeOf.
    destruct (usableFrames frames); [unfold Zlength' in E2; simpl in E2; lia|].
    reflexivity. }
  assert (Hx : maximum (map avgHipX (usableFrames frames))
               - minimum (map avgHipX (usableFrames frames))
               = hipXRange frames).
  { unfold hipXRange, rangeOf.
    destruct (usableFrames frames); [unfold Zlength' in E2; simpl in E2; lia|].
    reflexivity. }
  assert (Hk : (if (Zlength' (flat_map (kneeAnglesOf M) (usableFrames frames)) >? 0)%Z
                then maximum (flat_map (kneeAnglesOf M) (usableFrames frames))
                     - minimum (flat_map (kneeAnglesOf M) (usableFrames frames))
                else 0)
               = kneeAngleRange M frames).
  { unfold kneeAngleRange, rangeOf.
    destruct (Zlength' (flat_map (kneeAnglesOf M) (usableFrames frames)) >? 0)%Z eqn:Ek.
    - destruct (flat_map (kneeAnglesOf M) (usableFrames frames));
        [discriminate|reflexivity].
    - now rewrite (Zlength'_zero _ Ek). }
  rewrite Hy, Hx, Hk.
  eexists. split; [|split; [reflexivity|]].
  - destruct ((hipYRange frames >? 0.1) && (kneeAngleRange M frames >? 30));
      [reflexivity|].
    destruct ((hipYRange frames >? 0.08) && (hipXRange frames >? 0.05)
              && (kneeAngleRange M frames <? 30)); [reflexivity|].
    destruct (hipYRange frames >? 0.05); reflexivity.
  - split; [|lia].
    destruct ((hipYRange frames >? 0.1) && (kneeAngleRange M frames >? 30));
      [discriminate|].
    destruct ((hipYRange frames >? 0.08) && (hipXRange frames >? 0.05)
              && (kneeAngleRange M frames <? 30)); [discriminate|].
    destruct (hipYRange frames >? 0.05); discriminate.
Qed.

Lemma detectExerciseType_spec_witness :
  wellFormed threeSquats
  /\ detectExerciseType hostMath threeSquats = Ok squat
  /\ (squat = unknown <->
      (Zlength' threeSquats < 4)%Z \/ (Zlength' (usableFrames threeSquats) < 2)%Z).
Proof.
  assert (Hw : wellFormed threeSquats)
    by (apply wellFormedb_true; vm_compute; reflexivity).
  split; [exact Hw|].
  destruct (detectExerciseType_spec hostMath threeSquats Hw) as (t & E & _ & U).
  assert (E' : detectExerciseType hostMath threeSquats = Ok squat)
    by (vm_compute; reflexivity).
  assert (Et : t = squat) by congruence.
  subst t. split; [exact E | exact U].
Defined.

(** The claim as worded fails on a clip of three frames: each frame has
    usable hip data, and the answer is [unknown]. *)
Lemma detectExerciseType_unknown_counterexample :
  detectExerciseType hostMath threeFrames = Ok unknown
  /\ Zlength' (usableFrames threeFrames) = 3%Z
  /\ classifyExercise hostMath threeFrames = squat
  /\ ~ (detectExerciseType hostMath threeFrames = Ok unknown ->
        (Zlength' (usableFrames threeFrames) < 2)%Z).
Proof.
  split; [reflexivity|]. split; [reflexivity|]. split; [vm_compute; reflexivity|].
  intro H. specialize (H eq_refl). vm_compute in H. discriminate.
Qed.

(** ** Camera angle: the stable window *)

(** The window test as a boolean. *)
Lemma foldM_window (frames : list PoseFrame) (js : list Z) (acc : bool) :
  wellFormed frames ->
  (forall j, In j js -> 0 <= j < Zlength' frames)%Z ->
  exists b,
    foldM (fun j (allVisible : bool) =>
             if negb allVisible then Ok false
             else
               f <- frameAt frames j ;;
               ls <- lm f LEFT_SHOULDER ;;
               rs <- lm f RIGHT_SHOULDER ;;
               if (Landmark.visibility ls <? 0.3) || (Landmark.visibility rs <? 0.3)
               then Ok false else Ok true)
          js acc = Ok b
    /\ (b = true <->
        acc = true
        /\ forall j, In j js ->
                     exists f, nth_error frames (Z.to_nat j) = Some f
                               /\ shouldersVisible f = true).
Proof.
  intros Hw. revert acc. induction js as [|j js IH]; intros acc Hjs.
  - exists acc. split; [reflexivity|]. split; [intro; split; [assumption|intros ? []]|tauto].
  - cbn [foldM]. destruct acc; cbn [negb].
    + destruct (frameAt_wf frames j Hw (Hjs j (or_introl eq_refl)))
        as (f & Ef & En & Hl).
      rewrite Ef. cbn [bind].
      rewrite !lm_wf by (assumption || (unfold LEFT_SHOULDER, RIGHT_SHOULDER; lia)).
      cbn [bind].
      assert (Hv : (Landmark.visibility (landmarkOf f LEFT_SHOULDER) <? 0.3)
                   || (Landmark.visibility (landmarkOf f RIGHT_SHOULDER) <? 0.3)
                   = negb (shouldersVisible f)).
      { unfold shouldersVisible, Qgeb, Qltb. now rewrite negb_andb. }
      rewrite Hv.
      destruct (shouldersVisible f) eqn:Es; cbn [negb].
      * destruct (IH true) as (b & Eb & Hb); [intros; apply Hjs; now right|].
        exists b. split; [exact Eb|]. rewrite Hb. split.
        -- intros [_ H]. split; [reflexivity|].
           intros j' [<-|Hin]; [exists f; auto | auto].
        -- intros [_ H]. split; [reflexivity|]. intros j' Hin. apply H. now right.
      * destruct (IH false) as (b & Eb & Hb); [intros; apply Hjs; now right|].
        exists b. split; [exact Eb|]. rewrite Hb. split.
        -- intros [X _]. discriminate.
        -- intros [_ H]. destruct (H j (or_introl eq_refl)) as (f' & En' & Es').
           congruence.
    + destruct (IH false) as (b & Eb & Hb); [intros; apply Hjs; now right|].
      exists b. split; [exact Eb|]. rewrite Hb. split; intros [X _]; discriminate.
Qed.

Lemma windowVisible_wf (frames : list PoseFrame) (i : Z) :
  wellFormed frames -> (0 <= i)%Z -> (i + 5 <= Zlength' frames)%Z ->
  exists b, windowVisible frames i = Ok b /\ (b = true <-> stableAt frames i).
Proof.
  intros Hw H0 H5. unfold windowVisible.
  destruct (foldM_window frames (Zrange i (i + 4)) true Hw) as (b & Eb & Hb).
  { intros j Hj. apply Zrange_In in Hj. lia. }
  exists b. split; [exact Eb|]. rewrite Hb. unfold stableAt. split.
  - intros [_ H]. split; [assumption|]. split; [assumption|].
    intros j Hj. apply H, Zrange_In. lia.
  - intros (_ & _ & H). split; [reflexivity|].
    intros j Hj. apply H. apply Zrange_In in Hj. lia.
Qed.

(** The search returns the first stable window among the candidates, or -1
    when none of them is stable. *)
Lemma findStableStart_wf (frames : list PoseFrame) (lo hi : Z) :
  wellFormed frames -> (0 <= lo)%Z -> (hi + 5 <= Zlength' frames)%Z ->
  exists s,
    findStableStart frames (Zrange lo hi) = Ok s
    /\ ((s = (-1)%Z /\ forall i, (lo <= i <= hi)%Z -> ~ stableAt frames i)
        \/ ((lo <= s <= hi)%Z /\ stableAt frames s
            /\ forall i, (lo <= i < s)%Z -> ~ stableAt frames i)).
Proof.
  intros Hw. unfold Zrange.
  remember (Z.to_nat (hi - lo + 1)) as n eqn:En.
  revert lo En. induction n as [|n IH]; intros lo En Hlo Hhi.
  - exists (-1)%Z. split; [reflexivity|]. left. split; [reflexivity|].
    intros i Hi. lia.
  - cbn [seq map findStableStart].
    replace (lo + Z.of_nat 0)%Z with lo by lia.
    destruct (windowVisible_wf frames lo Hw Hlo) as (b & Eb & Hb); [lia|].
    rewrite Eb. cbn [bind]. destruct b.
    + exists lo. split; [reflexivity|]. right.
      split; [lia|]. split; [now apply Hb|]. intros i Hi. lia.
    + rewrite <- seq_shift, map_map.
      assert (Em : map (fun k => (lo + Z.of_nat (S k))%Z) (seq 0 n)
                   = map (fun k => (lo + 1 + Z.of_nat k)%Z) (seq 0 n)).
      { apply map_ext. intro k. lia. }
      rewrite Em.
      destruct (IH (lo + 1)%Z) as (s & Es & Hs); [lia|lia|lia|].
      exists s. split; [exact Es|].
      assert (Hn : ~ stableAt frames lo).
      { intro X. apply Hb in X. discriminate. }
      destruct Hs as [[-> Hs] | (Hr & Hst & Hs)].
      * left. split; [reflexivity|]. intros i Hi.
        destruct (Z.eq_dec i lo) as [->|]; [assumption|]. apply Hs. lia.
      * right. split; [lia|]. split; [assumption|]. intros i Hi.
        destruct (Z.eq_dec i lo) as [->|]; [assumption|]. apply Hs. lia.
Qed.

(** ** Camera angle: the votes *)

Lemma classifyFrame_wf (f : PoseFrame) :
  List.length (landmarks f) = 33%nat -> classifyFrame f = Ok (frameVote f).
Proof.
  intro Hl. unfold classifyFrame.
  rewrite !lm_wf by (assumption || (unfold LEFT_SHOULDER, RIGHT_SHOULDER; lia)).
  cbn [bind].
  assert (Hv : (Landmark.visibility (landmarkOf f LEFT_SHOULDER) <? 0.3)
               || (Landmark.visibility (landmarkOf f RIGHT_SHOULDER) <? 0.3)
               = negb (shouldersVisible f)).
  { unfold shouldersVisible, Qgeb, Qltb. now rewrite negb_andb. }
  rewrite Hv. unfold frameVote.
  destruct (shouldersVisible f); cbn [negb]; [|reflexivity].
  rewrite !lm_wf by (assumption || (unfold NOSE, LEFT_EYE, RIGHT_EYE; lia)).
  cbn [bind].
  destruct (_ <? 0.08).
  - rewrite !lm_wf by (assumption || (unfold LEFT_SHOULDER, RIGHT_SHOULDER,
      LEFT_ELBOW, RIGHT_ELBOW, LEFT_WRIST, RIGHT_WRIST; lia)).
    reflexivity.
  - destruct (_ >? 0.20); reflexivity.
Qed.

Lemma collectVotes_wf (sampleFrames : list PoseFrame) :
  wellFormed sampleFrames ->
  collectVotes sampleFrames
  = Ok (flat_map (fun f => match frameVote f with Some a => [a] | None => [] end)
                 sampleFrames).
Proof.
  unfold collectVotes.
  assert (G : forall votes, wellFormed sampleFrames ->
    foldM (fun f votes =>
             v <- classifyFrame f ;;
             match v with
             | None => Ok votes
             | Some a => Ok (votes ++ [a])
             end) sampleFrames votes
    = Ok (votes ++ flat_map (fun f => match frameVote f with
                                      | Some a => [a] | None => [] end)
                            sampleFrames)).
  { induction sampleFrames as [|f rest IH]; intros votes Hw.
    - simpl. now rewrite app_nil_r.
    - apply wellFormed_cons in Hw. destruct Hw as [Hl Hw].
      cbn [foldM flat_map]. rewrite classifyFrame_wf by assumption. cbn [bind].
      destruct (frameVote f); cbn [bind].
      + rewrite IH by assumption. now rewrite <- app_assoc.
      + rewrite IH by assumption. reflexivity. }
  intro Hw. apply (G [] Hw).
Qed.

Lemma In_firstn {A : Type} (n : nat) (l : list A) (a : A) :
  In a (firstn n l) -> In a l.
Proof. intro H. rewrite <- (firstn_skipn n l). apply in_or_app. now left. Qed.

Lemma In_skipn {A : Type} (n : nat) (l : list A) (a : A) :
  In a (skipn n l) -> In a l.
Proof. intro H. rewrite <- (firstn_skipn n l). apply in_or_app. now right. Qed.

Lemma wellFormed_slice (frames : list PoseFrame) (a b : Z) :
  wellFormed frames -> wellFormed (slice frames a b).
Proof.
  unfold wellFormed, slice. intro H.
  apply Forall_forall. intros f Hf.
  apply In_firstn, In_skipn in Hf. rewrite Forall_forall in H. auto.
Qed.

(** ** Camera angle: the majority *)

Lemma CameraAngle_eqb_eq (a b : CameraAngle) : CameraAngle_eqb a b = true <-> a = b.
Proof. destruct a, b; simpl; split; (reflexivity || discriminate). Qed.

Lemma CameraAngle_eqb_refl (a : CameraAngle) : CameraAngle_eqb a a = true.
Proof. now apply CameraAngle_eqb_eq. Qed.

Lemma CameraAngle_eqb_neq (a b : CameraAngle) : CameraAngle_eqb a b = false <-> a <> b.
Proof.
  split.
  - intros H E. apply CameraAngle_eqb_eq in E. congruence.
  - intro H. destruct (CameraAngle_eqb a b) eqn:E; [|reflexivity].
    apply CameraAngle_eqb_eq in E. contradiction.
Qed.

Lemma mapGet_mapSet (m : VoteMap) (k a : CameraAngle) (v : Z) :
  mapGet (mapSet m k v) a = if CameraAngle_eqb k a then Some v else mapGet m a.
Proof.
  induction m as [|[k' v'] m IH]; simpl.
  - reflexivity.
  - destruct (CameraAngle_eqb k' k) eqn:E; simpl.
    + apply CameraAngle_eqb_eq in E. subst k'.
      destruct (CameraAngle_eqb k a); reflexivity.
    + destruct (CameraAngle_eqb k' a) eqn:E'.
      * apply CameraAngle_eqb_eq in E'. subst k'.
        destruct (CameraAngle_eqb k a) eqn:E''; [|reflexivity].
        apply CameraAngle_eqb_eq in E''. subst k.
        rewrite CameraAngle_eqb_refl in E. discriminate.
      * exact IH.
Qed.

Lemma mapSet_keys (m : VoteMap) (k : CameraAngle) (v : Z) :
  NoDup (map fst m) -> NoDup (map fst (mapSet m k v))
  /\ forall a, In a (map fst (mapSet m k v)) <-> a = k \/ In a (map fst m).
Proof.
  induction m as [|[k' v'] m IH]; simpl; intro Hn.
  - split; [repeat constructor; intros []|]. intro a. intuition.
  - inversion Hn as [|? ? Hni Hn']; subst.
    destruct (CameraAngle_eqb k' k) eqn:E; simpl.
    + apply CameraAngle_eqb_eq in E. subst k'.
      split; [constructor; assumption|]. intro a. intuition.
    + destruct (IH Hn') as [IH1 IH2]. split.
      * constructor; [|assumption]. intro Hin. apply IH2 in Hin.
        destruct Hin as [->|Hin]; [|contradiction].
        rewrite CameraAngle_eqb_refl in E. discriminate.
      * intro a. rewrite IH2. intuition.
Qed.

Lemma mapGet_In (m : VoteMap) (a : CameraAngle) (v : Z) :
  NoDup (map fst m) -> (In (a, v) m <-> mapGet m a = Some v).
Proof.
  induction m as [|[k' v'] m IH]; simpl; intro Hn.
  - split; [intros []|discriminate].
  - inversion Hn as [|? ? Hni Hn']; subst.
    destruct (CameraAngle_eqb k' a) eqn:E.
    + apply CameraAngle_eqb_eq in E. subst k'. split.
      * intros [H|H]; [congruence|].
        exfalso. apply Hni. apply (in_map fst) in H. exact H.
      * intro H. left. congruence.
    + apply CameraAngle_eqb_neq in E. rewrite <- (IH Hn'). split.
      * intros [H|H]; [congruence|assumption].
      * intro H. now right.
Qed.

Lemma votesFor_app (a : CameraAngle) (votes : list CameraAngle) (v : CameraAngle) :
  votesFor a (votes ++ [v])
  = (votesFor a votes + if CameraAngle_eqb a v then 1 else 0)%Z.
Proof.
  unfold votesFor, Zlength'. rewrite filter_app, length_app. simpl.
  destruct (CameraAngle_eqb a v); simpl; lia.
Qed.

Lemma votesFor_nonneg (a : CameraAngle) (votes : list CameraAngle) :
  (0 <= votesFor a votes)%Z.
Proof. unfold votesFor, Zlength'. lia. Qed.

(** The map built by the counting loop holds, for each label that was voted
    for, its number of votes. *)
Lemma countVotes_spec (votes : list CameraAngle) :
  NoDup (map fst (countVotes votes))
  /\ forall a, mapGet (countVotes votes) a
               = if (votesFor a votes =? 0)%Z then None else Some (votesFor a votes).
Proof.
  unfold countVotes.
  induction votes as [|v votes IH] using rev_ind.
  - simpl. split; [constructor|]. intro a. reflexivity.
  - rewrite fold_left_app. cbn [fold_left].
    destruct IH as [IH1 IH2]. split; [apply mapSet_keys, IH1|].
    intro a. rewrite mapGet_mapSet, votesFor_app.
    pose proof (votesFor_nonneg a votes) as Hn.
    destruct (CameraAngle_eqb v a) eqn:E.
    + apply CameraAngle_eqb_eq in E. subst v.
      rewrite CameraAngle_eqb_refl, IH2.
      destruct (votesFor a votes =? 0)%Z eqn:E0.
      * apply Z.eqb_eq in E0. rewrite E0. reflexivity.
      * destruct (votesFor a votes + 1 =? 0)%Z eqn:E1; [apply Z.eqb_eq in E1; lia|].
        reflexivity.
    + assert (E' : CameraAngle_eqb a v = false).
      { apply CameraAngle_eqb_neq. apply CameraAngle_eqb_neq in E. congruence. }
      rewrite E', Z.add_0_r. apply IH2.
Qed.

(** The selection loop keeps a largest count, and the entry it keeps is one
    of the map unless no count is positive. *)
Lemma bestVote_spec (voteCounts : VoteMap) (b0 : CameraAngle) (c0 : Z) :
  let '(b, c) :=
    fold_left (fun '(bestAngle, bestCount) '(angle, count) =>
                 if (count >? bestCount)%Z then (angle, count)
                 else (bestAngle, bestCount))
              voteCounts (b0, c0) in
  (c0 <= c)%Z
  /\ (forall a v, In (a, v) voteCounts -> (v <= c)%Z)
  /\ ((b, c) = (b0, c0) \/ In (b, c) voteCounts).
Proof.
  revert b0 c0. induction voteCounts as [|[a v] m IH]; intros b0 c0.
  - simpl. split; [lia|]. split; [intros ? ? []|now left].
  - cbn [fold_left]. destruct (v >? c0)%Z eqn:E.
    + specialize (IH a v).
      destruct (fold_left _ m (a, v)) as [b c].
      destruct IH as (H1 & H2 & H3).
      rewrite Z.gtb_ltb in E. apply Z.ltb_lt in E.
      split; [lia|]. split.
      * intros a' v' [H|H]; [inversion H; subst; lia | eauto].
      * right. destruct H3 as [H3|H3]; [left; congruence | now right].
    + specialize (IH b0 c0).
      destruct (fold_left _ m (b0, c0)) as [b c].
      destruct IH as (H1 & H2 & H3).
      rewrite Z.gtb_ltb in E. apply Z.ltb_ge in E.
      split; [lia|]. split.
      * intros a' v' [H|H]; [inversion H; subst; lia | eauto].
      * destruct H3 as [H3|H3]; [now left | right; now right].
Qed.

(** [count / n >= 0.6] in integers. *)
Lemma confidence_gate (c n : Z) :
  (0 < n)%Z -> ((ofZ c / ofZ n >=? 0.6) = true <-> (3 * n <= 5 * c)%Z).
Proof.
  intro Hn. destruct n as [|p|p]; try lia.
  rewrite Qgeb_ge.
  unfold ofZ, Qdiv, Qinv, inject_Z. cbn [Qnum Qden].
  unfold Qmult, Qle. cbn [Qnum Qden]. lia.
Qed.

Lemma votesFor_disjoint (a b : CameraAngle) (votes : list CameraAngle) :
  a <> b -> (votesFor a votes + votesFor b votes <= Zlength' votes)%Z.
Proof.
  intro Hab. unfold votesFor, Zlength'.
  induction votes as [|v votes IH]; cbn [filter List.length]; [lia|].
  destruct (CameraAngle_eqb a v) eqn:Ea; destruct (CameraAngle_eqb b v) eqn:Eb;
    cbn [List.length]; try lia.
  apply CameraAngle_eqb_eq in Ea, Eb. congruence.
Qed.

Lemma skipn_nth_error {A : Type} (l : list A) (n : nat) (a : A) :
  nth_error l n = Some a -> skipn n l = a :: skipn (S n) l.
Proof.
  revert n. induction l as [|h t IH]; intros [|n] H; simpl in *; try discriminate.
  - congruence.
  - now apply IH.
Qed.

(** The sample taken from a stable window starts with its first frame, which
    casts a vote. *)
Lemma sampleVotes_nonempty (frames : list PoseFrame) (s : Z) :
  stableAt frames s -> sampleVotes frames s <> [].
Proof.
  intros (H0 & H5 & Hv). unfold sampleVotes, slice.
  assert (E1 : (s <? 0)%Z = false) by (apply Z.ltb_ge; lia).
  assert (E2 : (Z.min (Zlength' frames) (s + 15) <? 0)%Z = false)
    by (apply Z.ltb_ge; lia).
  rewrite E1, E2.
  destruct (Hv s ltac:(lia)) as (f & Ef & Es).
  replace (Z.min s (Zlength' frames)) with s by lia.
  rewrite (skipn_nth_error _ _ _ Ef).
  destruct (Z.to_nat (Z.min (Z.min (Zlength' frames) (s + 15)) (Zlength' frames) - s))
    as [|n] eqn:En; [lia|].
  cbn [firstn flat_map]. unfold frameVote at 1. rewrite Es.
  destruct (_ <? 0.08); [discriminate|]. destruct (_ >? 0.20); discriminate.
Qed.

(** C6. On well-formed frames [detectCameraAngle] returns [uncertain] when no
    five consecutive frames show both shoulders; otherwise, from the first
    such window on, it samples up to 15 frames, lets each frame that shows
    both shoulders vote (see [frameVote]), and returns the label that holds
    at least 60% of the votes, or [uncertain] when no label does. *)
Theorem detectCameraAngle_spec (frames : list PoseFrame) :
  wellFormed frames ->
  exists a,
    detectCameraAngle frames = Ok a
    /\ ((forall i, ~ stableAt frames i) -> a = uncertain)
    /\ (forall s,
          stableAt frames s ->
          (forall i, (0 <= i < s)%Z -> ~ stableAt frames i) ->
          let votes := sampleVotes frames s in
          (forall label,
             (3 * Zlength' votes <= 5 * votesFor label votes)%Z -> a = label)
          /\ ((forall label,
                 (5 * votesFor label votes < 3 * Zlength' votes)%Z) ->
              a = uncertain)).
Proof.
  intro Hw. unfold detectCameraAngle.
  destruct (Zlength' frames <? 5)%Z eqn:E5.
  { apply Z.ltb_lt in E5. exists uncertain. split; [reflexivity|].
    split; [reflexivity|]. intros s (H0 & H5 & _). lia. }
  apply Z.ltb_ge in E5.
  destruct (findStableStart_wf frames 0 (Zlength' frames - 5) Hw) as (s0 & Es0 & Hs0);
    [lia|lia|].
  rewrite Es0. cbn [bind].
  destruct Hs0 as [[-> Hnone] | (Hr & Hst & Hfirst)].
  { exists uncertain. split; [reflexivity|]. split; [reflexivity|].
    intros s Hs. exfalso. apply (Hnone s); [|exact Hs].
    destruct Hs as (H0 & H5 & _). lia. }
  assert (Eneg : (s0 =? -1)%Z = false) by (apply Z.eqb_neq; lia).
  rewrite Eneg.
  rewrite collectVotes_wf by (apply wellFormed_slice; exact Hw).
  cbn [bind]. fold (sampleVotes frames s0).
  pose proof (sampleVotes_nonempty frames s0 Hst) as Hne.
  set (votes := sampleVotes frames s0) in *.
  assert (Hn : (0 < Zlength' votes)%Z).
  { unfold Zlength'. destruct votes; [congruence|simpl; lia]. }
  assert (E0 : (Zlength' votes =? 0)%Z = false) by (apply Z.eqb_neq; lia).
  rewrite E0.
  destruct (countVotes_spec votes) as [Hnd Hget].
  pose proof (bestVote_spec (countVotes votes) uncertain 0) as Hbest.
  unfold bestVote.
  destruct (fold_left _ (countVotes votes) (uncertain, 0%Z)) as [b c].
  destruct Hbest as (Hc0 & Hmax & Hin).
  pose proof (confidence_gate c (Zlength' votes) Hn) as Hgate.
  (* the count of the kept entry *)
  assert (Hcb : (b, c) = (uncertain, 0%Z) \/ (c = votesFor b votes /\ (0 < c)%Z)).
  { destruct Hin as [Hin|Hin]; [now left|right].
    apply (mapGet_In _ _ _ Hnd) in Hin. rewrite Hget in Hin.
    destruct (votesFor b votes =? 0)%Z eqn:Eb; [discriminate|].
    apply Z.eqb_neq in Eb. pose proof (votesFor_nonneg b votes).
    inversion Hin. lia. }
  eexists. split; [reflexivity|].
  split; [intro Hno; exfalso; exact (Hno s0 Hst)|].
  intros s Hs Hsfirst.
  assert (s = s0).
  { destruct (Z.lt_trichotomy s s0) as [Hlt|[Heq|Hgt]]; [|exact Heq|].
    - exfalso. apply (Hfirst s); [|exact Hs]. destruct Hs as (H0 & _). lia.
    - exfalso. apply (Hsfirst s0); [lia|exact Hst]. }
  subst s. cbv zeta. fold votes. split.
  - intros label Hl.
    pose proof (votesFor_nonneg label votes) as Hln.
    assert (Hlin : In (label, votesFor label votes) (countVotes votes)).
    { apply (mapGet_In _ _ _ Hnd). rewrite Hget.
      destruct (votesFor label votes =? 0)%Z eqn:El; [|reflexivity].
      apply Z.eqb_eq in El. lia. }
    apply Hmax in Hlin.
    assert (Hg : (ofZ c / ofZ (Zlength' votes) >=? 0.6) = true) by (apply Hgate; lia).
    rewrite Hg.
    destruct Hcb as [Hcb | [Hcb Hpos]]; [inversion Hcb; lia|].
    destruct (CameraAngle_eqb b label) eqn:Ebl; [now apply CameraAngle_eqb_eq|].
    apply CameraAngle_eqb_neq in Ebl.
    pose proof (votesFor_disjoint b label votes Ebl). lia.
  - intro Hall.
    destruct (ofZ c / ofZ (Zlength' votes) >=? 0.6); [|reflexivity].
    assert (Hg : (3 * Zlength' votes <= 5 * c)%Z) by (apply Hgate; reflexivity).
    destruct Hcb as [Hcb | [Hcb Hpos]]; [inversion Hcb; reflexivity|].
    specialize (Hall b). lia.
Qed.

Lemma detectCameraAngle_spec_witness :
  wellFormed threeSquats
  /\ detectCameraAngle threeSquats = Ok diagonal
  /\ ((forall i, ~ stableAt threeSquats i) -> diagonal = uncertain).
Proof.
  assert (Hw : wellFormed threeSquats)
    by (apply wellFormedb_true; vm_compute; reflexivity).
  split; [exact Hw|].
  destruct (detectCameraAngle_spec threeSquats Hw) as (a & E & U & _).
  assert (E' : detectCameraAngle threeSquats = Ok diagonal)
    by (vm_compute; reflexivity).
  assert (Ea : a = diagonal) by congruence.
  subst a. split; [exact E | exact U].
Defined.

(** ** Scores and ratings *)

Lemma getRating_valid (score : Z) (summary : string) (issueFrames : list Z)
      (confidence : MetricConfidence) :
  (0 <= score <= 100)%Z ->
  validScore {| MetricScore.score := score;
                MetricScore.rating := getRating score;
                MetricScore.summary := summary;
                MetricScore.issueFrames := issueFrames;
                MetricScore.confidence := confidence |}.
Proof.
  intro H. unfold validScore, getRating. cbn [MetricScore.score MetricScore.rating].
  destruct (score >=? 80)%Z eqn:E80; [|destruct (score >=? 50)%Z eqn:E50];
    rewrite ?Z.geb_leb in *;
    repeat match goal with
           | H : (_ <=? _)%Z = true |- _ => apply Z.leb_le in H
           | H : (_ <=? _)%Z = false |- _ => apply Z.leb_gt in H
           end;
    (split; [exact H|]);
    repeat split; intros; try lia; try discriminate; try reflexivity.
Qed.

(** A score that was rounded from a measurement between 0 and 100. *)
Lemma rounded_valid (score : Q) (summary : string) (issueFrames : list Z)
      (confidence : MetricConfidence) :
  0 <= score <= 100 ->
  validScore {| MetricScore.score := Math_round score;
                MetricScore.rating := getRating (Math_round score);
                MetricScore.summary := summary;
                MetricScore.issueFrames := issueFrames;
                MetricScore.confidence := confidence |}.
Proof.
  intro H. apply getRating_valid. apply Math_round_bounds. exact H.
Qed.

Lemma clamp_0_100 (value min max : Q) :
  0 <= min -> min <= max -> max <= 100 -> 0 <= clamp value min max <= 100.
Proof.
  intros H0 H1 H2. pose proof (clamp_bounds value min max H1). lra.
Qed.

Lemma Math_min_0_100 (a b : Q) :
  0 <= a <= 100 -> 0 <= b <= 100 -> 0 <= Math_min a b <= 100.
Proof.
  intros Ha Hb. destruct (Math_min_cases a b) as [[-> _] | [-> _]]; assumption.
Qed.

Lemma Math_max_0_100 (a : Q) :
  a <= 100 -> 0 <= Math_max 0 a <= 100.
Proof.
  intros Ha. destruct (Math_max_cases 0 a) as [[-> _] | [-> ?]]; lra.
Qed.

(** The fixed scores that the scorers return on degenerate input. *)
Lemma fixed_valid (score : Z) (rating : MetricRating) (summary : string)
      (issueFrames : list Z) (confidence : MetricConfidence) :
  (score = 50%Z /\ rating = yellow) \/ (score = 75%Z /\ rating = yellow)
  \/ (score = 100%Z /\ rating = green) \/ (score = 0%Z /\ rating = red) ->
  validScore {| MetricScore.score := score;
                MetricScore.rating := rating;
                MetricScore.summary := summary;
                MetricScore.issueFrames := issueFrames;
                MetricScore.confidence := confidence |}.
Proof.
  unfold validScore. cbn [MetricScore.score MetricScore.rating].
  intros [[-> ->] | [[-> ->] | [[-> ->] | [-> ->]]]];
    repeat split; intros; try lia; try discriminate; try reflexivity.
Qed.

(** Bring a scorer that returned into the shape of its [return]. *)
Ltac returned H :=
  repeat (cbn [bind] in H; cbv beta iota zeta in H;
          match type of H with
          | Throw _ = Ok _ => discriminate H
          | bind (if ?b then _ else _) _ = Ok _ => destruct b
          | bind (bind ?c _) _ = Ok _ => destruct c eqn:?
          | bind ?c _ = Ok _ => destruct c eqn:?
          | context [if ?b then _ else _] => destruct b
          | (let '(_, _) := ?p in _) = Ok _ => destruct p
          end);
  try (inversion H; subst; clear H).

(** Bounds of a returned score. *)
Ltac bounded :=
  first
    [ apply fixed_valid; tauto
    | apply rounded_valid;
      repeat first
        [ apply clamp_0_100; [lra | lra | lra]
        | apply Math_min_0_100
        | apply Math_max_0_100;
          match goal with
          | |- clamp ?v ?lo ?hi - _ <= _ =>
              pose proof (clamp_bounds v lo hi ltac:(lra)); lra
          end
        | split; lra ] ].

Lemma scoreDepth_valid (M : MathLib) (frames : list PoseFrame) (rep : DetectedRep)
      (m : MetricScore.t) :
  scoreDepth M frames rep = Ok m -> validScore m.
Proof. unfold scoreDepth. intro H. returned H; bounded. Qed.

Lemma scoreKneeTracking_valid (frames : list PoseFrame) (rep : DetectedRep)
      (m : MetricScore.t) :
  scoreKneeTracking frames rep = Ok m -> validScore m.
Proof. unfold scoreKneeTracking. intro H. returned H; bounded. Qed.

Lemma scoreBackAngle_valid (M : MathLib) (frames : list PoseFrame) (rep : DetectedRep)
      (m : MetricScore.t) :
  scoreBackAngle M frames rep = Ok m -> validScore m.
Proof. unfold scoreBackAngle. intro H. returned H; bounded. Qed.

Lemma scoreBarPath_valid (frames : list PoseFrame) (rep : DetectedRep)
      (m : MetricScore.t) :
  scoreBarPath frames rep = Ok m -> validScore m.
Proof. unfold scoreBarPath. intro H. returned H; bounded. Qed.

Lemma scoreSymmetry_valid (M : MathLib) (frames : list PoseFrame) (rep : DetectedRep)
      (m : MetricScore.t) :
  scoreSymmetry M frames rep = Ok m -> validScore m.
Proof. unfold scoreSymmetry. intro H. returned H; bounded. Qed.

Lemma scoreButtWink_valid (M : MathLib) (frames : list PoseFrame) (rep : DetectedRep)
      (m : MetricScore.t) :
  scoreButtWink M frames rep = Ok m -> validScore m.
Proof. unfold scoreButtWink. intro H. returned H; bounded. Qed.

Lemma scoreTempo_valid (frames : list PoseFrame) (rep : DetectedRep)
      (m : MetricScore.t) :
  scoreTempo frames rep = Ok m -> validScore m.
Proof.
  unfold scoreTempo. intro H.
  destruct (frameAt frames (startFrame rep)) as [fs|]; [|discriminate].
  destruct (frameAt frames (bottomFrame rep)) as [fb|]; [|discriminate].
  destruct (frameAt frames (endFrame rep)) as [fe|]; [|discriminate].
  cbn [bind] in H. cbv zeta in H.
  (* one stage of the score at a time: each keeps it between 0 and 100 *)
  repeat match type of H with
         | (let '(_, _) := ?p in _) = Ok _ =>
             let E := fresh "E" in
             let B := fresh "B" in
             destruct p as [[? ?] ?] eqn:E || destruct p as [? ?] eqn:E;
             match type of E with
             | _ = (?s, _, _) =>
                 assert (B : 0 <= s <= 100)
                   by (revert E;
                       repeat match goal with
                              | |- context [if ?b then _ else _] => destruct b
                              end;
                       intro E; inversion E; subst;
                       repeat first [ assumption
                                    | apply Math_min_0_100
                                    | split; lra ])
             | _ = (?s, _) =>
                 assert (B : 0 <= s <= 100)
                   by (revert E;
                       repeat match goal with
                              | |- context [if ?b then _ else _] => destruct b
                              end;
                       intro E; inversion E; subst;
                       repeat first [ assumption
                                    | apply Math_min_0_100
                                    | split; lra ])
             end;
             clear E
         end.
  inversion H; subst. apply rounded_valid. assumption.
Qed.

Lemma scoreHeelRise_valid (frames : list PoseFrame) (rep : DetectedRep)
      (m : MetricScore.t) :
  scoreHeelRise frames rep = Ok m -> validScore m.
Proof. unfold scoreHeelRise. intro H. returned H; bounded. Qed.

Lemma scoreStanceWidth_valid (frames : list PoseFrame) (rep : DetectedRep)
      (m : MetricScore.t) :
  scoreStanceWidth frames rep = Ok m -> validScore m.
Proof. unfold scoreStanceWidth. intro H. returned H; bounded. Qed.

Lemma scoreHipShift_valid (frames : list PoseFrame) (rep : DetectedRep)
      (m : MetricScore.t) :
  scoreHipShift frames rep = Ok m -> validScore m.
Proof. unfold scoreHipShift. intro H. returned H; bounded. Qed.

Lemma scoreKneeValgus_valid (M : MathLib) (frames : list PoseFrame) (rep : DetectedRep)
      (m : MetricScore.t) :
  scoreKneeValgus M frames rep = Ok m -> validScore m.
Proof. unfold scoreKneeValgus. intro H. returned H; bounded. Qed.

Lemma scoreKneeTravel_valid (frames : list PoseFrame) (rep : DetectedRep)
      (m : MetricScore.t) :
  scoreKneeTravel frames rep = Ok m -> validScore m.
Proof. unfold scoreKneeTravel. intro H. returned H; bounded. Qed.

Lemma scoreDepthConsistency_valid (M : MathLib) (frames : list PoseFrame)
      (allReps : list DetectedRep) (m : MetricScore.t) :
  scoreDepthConsistency M frames allReps = Ok m -> validScore m.
Proof. unfold scoreDepthConsistency. intro H. returned H; bounded. Qed.

Lemma scoreThoracicRounding_valid (M : MathLib) (frames : list PoseFrame)
      (rep : DetectedRep) (m : MetricScore.t) :
  scoreThoracicRounding M frames rep = Ok m -> validScore m.
Proof. unfold scoreThoracicRounding. intro H. returned H; bounded. Qed.

Lemma scoreHipRiseRate_valid (frames : list PoseFrame) (rep : DetectedRep)
      (m : MetricScore.t) :
  scoreHipRiseRate frames rep = Ok m -> validScore m.
Proof. unfold scoreHipRiseRate. intro H. returned H; bounded. Qed.

Lemma scoreReversalControl_valid (frames : list PoseFrame) (rep : DetectedRep)
      (m : MetricScore.t) :
  scoreReversalControl frames rep = Ok m -> validScore m.
Proof. unfold scoreReversalControl. intro H. returned H; bounded. Qed.

Lemma scoreStanceWidthShift_valid (frames : list PoseFrame) (rep : DetectedRep)
      (m : MetricScore.t) :
  scoreStanceWidthShift frames rep = Ok m -> validScore m.
Proof. unfold scoreStanceWidthShift. intro H. returned H; bounded. Qed.

Lemma scoreHeadPosition_valid (M : MathLib) (frames : list PoseFrame)
      (rep : DetectedRep) (m : MetricScore.t) :
  scoreHeadPosition M frames rep = Ok m -> validScore m.
Proof. unfold scoreHeadPosition. intro H. returned H; bounded. Qed.

Lemma totalScore_bounds (scores : list MetricScore.t) :
  Forall validScore scores ->
  (0 <= totalScore scores <= 100 * Zlength' scores)%Z.
Proof.
  unfold Zlength'. induction 1 as [|m rest Hm _ IH]; simpl; [lia|].
  destruct Hm as [Hm _]. lia.
Qed.

Lemma averageMetricScores_valid (scores : list MetricScore.t) (m : MetricScore.t) :
  Forall validScore scores -> averageMetricScores scores = Ok m -> validScore m.
Proof.
  intros Hv H. unfold averageMetricScores in H.
  destruct (Zlength' scores =? 0)%Z eqn:E0.
  - inversion H. apply fixed_valid. tauto.
  - apply Z.eqb_neq in E0.
    destruct (scoreAt _ _); cbn [bind] in H; [|discriminate].
    destruct (scoreAt _ _); cbn [bind] in H; [|discriminate].
    inversion H. apply getRating_valid.
    rewrite fold_left_totalScore, Z.add_0_l.
    assert (Hn : (0 < Zlength' scores)%Z) by (unfold Zlength' in *; lia).
    pose proof (Math_round_mean (totalScore scores) (Zlength' scores) Hn).
    pose proof (totalScore_bounds scores Hv). nia.
Qed.

(** ** The heap of one analysis *)

Lemma bindH_Ok {A B : Type} (c : HM A) (k : A -> HM B) (h h' : heap) (b : B) :
  bindH c k h = Ok (b, h') ->
  exists a h1, c h = Ok (a, h1) /\ k a h1 = Ok (b, h').
Proof.
  unfold bindH. destruct (c h) as [[a h1]|]; [|discriminate]. eauto.
Qed.

Lemma bindH_new {B : Type} (c : result MetricScore.t) (k : loc -> HM B)
      (h h' : heap) (b : B) :
  bindH (new c) k h = Ok (b, h') ->
  exists m, c = Ok m /\ k (List.length h) (h ++ [m]) = Ok (b, h').
Proof.
  unfold bindH, new. destruct c as [m|]; [|discriminate]. eauto.
Qed.

Lemma validHeap_snoc (h : heap) (m : MetricScore.t) :
  validHeap h -> validScore m -> validHeap (h ++ [m]).
Proof.
  intros Hh Hm. apply Forall_app. split; [exact Hh|]. now constructor.
Qed.

Lemma validHeap_lookup (h : heap) (l : loc) :
  validHeap h -> (l < List.length h)%nat ->
  exists m, nth_error h l = Some m /\ validScore m.
Proof.
  intros Hh Hl. destruct (nth_error h l) as [m|] eqn:E.
  - exists m. split; [reflexivity|]. unfold validHeap in Hh.
    rewrite Forall_forall in Hh. apply Hh. eapply nth_error_In; eauto.
  - apply nth_error_None in E. lia.
Qed.

Lemma update_length (h : heap) (l : loc) (f : MetricScore.t -> MetricScore.t) :
  List.length (update h l f) = List.length h.
Proof.
  revert l. induction h as [|m rest IH]; intros [|l]; simpl; auto.
Qed.

Lemma update_valid (h : heap) (l : loc) (f : MetricScore.t -> MetricScore.t) :
  (forall m, validScore m -> validScore (f m)) ->
  validHeap h -> validHeap (update h l f).
Proof.
  intros Hf Hh. revert l. induction Hh as [|m rest Hm Hrest IH]; intros [|l]; simpl;
    constructor; auto.
  apply IH.
Qed.

(** Stamping the confidence leaves score and rating as they are. *)
Lemma setConfidence_inv (l : loc) (c : MetricConfidence) (h h' : heap) :
  validHeap h -> setConfidence l c h = Ok (tt, h') ->
  validHeap h' /\ List.length h' = List.length h.
Proof.
  unfold setConfidence. intros Hh H.
  destruct (nth_error h l); [|discriminate]. inversion H; subst.
  split; [|apply update_length].
  apply update_valid; [|exact Hh]. intros m Hm. exact Hm.
Qed.

Lemma stamp_inv (angle : CameraAngle) (repData : RepData.t) (keys : list string)
      (h h' : heap) :
  validHeap h ->
  foldH (fun key (_ : unit) =>
           match repField key repData with
           | Some l => setConfidence l (getMetricConfidence key angle)
           | None => lift (Throw TypeError)
           end) keys tt h = Ok (tt, h') ->
  validHeap h' /\ List.length h' = List.length h.
Proof.
  revert h. induction keys as [|key keys IH]; intros h Hh H.
  - simpl in H. unfold retH in H. inversion H; subst. auto.
  - cbn [foldH] in H. apply bindH_Ok in H. destruct H as ([] & h1 & H1 & H2).
    destruct (repField key repData).
    + apply setConfidence_inv in H1; [|exact Hh]. destruct H1 as [Hv Hl].
      destruct (IH h1 Hv H2) as [Hv' Hl']. split; [exact Hv'|lia].
    + discriminate.
Qed.

Create HintDb scores.

#[local] Hint Resolve scoreDepth_valid scoreKneeTracking_valid scoreBackAngle_valid
  scoreBarPath_valid scoreSymmetry_valid scoreButtWink_valid scoreTempo_valid
  scoreHeelRise_valid scoreStanceWidth_valid scoreHipShift_valid
  scoreKneeValgus_valid scoreKneeTravel_valid scoreDepthConsistency_valid
  scoreThoracicRounding_valid scoreHipRiseRate_valid scoreReversalControl_valid
  scoreStanceWidthShift_valid scoreHeadPosition_valid validHeap_snoc : scores.

Lemma scoreRep_inv (M : MathLib) (frames : list PoseFrame) (angle : CameraAngle)
      (dcs : loc) (rep : DetectedRep) (idx : Z) (h h' : heap) (r : RepData.t) :
  validHeap h -> (dcs < List.length h)%nat ->
  scoreRep M frames angle dcs rep idx h = Ok (r, h') ->
  validHeap h' /\ (List.length h <= List.length h')%nat /\ scoredAs dcs h' rep idx r.
Proof.
  intros Hh Hd H. unfold scoreRep in H.
  repeat match type of H with
         | bindH (new ?c) _ _ = Ok _ =>
             apply bindH_new in H;
             let m := fresh "m" in
             let E := fresh "E" in
             destruct H as (m & E & H)
         end.
  apply bindH_Ok in H. destruct H as ([] & h1 & Hs & Hr).
  apply stamp_inv in Hs;
    [|repeat (apply validHeap_snoc; [|eauto with scores]); exact Hh].
  destruct Hs as [Hv Hl]. unfold retH in Hr. inversion Hr; subst r h1; clear Hr.
  rewrite !length_app in Hl. cbn [List.length] in Hl.
  split; [exact Hv|]. split; [lia|].
  unfold scoredAs. cbn [RepData.repNumber RepData.startFrame RepData.endFrame
                        RepData.bottomFrame RepData.depthConsistency].
  repeat (split; [reflexivity|]).
  intros key Hkey. unfold metricKeys in Hkey. cbn [In] in Hkey.
  rewrite Hl.
  repeat (destruct Hkey as [<-|Hkey];
          [eexists; split;
           [reflexivity
           | cbn [RepData.depth RepData.kneeTracking RepData.backAngle
                  RepData.barPath RepData.symmetry RepData.buttWink RepData.tempo
                  RepData.heelRise RepData.stanceWidth RepData.hipShift
                  RepData.kneeValgus RepData.kneeTravel RepData.depthConsistency
                  RepData.thoracicRounding RepData.hipRiseRate
                  RepData.reversalControl RepData.stanceWidthShift
                  RepData.headPosition fst snd];
             rewrite ?length_app; cbn [List.length]; lia]|]).
  contradiction.
Qed.

Lemma scoredAs_mono (dcs : loc) (h h' : heap) (rep : DetectedRep) (idx : Z)
      (r : RepData.t) :
  (List.length h <= List.length h')%nat ->
  scoredAs dcs h rep idx r -> scoredAs dcs h' rep idx r.
Proof.
  intros Hl (H1 & H2 & H3 & H4 & H5 & H6). unfold scoredAs.
  repeat (split; [assumption|]).
  intros key Hkey. destruct (H6 key Hkey) as (l & E & B).
  exists l. split; [exact E|lia].
Qed.

Lemma allScoredAs_mono (dcs : loc) (h h' : heap) (reps : list DetectedRep) (idx : Z)
      (rs : list RepData.t) :
  (List.length h <= List.length h')%nat ->
  allScoredAs dcs h reps idx rs -> allScoredAs dcs h' reps idx rs.
Proof.
  intro Hl. revert idx rs. induction reps as [|rep reps IH]; intros idx [|r rs] H;
    simpl in *; try contradiction; auto.
  destruct H as [H1 H2]. split; [eapply scoredAs_mono; eauto | auto].
Qed.

Lemma mapiH_scoreRep_inv (M : MathLib) (frames : list PoseFrame) (angle : CameraAngle)
      (dcs : loc) (reps : list DetectedRep) (idx : Z) (h h' : heap)
      (rs : list RepData.t) :
  validHeap h -> (dcs < List.length h)%nat ->
  mapiH (scoreRep M frames angle dcs) reps idx h = Ok (rs, h') ->
  validHeap h' /\ (List.length h <= List.length h')%nat
  /\ allScoredAs dcs h' reps idx rs.
Proof.
  revert idx h rs. induction reps as [|rep reps IH]; intros idx h rs Hh Hd H.
  - simpl in H. unfold retH in H. inversion H; subst. simpl. auto.
  - cbn [mapiH] in H.
    apply bindH_Ok in H. destruct H as (r & h1 & H1 & H).
    apply bindH_Ok in H. destruct H as (rs' & h2 & H2 & H).
    unfold retH in H. inversion H; subst rs h2; clear H.
    apply scoreRep_inv in H1; [|assumption|assumption].
    destruct H1 as (Hv1 & Hl1 & Hs1).
    apply IH in H2; [|assumption|lia].
    destruct H2 as (Hv2 & Hl2 & Hs2).
    split; [exact Hv2|]. split; [lia|]. simpl. split; [|exact Hs2].
    eapply scoredAs_mono; eauto.
Qed.

Lemma mapH_read_inv (metric : RepData.t -> loc) (rs : list RepData.t) (h h' : heap)
      (scores : list MetricScore.t) :
  mapH (fun r => read (metric r)) rs h = Ok (scores, h') ->
  h' = h /\ Forall2 (fun r m => nth_error h (metric r) = Some m) rs scores.
Proof.
  revert scores. induction rs as [|r rs IH]; intros scores H.
  - simpl in H. unfold retH in H. inversion H; subst. auto.
  - cbn [mapH] in H.
    apply bindH_Ok in H. destruct H as (m & h1 & H1 & H).
    apply bindH_Ok in H. destruct H as (ms & h2 & H2 & H).
    unfold retH in H. inversion H; subst scores h2; clear H.
    unfold read in H1. destruct (nth_error h (metric r)) eqn:E; [|discriminate].
    inversion H1; subst m h1; clear H1.
    destruct (IH _ H2) as [-> F]. split; [reflexivity|]. constructor; assumption.
Qed.

Lemma overallOf_inv (metric : RepData.t -> loc) (rs : list RepData.t) (h h' : heap)
      (l : loc) :
  validHeap h -> overallOf metric rs h = Ok (l, h') ->
  validHeap h' /\ l = List.length h /\ List.length h' = S (List.length h).
Proof.
  intros Hh H. unfold overallOf in H.
  apply bindH_Ok in H. destruct H as (scores & h1 & H1 & H).
  apply mapH_read_inv in H1. destruct H1 as [-> F].
  unfold new in H. destruct (averageMetricScores scores) as [m|] eqn:E; [|discriminate].
  inversion H; subst l h'; clear H.
  split; [|split; [reflexivity | rewrite length_app; simpl; lia]].
  apply validHeap_snoc; [exact Hh|].
  apply (averageMetricScores_valid scores); [|exact E].
  clear E. induction F as [|r m' rs' ms' Hr _ IH]; constructor; [|exact IH].
  unfold validHeap in Hh. rewrite Forall_forall in Hh.
  apply Hh. eapply nth_error_In; eauto.
Qed.

(** What a successful analysis returns. *)
Lemma analyzeSquat_inv (M : MathLib) (frames : list PoseFrame)
      (et : option ExerciseType) (ca : option CameraAngle)
      (res : SquatAnalysisResult) (h : heap) :
  analyzeSquat M frames et ca [] = Ok (res, h) ->
  exists detectedReps repsToAnalyze,
    detectReps frames = Ok detectedReps
    /\ (if (Zlength' detectedReps >? 0)%Z then Ok detectedReps
        else wholeClipRep frames) = Ok repsToAnalyze
    /\ validHeap h
    /\ (0 < List.length h)%nat
    /\ Overall.depthConsistency (overall res) = 0%nat
    /\ allScoredAs 0%nat h repsToAnalyze 0 (reps res)
    /\ (forall key, In key metricKeys ->
                    exists l, overallField key (overall res) = Some l
                              /\ (l < List.length h)%nat)
    /\ repCount res = Zlength' (reps res)
    /\ exerciseType res = et /\ cameraAngle res = ca.
Proof.
  intro H. unfold analyzeSquat in H.
  apply bindH_Ok in H. destruct H as (detectedReps & h0 & H0 & H).
  unfold lift in H0. destruct (detectReps frames) as [dr|] eqn:Ed; [|discriminate].
  inversion H0; subst detectedReps h0; clear H0.
  apply bindH_Ok in H. destruct H as (repsToAnalyze & h0 & H0 & H).
  unfold lift in H0.
  destruct (if (Zlength' dr >? 0)%Z then Ok dr else wholeClipRep frames)
    as [ra|] eqn:Er; [|discriminate].
  inversion H0; subst repsToAnalyze h0; clear H0.
  apply bindH_new in H. destruct H as (m0 & E0 & H). cbn [List.length app] in H.
  apply bindH_Ok in H. destruct H as (rs & h1 & H1 & H).
  apply mapiH_scoreRep_inv in H1;
    [|apply Forall_cons; [eauto with scores | constructor] | simpl; lia].
  destruct H1 as (Hv1 & Hl1 & Hs1). cbn [List.length] in Hl1.
  repeat match type of H with
         | bindH (overallOf ?g ?rs) _ ?hh = Ok _ =>
             apply bindH_Ok in H;
             let l := fresh "l" in
             let hn := fresh "hn" in
             let Ho := fresh "Ho" in
             destruct H as (l & hn & Ho & H);
             apply overallOf_inv in Ho; [|assumption];
             let V := fresh "V" in
             let El := fresh "El" in
             let Eh := fresh "Eh" in
             destruct Ho as (V & El & Eh)
         end.
  unfold retH in H. inversion H; subst res h; clear H.
  exists dr, ra. split; [reflexivity|]. split; [exact Er|].
  split; [assumption|]. split; [lia|]. split; [reflexivity|].
  split; [eapply allScoredAs_mono; [|exact Hs1]; lia|].
  split; [|cbn [repCount reps exerciseType cameraAngle]; auto].
  intros key Hkey. unfold metricKeys in Hkey. cbn [In] in Hkey.
  cbn [overall].
  repeat (destruct Hkey as [<-|Hkey];
          [eexists; split;
           [reflexivity
           | cbn [Overall.depth Overall.kneeTracking Overall.backAngle
                  Overall.barPath Overall.symmetry Overall.buttWink Overall.tempo
                  Overall.heelRise Overall.stanceWidth Overall.hipShift
                  Overall.kneeValgus Overall.kneeTravel Overall.depthConsistency
                  Overall.thoracicRounding Overall.hipRiseRate
                  Overall.reversalControl Overall.stanceWidthShift
                  Overall.headPosition fst snd]; lia]|]).
  contradiction.
Qed.

Lemma allScoredAs_In (dcs : loc) (h : heap) (reps : list DetectedRep) (idx : Z)
      (rs : list RepData.t) (r : RepData.t) :
  allScoredAs dcs h reps idx rs -> In r rs ->
  exists rep i, In rep reps /\ scoredAs dcs h rep i r.
Proof.
  revert idx rs. induction reps as [|rep reps IH]; intros idx [|r' rs] H Hin;
    simpl in *; try contradiction.
  destruct H as [H1 H2]. destruct Hin as [->|Hin].
  - exists rep, idx. auto.
  - destruct (IH _ _ H2 Hin) as (rep' & i & Hrep & Hs). exists rep', i. auto.
Qed.

(** C1. Every [MetricScore] of a result of [analyzeSquat], each of the 18
    metrics of every rep and each of the 18 overall metrics, has an integer
    score between 0 and 100 and the rating of that score: green from 80 on,
    yellow from 50 to 79, red below 50. *)
Theorem analyzeSquat_scores_valid (M : MathLib) (frames : list PoseFrame)
        (et : option ExerciseType) (ca : option CameraAngle)
        (res : SquatAnalysisResult) (h : heap) :
  analyzeSquat M frames et ca [] = Ok (res, h) ->
  (forall rep key,
      In rep (reps res) -> In key metricKeys ->
      exists l m, repField key rep = Some l /\ nth_error h l = Some m
                  /\ validScore m)
  /\ (forall key,
        In key metricKeys ->
        exists l m, overallField key (overall res) = Some l
                    /\ nth_error h l = Some m /\ validScore m).
Proof.
  intro H. apply analyzeSquat_inv in H.
  destruct H as (dr & ra & _ & _ & Hv & _ & _ & Hs & Ho & _).
  split.
  - intros rep key Hrep Hkey.
    destruct (allScoredAs_In _ _ _ _ _ _ Hs Hrep) as (d & i & _ & S).
    destruct S as (_ & _ & _ & _ & _ & F).
    destruct (F key Hkey) as (l & El & Bl).
    destruct (validHeap_lookup h l Hv Bl) as (m & Em & Vm).
    exists l, m. auto.
  - intros key Hkey.
    destruct (Ho key Hkey) as (l & El & Bl).
    destruct (validHeap_lookup h l Hv Bl) as (m & Em & Vm).
    exists l, m. auto.
Qed.

Lemma analyzeSquat_scores_valid_witness :
  exists res h,
    analyzeSquat hostMath (clip 0.1 oneSquat) (Some squat) None [] = Ok (res, h)
    /\ (forall key,
          In key metricKeys ->
          exists l m, overallField key (overall res) = Some l
                      /\ nth_error h l = Some m /\ validScore m).
Proof.
  assert (E : analyzeSquat hostMath (clip 0.1 oneSquat) (Some squat) None []
              = oneSquatRun) by (vm_compute; reflexivity).
  unfold oneSquatRun in E.
  match type of E with
  | _ = Ok (?res, ?h) => exists res, h
  end.
  split; [exact E|].
  exact (proj2 (analyzeSquat_scores_valid _ _ _ _ _ _ E)).
Defined.

(** C3. In a result of [analyzeSquat] the depth-consistency score of every
    rep and the overall depth-consistency score are one and the same object,
    so they are equal in every field. *)
Theorem depthConsistency_shared (M : MathLib) (frames : list PoseFrame)
        (et : option ExerciseType) (ca : option CameraAngle)
        (res : SquatAnalysisResult) (h : heap) :
  analyzeSquat M frames et ca [] = Ok (res, h) ->
  exists m,
    nth_error h (Overall.depthConsistency (overall res)) = Some m
    /\ forall rep,
         In rep (reps res) ->
         RepData.depthConsistency rep = Overall.depthConsistency (overall res)
         /\ nth_error h (RepData.depthConsistency rep) = Some m.
Proof.
  intro H. apply analyzeSquat_inv in H.
  destruct H as (dr & ra & _ & _ & Hv & Hl & Ho & Hs & _).
  destruct (validHeap_lookup h 0%nat Hv Hl) as (m & Em & _).
  exists m. rewrite Ho. split; [exact Em|].
  intros rep Hrep.
  destruct (allScoredAs_In _ _ _ _ _ _ Hs Hrep) as (d & i & _ & S).
  destruct S as (_ & _ & _ & _ & E & _).
  rewrite E. auto.
Qed.

Lemma depthConsistency_shared_witness :
  exists res h m,
    analyzeSquat hostMath threeSquats (Some squat) (Some left_side) [] = Ok (res, h)
    /\ List.length (reps res) = 3%nat
    /\ nth_error h (Overall.depthConsistency (overall res)) = Some m
    /\ forall rep,
         In rep (reps res) ->
         RepData.depthConsistency rep = Overall.depthConsistency (overall res)
         /\ nth_error h (RepData.depthConsistency rep) = Some m.
Proof.
  assert (E : analyzeSquat hostMath threeSquats (Some squat) (Some left_side) []
              = threeSquatsRun) by (vm_compute; reflexivity).
  unfold threeSquatsRun in E.
  destruct (depthConsistency_shared _ _ _ _ _ _ E) as (m & Hm & Hall).
  match type of E with
  | _ = Ok (?res, ?h) => exists res, h, m
  end.
  split; [exact E|]. split; [reflexivity|]. split; [exact Hm | exact Hall].
Defined.

(** * Further properties of the code *)

(** ** The scorers return on well-formed frames *)

Lemma foldM_total {A S : Type} (body : A -> S -> result S) (xs : list A) :
  (forall x acc, In x xs -> exists acc', body x acc = Ok acc') ->
  forall acc, exists r, foldM body xs acc = Ok r.
Proof.
  induction xs as [|x xs IH]; intros Hb acc.
  - exists acc. reflexivity.
  - cbn [foldM]. destruct (Hb x acc (or_introl eq_refl)) as [acc' E].
    rewrite E. cbn [bind]. apply IH. intros y a Hy. apply Hb. now right.
Qed.

Lemma mapM_total {A B : Type} (f : A -> result B) (xs : list A) :
  (forall x, In x xs -> exists y, f x = Ok y) ->
  exists ys, mapM f xs = Ok ys.
Proof.
  induction xs as [|x xs IH]; intro Hf.
  - exists []. reflexivity.
  - cbn [mapM]. destruct (Hf x (or_introl eq_refl)) as [y E]. rewrite E. cbn [bind].
    destruct IH as [ys Eys]; [intros z Hz; apply Hf; now right|].
    rewrite Eys. cbn [bind]. eauto.
Qed.

Lemma hipY_wf (f : PoseFrame) :
  List.length (landmarks f) = 33%nat -> hipY f = Ok (avgHipY f).
Proof.
  intro Hl. unfold hipY.
  rewrite !lm_wf by (assumption || (unfold LEFT_HIP, RIGHT_HIP; lia)).
  reflexivity.
Qed.

(** Read frame [i], known to exist, in a goal about a scorer. *)
Ltac read_frame frames i Hw :=
  let f := fresh "f" in
  let E := fresh "E" in
  let L := fresh "L" in
  destruct (frameAt_wf frames i Hw ltac:(lia)) as (f & E & _ & L);
  rewrite ?E; cbn [bind];
  rewrite ?(lm_wf f) by (assumption || (unfold NOSE, LEFT_EYE, RIGHT_EYE, LEFT_SHOULDER,
    RIGHT_SHOULDER, LEFT_ELBOW, RIGHT_ELBOW, LEFT_WRIST, RIGHT_WRIST, LEFT_HIP,
    RIGHT_HIP, LEFT_KNEE, RIGHT_KNEE, LEFT_ANKLE, RIGHT_ANKLE, LEFT_HEEL,
    RIGHT_HEEL, LEFT_FOOT_INDEX, RIGHT_FOOT_INDEX; lia));
  rewrite ?(hipY_wf f) by assumption;
  cbn [bind].

(** A goal [exists m, e = Ok m] where [e] branches into returns. *)
Ltac returns :=
  cbv beta iota zeta;
  repeat (match goal with
          | |- context [match ?p with (_, _) => _ end] => destruct p
          | |- context [if ?b then _ else _] => destruct b
          end; cbv beta iota zeta);
  eexists; reflexivity.

(** Reduce a goal about a scorer with a loop to the totality of the loop
    body. *)
Ltac loop_total :=
  match goal with
  | |- context [foldM ?body ?xs ?acc] =>
      let T := fresh "T" in
      assert (T : exists r, foldM body xs acc = Ok r);
      [apply foldM_total | destruct T as [? T]; rewrite T; cbn [bind]]
  end.

Lemma isActiveFrame_total (frames : list PoseFrame) (rep : DetectedRep) (i : Z) :
  wellFormed frames -> validRep frames rep -> (0 <= i < Zlength' frames)%Z ->
  exists b, isActiveFrame frames rep i = Ok b.
Proof.
  intros Hw (H1 & H2) Hi. unfold isActiveFrame.
  read_frame frames (startFrame rep) Hw.
  read_frame frames (bottomFrame rep) Hw.
  destruct (Math_abs _ <? 0.01); [eauto|].
  read_frame frames i Hw. eauto.
Qed.

Lemma scoreDepth_total (M : MathLib) (frames : list PoseFrame) (rep : DetectedRep) :
  wellFormed frames -> validRep frames rep ->
  exists m, scoreDepth M frames rep = Ok m.
Proof.
  intros Hw (H1 & H2). unfold scoreDepth.
  read_frame frames (bottomFrame rep) Hw. returns.
Qed.

Lemma scoreKneeTracking_total (frames : list PoseFrame) (rep : DetectedRep) :
  wellFormed frames -> validRep frames rep ->
  exists m, scoreKneeTracking frames rep = Ok m.
Proof.
  intros Hw Hr. pose proof Hr as (H1 & H2). unfold scoreKneeTracking.
  loop_total.
  { intros i [? ?] Hi. apply Zrange_In in Hi.
    destruct (isActiveFrame_total frames rep i Hw Hr ltac:(lia)) as [b Eb].
    rewrite Eb. cbn [bind]. destruct b; cbn [negb]; [|eauto].
    read_frame frames i Hw. returns. }
  destruct x. returns.
Qed.

Ltac map_total :=
  match goal with
  | |- context [mapM ?f ?xs] =>
      let T := fresh "T" in
      assert (T : exists ys, mapM f xs = Ok ys);
      [apply mapM_total | destruct T as [? T]; rewrite T; cbn [bind]]
  end.

Lemma Zsteps_In (lo hi step i : Z) :
  (1 <= step)%Z -> In i (Zsteps lo hi step) -> (lo <= i < hi)%Z.
Proof.
  intros Hs Hi. unfold Zsteps in Hi. apply in_map_iff in Hi.
  destruct Hi as [k [<- Hk]]. apply in_seq in Hk.
  assert (Hq : (Z.of_nat k + 1 <= (hi - lo + step - 1) / step)%Z) by lia.
  assert (Hm : ((Z.of_nat k + 1) * step <= hi - lo + step - 1)%Z).
  { pose proof (Z.mul_div_le (hi - lo + step - 1) step ltac:(lia)). nia. }
  nia.
Qed.

Lemma scoreBackAngle_total (M : MathLib) (frames : list PoseFrame) (rep : DetectedRep) :
  wellFormed frames -> validRep frames rep ->
  exists m, scoreBackAngle M frames rep = Ok m.
Proof.
  intros Hw Hr. pose proof Hr as (H1 & H2). unfold scoreBackAngle.
  loop_total.
  { intros i [? ?] Hi. apply Zrange_In in Hi. read_frame frames i Hw. eauto. }
  destruct x. returns.
Qed.

Lemma scoreBarPath_total (frames : list PoseFrame) (rep : DetectedRep) :
  wellFormed frames -> validRep frames rep ->
  exists m, scoreBarPath frames rep = Ok m.
Proof.
  intros Hw Hr. pose proof Hr as (H1 & H2). unfold scoreBarPath.
  loop_total.
  { intros i ? Hi. apply Zrange_In in Hi. read_frame frames i Hw. eauto. }
  returns.
Qed.

Lemma scoreSymmetry_total (M : MathLib) (frames : list PoseFrame) (rep : DetectedRep) :
  wellFormed frames -> validRep frames rep ->
  exists m, scoreSymmetry M frames rep = Ok m.
Proof.
  intros Hw (H1 & H2). unfold scoreSymmetry.
  read_frame frames (bottomFrame rep) Hw. returns.
Qed.

Lemma spineAngleAt_total (M : MathLib) (frames : list PoseFrame) (i : Z) :
  wellFormed frames -> (0 <= i < Zlength' frames)%Z ->
  exists a, spineAngleAt M frames i = Ok a.
Proof.
  intros Hw Hi. unfold spineAngleAt. read_frame frames i Hw. eauto.
Qed.

Lemma scoreButtWink_total (M : MathLib) (frames : list PoseFrame) (rep : DetectedRep) :
  wellFormed frames -> validRep frames rep ->
  exists m, scoreButtWink M frames rep = Ok m.
Proof.
  intros Hw (H1 & H2). unfold scoreButtWink. cbv zeta.
  map_total.
  { intros i Hi. apply Zrange_In in Hi. apply spineAngleAt_total; [assumption|lia]. }
  map_total.
  { intros i Hi. apply Zrange_In in Hi. apply spineAngleAt_total; [assumption|lia]. }
  returns.
Qed.

Lemma scoreTempo_total (frames : list PoseFrame) (rep : DetectedRep) :
  wellFormed frames -> validRep frames rep ->
  exists m, scoreTempo frames rep = Ok m.
Proof.
  intros Hw (H1 & H2). unfold scoreTempo.
  read_frame frames (startFrame rep) Hw.
  read_frame frames (bottomFrame rep) Hw.
  read_frame frames (endFrame rep) Hw.
  returns.
Qed.

Lemma scoreHeelRise_total (frames : list PoseFrame) (rep : DetectedRep) :
  wellFormed frames -> validRep frames rep ->
  exists m, scoreHeelRise frames rep = Ok m.
Proof.
  intros Hw Hr. pose proof Hr as (H1 & H2). unfold scoreHeelRise.
  read_frame frames (startFrame rep) Hw.
  loop_total.
  { intros i [? ?] Hi. apply Zrange_In in Hi. read_frame frames i Hw. eauto. }
  destruct x. returns.
Qed.

Lemma scoreStanceWidth_total (frames : list PoseFrame) (rep : DetectedRep) :
  wellFormed frames -> validRep frames rep ->
  exists m, scoreStanceWidth frames rep = Ok m.
Proof.
  intros Hw (H1 & H2). unfold scoreStanceWidth.
  read_frame frames (startFrame rep) Hw. returns.
Qed.

Lemma scoreHipShift_total (frames : list PoseFrame) (rep : DetectedRep) :
  wellFormed frames -> validRep frames rep ->
  exists m, scoreHipShift frames rep = Ok m.
Proof.
  intros Hw Hr. pose proof Hr as (H1 & H2). unfold scoreHipShift.
  loop_total.
  { intros i ? Hi. apply Zrange_In in Hi. read_frame frames i Hw. eauto. }
  returns.
Qed.

Lemma scoreKneeValgus_total (M : MathLib) (frames : list PoseFrame) (rep : DetectedRep) :
  wellFormed frames -> validRep frames rep ->
  exists m, scoreKneeValgus M frames rep = Ok m.
Proof.
  intros Hw Hr. pose proof Hr as (H1 & H2). unfold scoreKneeValgus.
  loop_total.
  { intros i [? ?] Hi. apply Zrange_In in Hi.
    destruct (isActiveFrame_total frames rep i Hw Hr ltac:(lia)) as [b Eb].
    rewrite Eb. cbn [bind]. destruct b; cbn [negb]; [|eauto].
    read_frame frames i Hw. eauto. }
  destruct x. returns.
Qed.

Lemma scoreKneeTravel_total (frames : list PoseFrame) (rep : DetectedRep) :
  wellFormed frames -> validRep frames rep ->
  exists m, scoreKneeTravel frames rep = Ok m.
Proof.
  intros Hw (H1 & H2). unfold scoreKneeTravel.
  read_frame frames (bottomFrame rep) Hw. returns.
Qed.

Lemma scoreThoracicRounding_total (M : MathLib) (frames : list PoseFrame)
      (rep : DetectedRep) :
  wellFormed frames -> validRep frames rep ->
  exists m, scoreThoracicRounding M frames rep = Ok m.
Proof.
  intros Hw Hr. pose proof Hr as (H1 & H2). unfold scoreThoracicRounding.
  loop_total.
  { intros i [? ?] Hi. apply Zrange_In in Hi.
    destruct (isActiveFrame_total frames rep i Hw Hr ltac:(lia)) as [b Eb].
    rewrite Eb. cbn [bind]. destruct b; cbn [negb]; [|eauto].
    read_frame frames i Hw. eauto. }
  destruct x. returns.
Qed.

Lemma scoreHipRiseRate_total (frames : list PoseFrame) (rep : DetectedRep) :
  wellFormed frames -> validRep frames rep ->
  exists m, scoreHipRiseRate frames rep = Ok m.
Proof.
  intros Hw Hr. pose proof Hr as (H1 & H2). unfold scoreHipRiseRate. cbv zeta.
  destruct (endFrame rep - bottomFrame rep <? 3)%Z; [eauto|].
  loop_total.
  { intros i [? ?] Hi. apply Zsteps_In in Hi; [|lia].
    read_frame frames i Hw.
    read_frame frames (Z.min (i + Z.max 2 (Math_floor (ofZ (endFrame rep - bottomFrame rep) / 5)))
                             (endFrame rep)) Hw.
    returns. }
  destruct x. returns.
Qed.

Lemma pushVelocity_total (frames : list PoseFrame) (i : Z) (velocities : list Q) :
  wellFormed frames -> (0 <= i)%Z -> (i + 1 < Zlength' frames)%Z ->
  exists vs, pushVelocity frames i velocities = Ok vs.
Proof.
  intros Hw H0 H1. unfold pushVelocity.
  read_frame frames (i + 1)%Z Hw. read_frame frames i Hw.
  destruct (_ >? 0); eauto.
Qed.

Lemma scoreReversalControl_total (frames : list PoseFrame) (rep : DetectedRep) :
  wellFormed frames -> validRep frames rep ->
  exists m, scoreReversalControl frames rep = Ok m.
Proof.
  intros Hw Hr. pose proof Hr as (H1 & H2). unfold scoreReversalControl. cbv zeta.
  destruct (_ <? 3)%Z; [eauto|].
  loop_total.
  { intros i ? Hi. apply Zrange_In in Hi. apply pushVelocity_total; [assumption|lia|lia]. }
  loop_total.
  { intros i ? Hi. apply Zrange_In in Hi. apply pushVelocity_total; [assumption|lia|lia]. }
  returns.
Qed.

Lemma scoreStanceWidthShift_total (frames : list PoseFrame) (rep : DetectedRep) :
  wellFormed frames -> validRep frames rep ->
  exists m, scoreStanceWidthShift frames rep = Ok m.
Proof.
  intros Hw Hr. pose proof Hr as (H1 & H2). unfold scoreStanceWidthShift.
  read_frame frames (startFrame rep) Hw.
  destruct (_ <? 0.01); [eauto|].
  loop_total.
  { intros i [? ?] Hi. apply Zrange_In in Hi. read_frame frames i Hw. eauto. }
  destruct x. returns.
Qed.

Lemma scoreHeadPosition_total (M : MathLib) (frames : list PoseFrame)
      (rep : DetectedRep) :
  wellFormed frames -> validRep frames rep ->
  exists m, scoreHeadPosition M frames rep = Ok m.
Proof.
  intros Hw Hr. pose proof Hr as (H1 & H2). unfold scoreHeadPosition.
  loop_total.
  { intros i [? ?] Hi. apply Zrange_In in Hi.
    destruct (isActiveFrame_total frames rep i Hw Hr ltac:(lia)) as [b Eb].
    rewrite Eb. cbn [bind]. destruct b; cbn [negb]; [|eauto].
    read_frame frames i Hw. eauto. }
  destruct x. returns.
Qed.

Lemma fold_Math_min_In (values : list Q) (v : Q) :
  fold_left Math_min values v = v \/ In (fold_left Math_min values v) values.
Proof.
  revert v. induction values as [|w values IH]; intro v; simpl; [now left|].
  destruct (IH (Math_min v w)) as [E|E].
  - rewrite E. destruct (Math_min_cases v w) as [[-> _] | [-> _]]; auto.
  - auto.
Qed.

Lemma minimum_In (values : list Q) : values <> [] -> In (minimum values) values.
Proof.
  destruct values as [|v values]; [congruence|]. intros _. unfold minimum.
  destruct (fold_Math_min_In values v) as [->|H]; [now left|now right].
Qed.

Lemma indexOf_from_In (values : list Q) (v : Q) (i : Z) :
  In v values ->
  (i <= indexOf_from values v i < i + Zlength' values)%Z.
Proof.
  unfold Zlength'. revert i. induction values as [|w values IH]; intros i Hin;
    [contradiction|].
  cbn [indexOf_from List.length]. destruct (w =? v) eqn:E; [lia|].
  destruct Hin as [->|Hin].
  - rewrite Qeq_bool_refl in E. discriminate.
  - specialize (IH (i + 1)%Z Hin). lia.
Qed.

Lemma scoreDepthConsistency_total (M : MathLib) (frames : list PoseFrame)
      (allReps : list DetectedRep) :
  wellFormed frames -> Forall (validRep frames) allReps ->
  exists m, scoreDepthConsistency M frames allReps = Ok m.
Proof.
  intros Hw Hr. unfold scoreDepthConsistency.
  destruct (Zlength' allReps <? 2)%Z eqn:E2; [eauto|]. apply Z.ltb_ge in E2.
  match goal with
  | |- context [mapM ?f ?xs] =>
      destruct (mapM_total f xs) as [bottomDepths T]
  end.
  { intros rep Hrep. rewrite Forall_forall in Hr. destruct (Hr rep Hrep) as (H1 & H2).
    read_frame frames (bottomFrame rep) Hw. eauto. }
  rewrite T. cbn [bind]. cbv zeta.
  pose proof (mapM_length _ _ _ T) as Hlen.
  destruct (_ <? 0.02); cbn [bind]; [eauto|].
  destruct (_ <? 0.05); cbn [bind]; [|eauto].
  assert (Hne : bottomDepths <> []).
  { destruct bottomDepths; [|discriminate].
    unfold Zlength' in E2. simpl in Hlen. lia. }
  pose proof (indexOf_from_In bottomDepths _ 0 (minimum_In _ Hne)) as Hi.
  fold (indexOf bottomDepths (minimum bottomDepths)) in Hi.
  unfold repAt.
  assert (E0 : (indexOf bottomDepths (minimum bottomDepths) <? 0)%Z = false)
    by (apply Z.ltb_ge; lia).
  rewrite E0.
  destruct (nth_error allReps (Z.to_nat (indexOf bottomDepths (minimum bottomDepths))))
    eqn:En; cbn [bind]; [eauto|].
  apply nth_error_None in En. unfold Zlength' in Hi. lia.
Qed.

(** ** The analysis returns on well-formed frames *)

Lemma stamp_total (angle : CameraAngle) (repData : RepData.t) (h : heap) :
  (forall key, In key metricKeys ->
               exists l, repField key repData = Some l /\ (l < List.length h)%nat) ->
  exists h',
    foldH (fun key (_ : unit) =>
             match repField key repData with
             | Some l => setConfidence l (getMetricConfidence key angle)
             | None => lift (Throw TypeError)
             end) metricKeys tt h = Ok (tt, h').
Proof.
  generalize metricKeys as keys. intros keys. revert h.
  induction keys as [|key keys IH]; intros h Hk.
  - exists h. reflexivity.
  - cbn [foldH]. unfold bindH.
    destruct (Hk key (or_introl eq_refl)) as (l & El & Bl). rewrite El.
    unfold setConfidence.
    destruct (nth_error h l) eqn:En; [|apply nth_error_None in En; lia].
    apply IH. intros k Hin. destruct (Hk k (or_intror Hin)) as (l' & El' & Bl').
    exists l'. split; [exact El'|]. now rewrite update_length.
Qed.

(** ** Reps of well-formed clips *)

Lemma mapM_hipY_wf (frames : list PoseFrame) :
  wellFormed frames -> mapM hipY frames = Ok (hipHeights frames).
Proof.
  induction 1 as [|f frames Hf _ IH]; [reflexivity|].
  cbn [mapM hipHeights map]. rewrite (hipY_wf f Hf). cbn [bind].
  rewrite IH. reflexivity.
Qed.

Lemma hipHeights_length (frames : list PoseFrame) :
  Zlength' (hipHeights frames) = Zlength' frames.
Proof. unfold Zlength', hipHeights. now rewrite length_map. Qed.

Lemma detectReps_total (frames : list PoseFrame) :
  wellFormed frames -> exists reps, detectReps frames = Ok reps.
Proof.
  intro Hw. unfold detectReps. destruct (Zlength' frames <? 5)%Z; [eauto|].
  rewrite (mapM_hipY_wf frames Hw). cbn [bind]. cbv zeta.
  destruct (_ =? 0)%Z; eauto.
Qed.

(** ** Bounds of minimum, maximum and the moving average *)

Lemma fold_Math_max_ge (values : list Q) (v : Q) :
  v <= fold_left Math_max values v
  /\ forall w, In w values -> w <= fold_left Math_max values v.
Proof.
  revert v. induction values as [|u values IH]; intro v; cbn [fold_left].
  - split; [apply Qle_refl | contradiction].
  - destruct (IH (Math_max v u)) as [H1 H2].
    assert (Hv : v <= Math_max v u) by apply Q.le_max_l.
    assert (Hu : u <= Math_max v u) by apply Q.le_max_r.
    split; [eapply Qle_trans; eauto|].
    intros w [<-|Hw]; [eapply Qle_trans; eauto | auto].
Qed.

Lemma fold_Math_min_le (values : list Q) (v : Q) :
  fold_left Math_min values v <= v
  /\ forall w, In w values -> fold_left Math_min values v <= w.
Proof.
  revert v. induction values as [|u values IH]; intro v; cbn [fold_left].
  - split; [apply Qle_refl | contradiction].
  - destruct (IH (Math_min v u)) as [H1 H2].
    assert (Hv : Math_min v u <= v) by apply Q.le_min_l.
    assert (Hu : Math_min v u <= u) by apply Q.le_min_r.
    split; [eapply Qle_trans; eauto|].
    intros w [<-|Hw]; [eapply Qle_trans; eauto | auto].
Qed.

Lemma maximum_ge (values : list Q) (w : Q) : In w values -> w <= maximum values.
Proof.
  destruct values as [|v values]; [contradiction|]. unfold maximum.
  destruct (fold_Math_max_ge values v) as [H1 H2].
  intros [<-|Hw]; auto.
Qed.

Lemma minimum_le (values : list Q) (w : Q) : In w values -> minimum values <= w.
Proof.
  destruct values as [|v values]; [contradiction|]. unfold minimum.
  destruct (fold_Math_min_le values v) as [H1 H2].
  intros [<-|Hw]; auto.
Qed.

Lemma at_In (values : list Q) (i : Z) :
  (0 <= i < Zlength' values)%Z -> In (at_ values i) values.
Proof. intro H. unfold at_. apply nth_In. unfold Zlength' in H. lia. Qed.

(** A sum of [n] terms between [lo] and [hi] lies between [n lo] and [n hi]. *)
Lemma fold_sum_bounds (f : Z -> Q) (lo hi : Q) (js : list Z) (acc : Q) :
  (forall j, In j js -> lo <= f j <= hi) ->
  acc + ofZ (Zlength' js) * lo <= fold_left (fun s j => s + f j) js acc
  /\ fold_left (fun s j => s + f j) js acc <= acc + ofZ (Zlength' js) * hi.
Proof.
  revert acc. induction js as [|j js IH]; intros acc Hf.
  - cbn [fold_left]. change (ofZ (Zlength' (@nil Z))) with 0. split; lra.
  - cbn [fold_left]. destruct (IH (acc + f j)) as [L U];
      [intros k Hk; apply Hf; now right|].
    destruct (Hf j (or_introl eq_refl)) as [Lj Uj].
    assert (E : ofZ (Zlength' (j :: js)) == ofZ (Zlength' js) + 1).
    { unfold ofZ, Zlength'. cbn [List.length]. rewrite Nat2Z.inj_succ.
      unfold Z.succ. rewrite inject_Z_plus. reflexivity. }
    rewrite E. split; lra.
Qed.

Lemma at_movingAverage (values : list Q) (windowSize i : Z) :
  (0 <= i < Zlength' values)%Z ->
  at_ (movingAverage values windowSize) i
  = let half := (windowSize / 2)%Z in
    let start := Z.max 0 (i - half) in
    let end_ := Z.min (Zlength' values - 1) (i + half) in
    fold_left (fun s j => s + at_ values j) (Zrange start end_) 0
    / ofZ (end_ - start + 1).
Proof.
  intro Hi. unfold at_ at 1. unfold movingAverage. cbv zeta.
  set (f := fun i0 : Z => _ / _).
  rewrite (nth_indep _ 0 (f 0%Z)).
  2:{ rewrite length_map, Zrange_length. lia. }
  rewrite map_nth. rewrite Zrange_nth by lia.
  subst f. cbv beta. replace (0 + Z.of_nat (Z.to_nat i))%Z with i by lia.
  reflexivity.
Qed.

(** Every smoothed value lies between the smallest and the largest raw
    value. *)
Lemma movingAverage_bounds (values : list Q) (windowSize i : Z) :
  (0 <= windowSize)%Z -> (0 <= i < Zlength' values)%Z ->
  minimum values <= at_ (movingAverage values windowSize) i <= maximum values.
Proof.
  intros Hw Hi. rewrite at_movingAverage by exact Hi. cbv zeta.
  set (start := Z.max 0 (i - windowSize / 2)).
  set (end_ := Z.min (Zlength' values - 1) (i + windowSize / 2)).
  assert (Hh : (0 <= windowSize / 2)%Z) by zlia.
  assert (Hse : (0 <= start <= end_ /\ end_ < Zlength' values)%Z)
    by (subst start end_; lia).
  destruct (fold_sum_bounds (at_ values) (minimum values) (maximum values)
                            (Zrange start end_) 0) as [L U].
  { intros j Hj. apply Zrange_In in Hj.
    split; [apply minimum_le | apply maximum_ge]; apply at_In; lia. }
  assert (El : Zlength' (Zrange start end_) = (end_ - start + 1)%Z).
  { unfold Zlength'. rewrite Zrange_length. lia. }
  rewrite El in L, U.
  assert (Hpos : 0 < ofZ (end_ - start + 1)).
  { unfold ofZ. replace 0 with (inject_Z 0) by reflexivity.
    rewrite <- Zlt_Qlt. lia. }
  split.
  - apply Qle_shift_div_l; [exact Hpos|]. lra.
  - apply Qle_shift_div_r; [exact Hpos|]. lra.
Qed.



(** ** Clips without hip movement *)

Lemma fold_min_index_ge (smoothed : list Q) (lo : Q) (js : list Z) (init : Q) :
  lo <= init -> (forall j, In j js -> lo <= at_ smoothed j) ->
  lo <= fold_left (fun m j => Math_min m (at_ smoothed j)) js init.
Proof.
  revert init. induction js as [|j js IH]; intros init Hi Hj; cbn [fold_left];
    [exact Hi|].
  apply IH; [|intros k Hk; apply Hj; now right].
  apply Q.min_glb; [exact Hi | apply Hj; now left].
Qed.

(** A peak needs a prominence of [minProminence]: there is none in a signal
    whose values differ by less. *)
Lemma isBottom_flat (smoothed : list Q) (lo hi : Q) (i : Z) :
  (forall j, (0 <= j < Zlength' smoothed)%Z -> lo <= at_ smoothed j <= hi) ->
  hi - lo < minProminence ->
  (2 <= i <= Zlength' smoothed - 3)%Z ->
  isBottom smoothed i = false.
Proof.
  intros Hb Hr Hi. unfold isBottom.
  destruct (_ && _); [|reflexivity]. cbv zeta.
  apply Qgeb_lt.
  set (leftMin := fold_left _ (rev _) _).
  set (rightMin := fold_left _ (Zrange (i + 1) _) _).
  assert (Hl : lo <= leftMin).
  { subst leftMin. apply fold_min_index_ge; [apply Hb; lia|].
    intros j Hj. apply in_rev in Hj. apply Zrange_In in Hj. apply Hb. lia. }
  assert (Hm : leftMin <= Math_max leftMin rightMin) by apply Q.le_max_l.
  destruct (Hb i ltac:(lia)) as [_ Hu]. lra.
Qed.

Lemma detectReps_flat (frames : list PoseFrame) :
  wellFormed frames ->
  maximum (hipHeights frames) - minimum (hipHeights frames) < minProminence ->
  detectReps frames = Ok [].
Proof.
  intros Hw Hr. unfold detectReps.
  destruct (Zlength' frames <? 5)%Z; [reflexivity|].
  rewrite (mapM_hipY_wf frames Hw). cbn [bind]. cbv zeta.
  rewrite filter_none; [reflexivity|].
  intros i Hi. apply Zrange_In in Hi.
  apply (isBottom_flat _ (minimum (hipHeights frames)) (maximum (hipHeights frames)));
    [|exact Hr|exact Hi].
  intros j Hj. unfold Zlength' in Hj. rewrite movingAverage_length in Hj.
  apply movingAverage_bounds; [lia | exact Hj].
Qed.






(** ** The walk to the nearest valley *)

Lemma findValley_loop_down_spec (smoothed : list Q) (boundary : Z) (fuel : nat) (i : Z) :
  (boundary <= i)%Z -> (Z.to_nat (i - boundary) < fuel)%nat ->
  let v := findValley_loop smoothed (-1) boundary fuel i in
  (boundary <= v <= i)%Z
  /\ (forall j, (v <= j < i)%Z -> at_ smoothed j <= at_ smoothed (j + 1))
  /\ (v = boundary \/ at_ smoothed v < at_ smoothed (v - 1)).
Proof.
  revert i. induction fuel as [|fuel IH]; intros i Hb Hf; [lia|].
  cbn [findValley_loop]. change (-1 =? -1)%Z with true. cbv iota.
  replace (i + -1)%Z with (i - 1)%Z by lia.
  destruct (i - 1 <? boundary)%Z eqn:E1.
  - apply Z.ltb_lt in E1. cbv zeta. split; [lia|]. split; [intros j Hj; lia|].
    left. lia.
  - apply Z.ltb_ge in E1.
    destruct (at_ smoothed (i - 1) >? at_ smoothed i) eqn:E2.
    + apply Qgtb_gt in E2. cbv zeta. split; [lia|]. split; [intros j Hj; lia|].
      right. exact E2.
    + apply Qgtb_le in E2. cbv zeta.
      destruct (IH (i - 1)%Z ltac:(lia) ltac:(lia)) as (B & Mn & V). cbv zeta in *.
      split; [lia|]. split; [|exact V].
      intros j Hj. destruct (Z.eq_dec j (i - 1)) as [->|Hne].
      * replace (i - 1 + 1)%Z with i by lia. exact E2.
      * apply Mn. lia.
Qed.

Lemma findValley_loop_up_spec (smoothed : list Q) (boundary : Z) (fuel : nat) (i : Z) :
  (i <= boundary)%Z -> (Z.to_nat (boundary - i) < fuel)%nat ->
  let v := findValley_loop smoothed 1 boundary fuel i in
  (i <= v <= boundary)%Z
  /\ (forall j, (i < j <= v)%Z -> at_ smoothed j <= at_ smoothed (j - 1))
  /\ (v = boundary \/ at_ smoothed v < at_ smoothed (v + 1)).
Proof.
  revert i. induction fuel as [|fuel IH]; intros i Hb Hf; [lia|].
  cbn [findValley_loop]. change (1 =? -1)%Z with false. cbv iota.
  destruct (i + 1 >? boundary)%Z eqn:E1.
  - rewrite Z.gtb_ltb in E1. apply Z.ltb_lt in E1. cbv zeta.
    split; [lia|]. split; [intros j Hj; lia|]. left. lia.
  - rewrite Z.gtb_ltb in E1. apply Z.ltb_ge in E1.
    destruct (at_ smoothed (i + 1) >? at_ smoothed i) eqn:E2.
    + apply Qgtb_gt in E2. cbv zeta. split; [lia|]. split; [intros j Hj; lia|].
      right. exact E2.
    + apply Qgtb_le in E2. cbv zeta.
      destruct (IH (i + 1)%Z ltac:(lia) ltac:(lia)) as (B & Mn & V). cbv zeta in *.
      split; [lia|]. split; [|exact V].
      intros j Hj. destruct (Z.eq_dec j (i + 1)) as [->|Hne].
      * replace (i + 1 - 1)%Z with i by lia. exact E2.
      * apply Mn. lia.
Qed.

(** X4. The two walks of the segmentation from a peak [from] to the nearest
    valley, down to [lo] and up to [hi]: each stays between the peak and its
    boundary, the smoothed signal does not rise along it, and it ends at the
    boundary or just before a rise. *)
Theorem findValley_valley (smoothed : list Q) (from lo hi : Z) :
  (lo <= from <= hi)%Z ->
  let l := findValley smoothed from (-1) lo in
  let r := findValley smoothed from 1 hi in
  (lo <= l <= from)%Z /\ (from <= r <= hi)%Z
  /\ (forall j, (l <= j < from)%Z -> at_ smoothed j <= at_ smoothed (j + 1))
  /\ (forall j, (from < j <= r)%Z -> at_ smoothed j <= at_ smoothed (j - 1))
  /\ (l = lo \/ at_ smoothed l < at_ smoothed (l - 1))
  /\ (r = hi \/ at_ smoothed r < at_ smoothed (r + 1)).
Proof.
  intros H. unfold findValley.
  destruct (findValley_loop_down_spec smoothed lo
              (S (Z.to_nat (Z.abs (from - lo)))) from ltac:(lia) ltac:(lia))
    as (B1 & M1 & V1).
  destruct (findValley_loop_up_spec smoothed hi
              (S (Z.to_nat (Z.abs (from - hi)))) from ltac:(lia) ltac:(lia))
    as (B2 & M2 & V2).
  cbv zeta in *. auto 10.
Qed.

Lemma findValley_valley_witness :
  (0 <= 8 <= 16)%Z
  /\ findValley (movingAverage oneSquat 5) 8 (-1) 0 = 0%Z
  /\ (0 <= findValley (movingAverage oneSquat 5) 8 (-1) 0 <= 8)%Z.
Proof.
  split; [lia|]. split; [vm_compute; reflexivity|].
  pose proof (findValley_valley (movingAverage oneSquat 5) 8 0 16 ltac:(lia)) as H.
  cbv zeta in H. exact (proj1 H).
Defined.

(** ** The whole clip as one rep *)

Lemma Zrange_snoc (k : nat) :
  Zrange 0 (Z.of_nat (S k) - 1) = Zrange 0 (Z.of_nat k - 1) ++ [Z.of_nat k].
Proof.
  unfold Zrange.
  replace (Z.to_nat (Z.of_nat (S k) - 1 - 0 + 1)) with (S k) by lia.
  replace (Z.to_nat (Z.of_nat k - 1 - 0 + 1)) with k by lia.
  rewrite seq_S, map_app. reflexivity.
Qed.

(** The scan of [analyzeSquat] for the deepest frame. *)
Lemma deepest_scan (hs : list Q) (k : nat) :
  (0 < k)%nat ->
  exists b,
    fold_left (fun '(bottomIdx, peakY) i =>
                 if match peakY with
                    | None => true
                    | Some p => at_ hs i >? p
                    end
                 then (i, Some (at_ hs i))
                 else (bottomIdx, peakY))
              (Zrange 0 (Z.of_nat k - 1)) (0%Z, None)
    = (b, Some (at_ hs b))
    /\ firstDeepest hs (Z.of_nat k) b.
Proof.
  induction k as [|k IH]; [lia|]. intros _.
  rewrite Zrange_snoc, fold_left_app.
  destruct k as [|k'].
  - exists 0%Z. split; [reflexivity|]. unfold firstDeepest.
    split; [lia|]. split; [|lia].
    intros j Hj. replace j with 0%Z by lia. apply Qle_refl.
  - destruct (IH ltac:(lia)) as (b & E & Hb & Hmax & Hfirst).
    rewrite E. cbn [fold_left]. set (k := S k') in *.
    destruct (at_ hs (Z.of_nat k) >? at_ hs b) eqn:C.
    + exists (Z.of_nat k). split; [reflexivity|]. apply Qgtb_gt in C.
      unfold firstDeepest. split; [lia|]. split.
      * intros j Hj. destruct (Z.eq_dec j (Z.of_nat k)) as [->|Hne];
          [apply Qle_refl|].
        specialize (Hmax j ltac:(lia)). lra.
      * intros j Hj. specialize (Hmax j ltac:(lia)). lra.
    + exists b. split; [reflexivity|]. apply Qgtb_le in C.
      unfold firstDeepest. split; [lia|]. split; [|exact Hfirst].
      intros j Hj. destruct (Z.eq_dec j (Z.of_nat k)) as [->|Hne];
        [exact C|]. apply Hmax. lia.
Qed.

Lemma wholeClipRep_still (frames : list PoseFrame) :
  wellFormed frames -> frames = [] \/ hipRange frames < 0.005 ->
  wholeClipRep frames = Throw (Error noRepsMessage).
Proof.
  intros Hw H. unfold wholeClipRep.
  rewrite (mapM_hipY_wf frames Hw). cbn [bind].
  destruct (_ =? 0)%Z eqn:E0; [reflexivity|]. cbv zeta.
  destruct H as [->|H]; [discriminate|].
  apply Qltb_lt in H. unfold hipRange in H. rewrite H. reflexivity.
Qed.

Lemma wholeClipRep_moving (frames : list PoseFrame) :
  wellFormed frames -> frames <> [] -> 0.005 <= hipRange frames ->
  exists reps, wholeClipRep frames = Ok reps.
Proof.
  intros Hw Hne Hr. unfold wholeClipRep.
  rewrite (mapM_hipY_wf frames Hw). cbn [bind]. rewrite hipHeights_length.
  assert (E0 : (Zlength' frames =? 0)%Z = false).
  { apply Z.eqb_neq. unfold Zlength'. destruct frames; [congruence|]. simpl. lia. }
  rewrite E0. cbv zeta.
  assert (Er : (maximum (hipHeights frames) - minimum (hipHeights frames) <? 0.005)
               = false) by (apply Qltb_ge; exact Hr).
  rewrite Er. destruct (fold_left _ _ _). eauto.
Qed.

Lemma wholeClipRep_inv (frames : list PoseFrame) (reps : list DetectedRep) :
  wholeClipRep frames = Ok reps ->
  exists hs b,
    mapM hipY frames = Ok hs
    /\ frames <> []
    /\ 0.005 <= maximum hs - minimum hs
    /\ reps = [ {| startFrame := 0; endFrame := Zlength' frames - 1;
                   bottomFrame := b |} ]
    /\ firstDeepest hs (Zlength' frames) b.
Proof.
  unfold wholeClipRep. intro H.
  destruct (mapM hipY frames) as [hs|] eqn:Eh; [|discriminate]. cbn [bind] in H.
  pose proof (mapM_length _ _ _ Eh) as Hl.
  destruct (Zlength' hs =? 0)%Z eqn:E0; [discriminate|]. apply Z.eqb_neq in E0.
  cbv zeta in H.
  destruct (_ <? 0.005) eqn:Er; [discriminate|]. apply Qltb_ge in Er.
  assert (Hn : (0 < List.length hs)%nat) by (unfold Zlength' in E0; lia).
  destruct (deepest_scan hs (List.length hs) Hn) as (b & E & Hb).
  unfold Zlength' in H at 1. rewrite E in H. inversion H as [Hreps]. clear H.
  exists hs, b. split; [reflexivity|]. split.
  { intros ->. simpl in Hl. lia. }
  split; [exact Er|]. split; [reflexivity|].
  unfold Zlength'. rewrite <- Hl. exact Hb.
Qed.

Lemma wholeClipRep_valid (frames : list PoseFrame) (reps : list DetectedRep) :
  wholeClipRep frames = Ok reps -> Forall (validRep frames) reps.
Proof.
  intro H. destruct (wholeClipRep_inv _ _ H) as (hs & b & _ & _ & _ & E & Hb & _).
  rewrite E. constructor; [|constructor]. unfold validRep. cbn [startFrame endFrame bottomFrame].
  lia.
Qed.

Lemma detectReps_valid (frames : list PoseFrame) (reps : list DetectedRep) :
  detectReps frames = Ok reps -> Forall (validRep frames) reps.
Proof.
  intro E.
  destruct (detectReps_inv _ _ E) as [->|(smoothed & bottoms & Hn & Hs & Hb & ->)];
    [constructor|].
  apply Forall_forall. intros r Hr. apply in_map_iff in Hr.
  destruct Hr as (i & <- & Hi). apply Zrange_In in Hi.
  pose proof (segment_spec smoothed (Zlength' frames) bottoms i Hn Hs Hb
                           ltac:(lia)) as S.
  cbv zeta in S. destruct S as (_ & S1 & S2 & _). unfold validRep. lia.
Qed.

(** The reps that [analyzeSquat] scores lie within the clip. *)
Lemma repsToAnalyze_valid (frames : list PoseFrame)
      (detectedReps repsToAnalyze : list DetectedRep) :
  detectReps frames = Ok detectedReps ->
  (if (Zlength' detectedReps >? 0)%Z then Ok detectedReps else wholeClipRep frames)
  = Ok repsToAnalyze ->
  Forall (validRep frames) repsToAnalyze /\ repsToAnalyze <> [].
Proof.
  intros Ed Er. destruct (Zlength' detectedReps >? 0)%Z eqn:C.
  - inversion Er; subst. split; [now apply detectReps_valid|].
    intros ->. discriminate.
  - split; [now apply wholeClipRep_valid|].
    destruct (wholeClipRep_inv _ _ Er) as (hs & b & _ & _ & _ & E & _).
    rewrite E. discriminate.
Qed.

Lemma allScoredAs_nth (dcs : loc) (h : heap) (reps : list DetectedRep) (idx : Z)
      (rs : list RepData.t) :
  allScoredAs dcs h reps idx rs ->
  List.length rs = List.length reps
  /\ forall i r, nth_error rs i = Some r ->
       exists rep, nth_error reps i = Some rep
                   /\ scoredAs dcs h rep (idx + Z.of_nat i) r.
Proof.
  revert idx rs. induction reps as [|rep reps IH]; intros idx [|r rs] H;
    simpl in H; try contradiction.
  - split; [reflexivity|]. intros [|i] r Hr; discriminate.
  - destruct H as [H1 H2]. destruct (IH _ _ H2) as [Hl Hn].
    split; [simpl; lia|]. intros [|i] r' Hr'.
    + inversion Hr'; subst. exists rep. split; [reflexivity|].
      now rewrite Z.add_0_r.
    + destruct (Hn i r' Hr') as (rep' & E & Hs). exists rep'. split; [exact E|].
      replace (idx + Z.of_nat (S i))%Z with (idx + 1 + Z.of_nat i)%Z by lia.
      exact Hs.
Qed.

(** ** Totality of the analysis *)

Lemma averageMetricScores_total (scores : list MetricScore.t) :
  exists m, averageMetricScores scores = Ok m.
Proof.
  unfold averageMetricScores.
  destruct (Zlength' scores =? 0)%Z eqn:E0; [eauto|]. apply Z.eqb_neq in E0.
  cbv zeta.
  assert (Hl : List.length (sortByScore scores) = List.length scores)
    by (apply Permutation_length, sortByScore_perm).
  assert (Hn : (0 < List.length scores)%nat) by (unfold Zlength' in E0; lia).
  unfold scoreAt.
  assert (E1 : (Zlength' (sortByScore scores) / 2 <? 0)%Z = false)
    by (apply Z.ltb_ge; unfold Zlength'; zlia).
  rewrite E1.
  destruct (nth_error (sortByScore scores) _) eqn:En.
  2:{ apply nth_error_None in En. unfold Zlength' in En. zlia. }
  cbn [bind]. change (0 <? 0)%Z with false. cbv iota.
  destruct (nth_error scores (Z.to_nat 0)) eqn:Ez.
  2:{ apply nth_error_None in Ez. lia. }
  cbn [bind]. eauto.
Qed.

Lemma scoreRep_total (M : MathLib) (frames : list PoseFrame) (angle : CameraAngle)
      (dcs : loc) (rep : DetectedRep) (idx : Z) (h : heap) :
  wellFormed frames -> validRep frames rep -> (dcs < List.length h)%nat ->
  exists r h', scoreRep M frames angle dcs rep idx h = Ok (r, h').
Proof.
  intros Hw Hr Hd. unfold scoreRep.
  repeat match goal with
         | |- context [bindH (new ?c) _ _] =>
             let m := fresh "m" in
             let E := fresh "E" in
             assert (E : exists m, c = Ok m)
               by (first [ apply scoreDepth_total | apply scoreKneeTracking_total
                         | apply scoreBackAngle_total | apply scoreBarPath_total
                         | apply scoreSymmetry_total | apply scoreButtWink_total
                         | apply scoreTempo_total | apply scoreHeelRise_total
                         | apply scoreStanceWidth_total | apply scoreHipShift_total
                         | apply scoreKneeValgus_total | apply scoreKneeTravel_total
                         | apply scoreThoracicRounding_total
                         | apply scoreHipRiseRate_total
                         | apply scoreReversalControl_total
                         | apply scoreStanceWidthShift_total
                         | apply scoreHeadPosition_total ]; assumption);
             destruct E as [m E]; unfold bindH at 1, new at 1; rewrite E; clear E
         end.
  unfold bindH at 1.
  match goal with
  | |- context [foldH ?body metricKeys tt ?hh] =>
      destruct (stamp_total angle
                  ltac:(match body with
                        | (fun key _ => match repField key ?rd with _ => _ end) =>
                            exact rd
                        end) hh) as [h' Es]
  end.
  { intros key Hkey. unfold metricKeys in Hkey. cbn [In] in Hkey.
    repeat (destruct Hkey as [<-|Hkey];
            [eexists; split;
             [reflexivity
             | cbn [RepData.depth RepData.kneeTracking RepData.backAngle
                    RepData.barPath RepData.symmetry RepData.buttWink RepData.tempo
                    RepData.heelRise RepData.stanceWidth RepData.hipShift
                    RepData.kneeValgus RepData.kneeTravel RepData.depthConsistency
                    RepData.thoracicRounding RepData.hipRiseRate
                    RepData.reversalControl RepData.stanceWidthShift
                    RepData.headPosition fst snd];
               rewrite ?length_app; cbn [List.length]; lia]|]).
    contradiction. }
  rewrite Es. unfold retH. eauto.
Qed.

Lemma mapiH_scoreRep_total (M : MathLib) (frames : list PoseFrame)
      (angle : CameraAngle) (dcs : loc) (reps : list DetectedRep) (idx : Z)
      (h : heap) :
  wellFormed frames -> Forall (validRep frames) reps ->
  validHeap h -> (dcs < List.length h)%nat ->
  exists rs h', mapiH (scoreRep M frames angle dcs) reps idx h = Ok (rs, h').
Proof.
  intros Hw Hr. revert idx h.
  induction Hr as [|rep reps Hrep _ IH]; intros idx h Hh Hd.
  - exists [], h. reflexivity.
  - cbn [mapiH]. unfold bindH at 1.
    destruct (scoreRep_total M frames angle dcs rep idx h Hw Hrep Hd)
      as (r & h1 & E1).
    rewrite E1.
    destruct (scoreRep_inv _ _ _ _ _ _ _ _ _ Hh Hd E1) as (Hv1 & Hl1 & _).
    destruct (IH (idx + 1)%Z h1 Hv1 ltac:(lia)) as (rs & h2 & E2).
    unfold bindH. rewrite E2. unfold retH. eauto.
Qed.

Lemma mapH_read_total (metric : RepData.t -> loc) (rs : list RepData.t) (h : heap) :
  (forall r, In r rs -> (metric r < List.length h)%nat) ->
  exists scores, mapH (fun r => read (metric r)) rs h = Ok (scores, h).
Proof.
  induction rs as [|r rs IH]; intro Hm.
  - exists []. reflexivity.
  - cbn [mapH]. unfold bindH at 1, read at 1.
    destruct (nth_error h (metric r)) as [m|] eqn:E.
    2:{ apply nth_error_None in E. specialize (Hm r (or_introl eq_refl)). lia. }
    destruct IH as [scores Es]; [intros r' Hr'; apply Hm; now right|].
    unfold bindH. rewrite Es. unfold retH. eauto.
Qed.

Lemma overallOf_total (metric : RepData.t -> loc) (rs : list RepData.t) (h : heap) :
  (forall r, In r rs -> (metric r < List.length h)%nat) ->
  exists l h', overallOf metric rs h = Ok (l, h').
Proof.
  intro Hm. unfold overallOf, bindH.
  destruct (mapH_read_total metric rs h Hm) as [scores E]. rewrite E.
  unfold new. destruct (averageMetricScores_total scores) as [m Em]. rewrite Em.
  eauto.
Qed.

(** The objects of scored reps are objects of the heap. *)
Lemma allScoredAs_field (dcs : loc) (h : heap) (reps : list DetectedRep) (idx : Z)
      (rs : list RepData.t) (key : string) (r : RepData.t) :
  allScoredAs dcs h reps idx rs -> In r rs -> In key metricKeys ->
  exists l, repField key r = Some l /\ (l < List.length h)%nat.
Proof.
  intros Ha Hr Hk. destruct (allScoredAs_In _ _ _ _ _ _ Ha Hr) as (rep & i & _ & Hs).
  destruct Hs as (_ & _ & _ & _ & _ & Hf). auto.
Qed.

(** The object of the metric [key] of a scored rep is an object of the heap. *)
Lemma rep_object (dcs : loc) (h : heap) (reps : list DetectedRep) (idx : Z)
      (rs : list RepData.t) (r : RepData.t) (key : string) (g : RepData.t -> loc) :
  allScoredAs dcs h reps idx rs -> In r rs -> In key metricKeys ->
  (forall r', repField key r' = Some (g r')) ->
  (g r < List.length h)%nat.
Proof.
  intros Ha Hr Hk Hg.
  destruct (allScoredAs_field _ _ _ _ _ key r Ha Hr Hk) as (l & El & Bl).
  rewrite Hg in El. inversion El; subst. exact Bl.
Qed.

Ltac in_keys := unfold metricKeys; cbn [In]; repeat (first [left; reflexivity | right]).

Ltac rep_object_of S Hr :=
  let rec go keys :=
    lazymatch keys with
    | ?k :: ?rest =>
        first [ solve [ eapply (rep_object _ _ _ _ _ _ k _ S Hr);
                        [in_keys | intro; reflexivity] ]
              | go rest ]
    end in
  let keys := eval unfold metricKeys in metricKeys in
  go keys.

Lemma analyzeSquat_total (M : MathLib) (frames : list PoseFrame)
      (et : option ExerciseType) (ca : option CameraAngle)
      (detectedReps repsToAnalyze : list DetectedRep) :
  wellFormed frames ->
  detectReps frames = Ok detectedReps ->
  (if (Zlength' detectedReps >? 0)%Z then Ok detectedReps else wholeClipRep frames)
  = Ok repsToAnalyze ->
  Forall (validRep frames) repsToAnalyze ->
  exists res h, analyzeSquat M frames et ca [] = Ok (res, h).
Proof.
  intros Hw Ed Er Hv. unfold analyzeSquat.
  unfold bindH at 1, lift at 1. rewrite Ed.
  unfold bindH at 1, lift at 1. rewrite Er.
  destruct (scoreDepthConsistency_total M frames repsToAnalyze Hw Hv) as [m0 E0].
  unfold bindH at 1, new at 1. rewrite E0. cbn [List.length app].
  assert (V0 : validHeap [m0])
    by (apply Forall_cons; [eapply scoreDepthConsistency_valid; eauto | constructor]).
  set (angle := match ca with Some a => a | None => uncertain end).
  destruct (mapiH_scoreRep_total M frames angle 0%nat repsToAnalyze 0 [m0] Hw Hv V0
                                 ltac:(simpl; lia)) as (rs & h1 & E1).
  unfold bindH at 1. rewrite E1.
  destruct (mapiH_scoreRep_inv M frames angle 0%nat repsToAnalyze 0 [m0] h1 rs V0
                                ltac:(simpl; lia) E1)
    as (V1 & L1 & S1).
  repeat match goal with
         | |- exists res h, bindH (overallOf ?g rs) _ ?hh = Ok (res, h) =>
             let l := fresh "l" in
             let hn := fresh "hn" in
             let Eo := fresh "Eo" in
             let V := fresh "V" in
             let Y := fresh "Y" in
             let Z := fresh "Z" in
             destruct (overallOf_total g rs hh) as (l & hn & Eo);
             [ intros r Hr;
               apply (Nat.lt_le_trans _ (List.length h1)); [rep_object_of S1 Hr | lia]
             | unfold bindH at 1; rewrite Eo;
               assert (V : validHeap hh) by assumption;
               destruct (overallOf_inv _ _ _ _ _ V Eo) as (Y & _ & Z) ]
         end.
  unfold retH. eauto.
Qed.

(** ** The outcome of the analysis *)

(** X5. On a clip of well-formed frames [analyzeSquat] never fails on an array
    read: it throws the no-reps error when the clip is empty or the hip
    height varies by less than 0.005 over the clip, and returns a result
    otherwise. *)
Theorem analyzeSquat_outcome (M : MathLib) (frames : list PoseFrame)
        (et : option ExerciseType) (ca : option CameraAngle) :
  wellFormed frames ->
  (frames = [] \/ hipRange frames < 0.005 ->
   analyzeSquat M frames et ca [] = Throw (Error noRepsMessage))
  /\ (frames <> [] -> 0.005 <= hipRange frames ->
      exists res h, analyzeSquat M frames et ca [] = Ok (res, h)).
Proof.
  intro Hw. split.
  - intro H. unfold analyzeSquat, bindH, lift.
    assert (Ed : detectReps frames = Ok []).
    { destruct H as [->|H]; [reflexivity|].
      apply detectReps_flat; [exact Hw|]. unfold hipRange in H.
      unfold minProminence. lra. }
    rewrite Ed. change (Zlength' (@nil DetectedRep) >? 0)%Z with false. cbv iota.
    rewrite (wholeClipRep_still frames Hw H). reflexivity.
  - intros Hne Hr. destruct (detectReps_total frames Hw) as [dr Ed].
    assert (T : exists ra, (if (Zlength' dr >? 0)%Z then Ok dr else wholeClipRep frames)
                           = Ok ra).
    { destruct (Zlength' dr >? 0)%Z; [eauto|]. now apply wholeClipRep_moving. }
    destruct T as [ra Er].
    destruct (repsToAnalyze_valid frames dr ra Ed Er) as [Hv _].
    exact (analyzeSquat_total M frames et ca dr ra Hw Ed Er Hv).
Qed.

Lemma analyzeSquat_outcome_witness :
  wellFormed (clip 0.1 oneSquat)
  /\ exists res h,
       analyzeSquat hostMath (clip 0.1 oneSquat) (Some squat) None [] = Ok (res, h).
Proof.
  assert (Hw : wellFormed (clip 0.1 oneSquat))
    by (apply wellFormedb_true; vm_compute; reflexivity).
  split; [exact Hw|].
  apply (proj2 (analyzeSquat_outcome hostMath (clip 0.1 oneSquat) (Some squat) None Hw)).
  - discriminate.
  - apply Qle_bool_iff. vm_compute. reflexivity.
Defined.

(** X6. The reps of a result are numbered from 1 in order, each lies within
    the clip with its bottom between its start and its end, and [repCount]
    is their number, which is at least 1. *)
Theorem analyzeSquat_reps (M : MathLib) (frames : list PoseFrame)
        (et : option ExerciseType) (ca : option CameraAngle)
        (res : SquatAnalysisResult) (h : heap) :
  analyzeSquat M frames et ca [] = Ok (res, h) ->
  (1 <= repCount res)%Z
  /\ repCount res = Zlength' (reps res)
  /\ forall i r, nth_error (reps res) i = Some r ->
       RepData.repNumber r = (Z.of_nat i + 1)%Z
       /\ (0 <= RepData.startFrame r <= RepData.bottomFrame r)%Z
       /\ (RepData.bottomFrame r <= RepData.endFrame r < Zlength' frames)%Z.
Proof.
  intro H.
  destruct (analyzeSquat_inv _ _ _ _ _ _ H)
    as (dr & ra & Ed & Er & _ & _ & _ & Hs & _ & Hc & _).
  destruct (repsToAnalyze_valid frames dr ra Ed Er) as [Hv Hne].
  destruct (allScoredAs_nth _ _ _ _ _ Hs) as [Hl Hn].
  split.
  { rewrite Hc. unfold Zlength'. rewrite Hl. destruct ra; [congruence|]. simpl. lia. }
  split; [exact Hc|].
  intros i r Hr. destruct (Hn i r Hr) as (rep & Erep & S1 & S2 & S3 & S4 & _).
  rewrite Forall_forall in Hv.
  destruct (Hv rep (nth_error_In _ _ Erep)) as [V1 V2].
  rewrite S1, S2, S3, S4. lia.
Qed.

Lemma analyzeSquat_reps_witness :
  exists res h,
    analyzeSquat hostMath threeSquats (Some squat) (Some left_side) [] = Ok (res, h)
    /\ repCount res = 3%Z
    /\ (1 <= repCount res)%Z.
Proof.
  assert (E : analyzeSquat hostMath threeSquats (Some squat) (Some left_side) []
              = threeSquatsRun) by (vm_compute; reflexivity).
  unfold threeSquatsRun in E.
  match type of E with
  | _ = Ok (?res, ?h) => exists res, h
  end.
  split; [exact E|]. split; [reflexivity|].
  exact (proj1 (analyzeSquat_reps _ _ _ _ _ _ E)).
Defined.

(** X7. The fallback of [analyzeSquat]: when peak detection finds no rep in
    a non-empty clip whose hip height varies by at least 0.005, the result
    has exactly one rep, numbered 1, that spans the whole clip and has its
    bottom at the deepest frame (the largest hip height), the first such
    frame on a tie. *)
Theorem analyzeSquat_whole_clip (M : MathLib) (frames : list PoseFrame)
        (et : option ExerciseType) (ca : option CameraAngle) :
  wellFormed frames -> detectReps frames = Ok [] ->
  frames <> [] -> 0.005 <= hipRange frames ->
  exists res h r,
    analyzeSquat M frames et ca [] = Ok (res, h)
    /\ reps res = [r] /\ repCount res = 1%Z
    /\ RepData.repNumber r = 1%Z
    /\ RepData.startFrame r = 0%Z
    /\ RepData.endFrame r = (Zlength' frames - 1)%Z
    /\ firstDeepest (hipHeights frames) (Zlength' frames) (RepData.bottomFrame r).
Proof.
  intros Hw Ed Hne Hr.
  destruct (wholeClipRep_moving frames Hw Hne Hr) as [ra Er].
  assert (Hv : Forall (validRep frames) ra) by now apply wholeClipRep_valid.
  destruct (analyzeSquat_total M frames et ca [] ra Hw Ed Er Hv) as (res & h & E).
  destruct (analyzeSquat_inv _ _ _ _ _ _ E)
    as (dr & ra' & Ed' & Er' & _ & _ & _ & Hs & _ & Hc & _).
  assert (dr = []) by congruence. subst dr.
  change (Zlength' (@nil DetectedRep) >? 0)%Z with false in Er'. cbv iota in Er'.
  assert (ra' = ra) by congruence. subst ra'.
  destruct (wholeClipRep_inv _ _ Er) as (hs & b & Eh & _ & _ & Era & Hb).
  rewrite (mapM_hipY_wf frames Hw) in Eh. inversion Eh; subst hs; clear Eh.
  subst ra.
  destruct (reps res) as [|r [|r' rs]] eqn:Ereps; simpl in Hs; try tauto.
  destruct Hs as [(S1 & S2 & S3 & S4 & _) _].
  cbn [startFrame endFrame bottomFrame] in S2, S3, S4.
  exists res, h, r. split; [exact E|]. split; [exact Ereps|].
  split; [rewrite Hc; reflexivity|].
  rewrite S1, S2, S3, S4. repeat split; try reflexivity; apply Hb.
Qed.

Lemma analyzeSquat_whole_clip_witness :
  wellFormed threeFrames
  /\ exists res h r,
       analyzeSquat hostMath threeFrames None None [] = Ok (res, h)
       /\ reps res = [r] /\ repCount res = 1%Z
       /\ RepData.repNumber r = 1%Z
       /\ RepData.startFrame r = 0%Z
       /\ RepData.endFrame r = (Zlength' threeFrames - 1)%Z
       /\ firstDeepest (hipHeights threeFrames) (Zlength' threeFrames)
                       (RepData.bottomFrame r).
Proof.
  assert (Hw : wellFormed threeFrames)
    by (apply wellFormedb_true; vm_compute; reflexivity).
  split; [exact Hw|].
  apply (analyzeSquat_whole_clip hostMath threeFrames None None Hw).
  - reflexivity.
  - discriminate.
  - apply Qle_bool_iff. vm_compute. reflexivity.
Defined.

(** ** Confidence stamping *)

Lemma nth_error_update (h : heap) (l l' : loc) (f : MetricScore.t -> MetricScore.t) :
  nth_error (update h l f) l'
  = if Nat.eqb l l' then option_map f (nth_error h l') else nth_error h l'.
Proof.
  revert l l'. induction h as [|m rest IH]; intros l l'.
  - destruct l, l'; simpl; try reflexivity; destruct (Nat.eqb _ _); reflexivity.
  - destruct l, l'; simpl; try reflexivity. apply IH.
Qed.

Lemma stamps_false (keys : list string) (repData : RepData.t) (l : loc) (key : string) :
  stamps keys repData l = false -> In key keys -> repField key repData <> Some l.
Proof.
  unfold stamps. intros H Hin E.
  assert (T : existsb (fun key => match repField key repData with
                                  | Some l' => Nat.eqb l' l
                                  | None => false
                                  end) keys = true).
  { apply existsb_exists. exists key. split; [exact Hin|].
    rewrite E. apply Nat.eqb_refl. }
  congruence.
Qed.

(** The stamping loop of [analyzeSquat] over [keys]: an object no key names
    is left as it is; an object some key names gets the confidence of its
    key (when all keys that name it agree on it). *)
Lemma stamp_spec (angle : CameraAngle) (repData : RepData.t) (keys : list string)
      (h h' : heap) :
  foldH (fun key (_ : unit) =>
           match repField key repData with
           | Some l => setConfidence l (getMetricConfidence key angle)
           | None => lift (Throw TypeError)
           end) keys tt h = Ok (tt, h') ->
  forall l,
    (stamps keys repData l = false -> nth_error h' l = nth_error h l)
    /\ (forall c,
          stamps keys repData l = true ->
          (forall key, In key keys -> repField key repData = Some l ->
                       getMetricConfidence key angle = c) ->
          confidenceAt h' l c).
Proof.
  revert h. induction keys as [|key keys IH]; intros h H l.
  - simpl in H. unfold retH in H. inversion H; subst. split; [reflexivity|].
    intros c Hs. discriminate.
  - cbn [foldH] in H. apply bindH_Ok in H. destruct H as ([] & h1 & H1 & H2).
    destruct (repField key repData) as [l0|] eqn:El0; [|discriminate].
    unfold setConfidence in H1.
    destruct (nth_error h l0) as [m0|] eqn:En0; [|discriminate].
    inversion H1; subst h1; clear H1.
    destruct (IH _ H2 l) as [IH1 IH2]. clear IH.
    unfold stamps. cbn [existsb]. rewrite El0. fold (stamps keys repData l).
    split.
    + intro Hs. apply orb_false_iff in Hs. destruct Hs as [Hne Hs].
      rewrite (IH1 Hs), nth_error_update, Hne. reflexivity.
    + intros c Hs Hc. destruct (stamps keys repData l) eqn:Hrest.
      * apply IH2; [reflexivity|]. intros k Hk. apply Hc. now right.
      * rewrite orb_false_r in Hs. apply Nat.eqb_eq in Hs. subst l0.
        unfold confidenceAt. rewrite (IH1 eq_refl), nth_error_update, Nat.eqb_refl, En0.
        cbn [option_map]. eexists. split; [reflexivity|].
        cbn [MetricScore.confidence]. apply Hc; [now left | exact El0].
Qed.

Lemma confidenceAt_app (h x : heap) (l : loc) (c : MetricConfidence) :
  confidenceAt h l c -> confidenceAt (h ++ x) l c.
Proof.
  intros (m & E & C). exists m. split; [|exact C].
  rewrite nth_error_app1; [exact E|]. apply nth_error_Some. congruence.
Qed.

Ltac each_key H :=
  unfold metricKeys in H; cbn [In] in H;
  repeat (destruct H as [<-|H]); [..|contradiction].

Ltac rep_fields :=
  cbn [RepData.depth RepData.kneeTracking RepData.backAngle
       RepData.barPath RepData.symmetry RepData.buttWink RepData.tempo
       RepData.heelRise RepData.stanceWidth RepData.hipShift
       RepData.kneeValgus RepData.kneeTravel RepData.depthConsistency
       RepData.thoracicRounding RepData.hipRiseRate
       RepData.reversalControl RepData.stanceWidthShift
       RepData.headPosition fst snd] in *.

Lemma scoreRep_stamped (M : MathLib) (frames : list PoseFrame) (angle : CameraAngle)
      (dcs : loc) (rep : DetectedRep) (idx : Z) (h h' : heap) (r : RepData.t) :
  (dcs < List.length h)%nat ->
  scoreRep M frames angle dcs rep idx h = Ok (r, h') ->
  stamped angle dcs h' r
  /\ (forall l, (l < List.length h)%nat -> l <> dcs -> nth_error h' l = nth_error h l)
  /\ confidenceAt h' dcs (getMetricConfidence "depthConsistency" angle).
Proof.
  intros Hd H. unfold scoreRep in H.
  repeat match type of H with
         | bindH (new ?c) _ _ = Ok _ =>
             apply bindH_new in H;
             let m := fresh "m" in
             let E := fresh "E" in
             destruct H as (m & E & H); clear E
         end.
  apply bindH_Ok in H. destruct H as ([] & h1 & Hs & Hr).
  unfold retH in Hr. inversion Hr; subst r h1; clear Hr.
  pose proof (stamp_spec _ _ _ _ _ Hs) as Sp. clear Hs.
  match type of Sp with
  | forall l, (stamps _ ?rd l = false -> nth_error _ l = nth_error ?hm l) /\ _ =>
      set (repData := rd) in *; set (hmid := hm) in *
  end.
  assert (Agree : forall key key' l,
             In key metricKeys -> In key' metricKeys ->
             repField key repData = Some l -> repField key' repData = Some l ->
             key' = key).
  { intros key key' l Hk Hk' E E'. rewrite <- E' in E. clear E'.
    each_key Hk; each_key Hk'; try reflexivity; exfalso;
      cbv [repField fields find String.eqb Ascii.eqb Bool.eqb fst snd repData] in E;
      rep_fields; injection E as E; rewrite ?length_app in E; cbn [List.length] in E;
      lia. }
  assert (Stamps : forall key l, In key metricKeys -> repField key repData = Some l ->
                                 stamps metricKeys repData l = true).
  { intros key l Hk E. apply existsb_exists. exists key. split; [exact Hk|].
    rewrite E. apply Nat.eqb_refl. }
  split; [|split].
  - intros key Hk.
    destruct (repField key repData) as [l|] eqn:El.
    2:{ exfalso. each_key Hk; discriminate. }
    exists l. split; [reflexivity|]. split.
    + apply (proj2 (Sp l)); [eapply Stamps; eauto|].
      intros key' Hk' E'. now rewrite (Agree key key' l Hk Hk' El E').
    + intros ->. apply (Agree "depthConsistency"%string key dcs);
        [in_keys | exact Hk | reflexivity | exact El].
  - intros l Hl Hne. rewrite (proj1 (Sp l)).
    + subst hmid. rewrite !nth_error_app1; [reflexivity|..];
        rewrite ?length_app; cbn [List.length]; lia.
    + apply not_true_is_false. intro T. apply existsb_exists in T.
      destruct T as (key & Hk & T).
      each_key Hk;
        cbv [repField fields find String.eqb Ascii.eqb Bool.eqb fst snd repData] in T;
        rep_fields; apply Nat.eqb_eq in T; rewrite ?length_app in T;
        cbn [List.length] in T; lia.
  - apply (proj2 (Sp dcs)); [apply (Stamps "depthConsistency"%string); [in_keys|reflexivity]|].
    intros key' Hk' E'.
    now rewrite (Agree "depthConsistency"%string key' dcs ltac:(in_keys) Hk' eq_refl E').
Qed.

Lemma stamped_frame (angle : CameraAngle) (dcs : loc) (h h' : heap) (r : RepData.t) :
  stamped angle dcs h r ->
  (forall l, (l < List.length h)%nat -> l <> dcs -> nth_error h' l = nth_error h l) ->
  confidenceAt h' dcs (getMetricConfidence "depthConsistency" angle) ->
  stamped angle dcs h' r.
Proof.
  intros S F C key Hk. destruct (S key Hk) as (l & E & (m & Em & Cm) & D).
  exists l. split; [exact E|]. split; [|exact D].
  destruct (Nat.eq_dec l dcs) as [->|Hne].
  - rewrite (D eq_refl). exact C.
  - exists m. split; [|exact Cm]. rewrite F; [exact Em| |exact Hne].
    apply nth_error_Some. congruence.
Qed.

Lemma confidenceAt_length (h : heap) (l : loc) (c : MetricConfidence) :
  confidenceAt h l c -> (l < List.length h)%nat.
Proof. intros (m & E & _). apply nth_error_Some. congruence. Qed.

Lemma mapiH_stamped (M : MathLib) (frames : list PoseFrame) (angle : CameraAngle)
      (dcs : loc) (reps : list DetectedRep) (idx : Z) (h h' : heap)
      (rs : list RepData.t) :
  (dcs < List.length h)%nat ->
  mapiH (scoreRep M frames angle dcs) reps idx h = Ok (rs, h') ->
  Forall (stamped angle dcs h') rs
  /\ (forall l, (l < List.length h)%nat -> l <> dcs -> nth_error h' l = nth_error h l)
  /\ (reps = [] -> h' = h)
  /\ (reps <> [] -> confidenceAt h' dcs (getMetricConfidence "depthConsistency" angle)).
Proof.
  revert idx h rs. induction reps as [|rep reps IH]; intros idx h rs Hd H.
  - simpl in H. unfold retH in H. inversion H; subst.
    split; [constructor|]. split; [reflexivity|]. split; [reflexivity|congruence].
  - cbn [mapiH] in H.
    apply bindH_Ok in H. destruct H as (r & h1 & H1 & H).
    apply bindH_Ok in H. destruct H as (rs' & h2 & H2 & H).
    unfold retH in H. inversion H; subst rs h2; clear H.
    destruct (scoreRep_stamped _ _ _ _ _ _ _ _ _ Hd H1) as (S1 & F1 & C1).
    pose proof (confidenceAt_length _ _ _ C1) as Hd1.
    destruct (IH _ _ _ Hd1 H2) as (S2 & F2 & N2 & C2).
    assert (C' : confidenceAt h' dcs (getMetricConfidence "depthConsistency" angle)).
    { destruct reps as [|rep' reps']; [rewrite N2 by reflexivity; exact C1|].
      apply C2. discriminate. }
    assert (F : forall l, (l < List.length h)%nat -> l <> dcs ->
                          nth_error h' l = nth_error h l).
    { intros l Hl Hne. rewrite F2, F1; auto.
      apply nth_error_Some. rewrite F1 by assumption. now apply nth_error_Some. }
    split; [|split; [exact F | split; [discriminate | intros _; exact C']]].
    constructor; [|exact S2].
    destruct reps as [|rep' reps']; [rewrite N2 by reflexivity; exact S1|].
    apply (stamped_frame angle dcs h1); [exact S1 | exact F2 | exact C'].
Qed.

Lemma averageMetricScores_confidence (m0 : MetricScore.t) (scores : list MetricScore.t)
      (m : MetricScore.t) :
  averageMetricScores (m0 :: scores) = Ok m ->
  MetricScore.confidence m = MetricScore.confidence m0.
Proof.
  unfold averageMetricScores. intro H.
  destruct (Zlength' (m0 :: scores) =? 0)%Z eqn:E0.
  { apply Z.eqb_eq in E0. unfold Zlength' in E0. simpl in E0. lia. }
  cbv zeta in H. destruct (scoreAt (sortByScore _) _); cbn [bind] in H; [|discriminate].
  change (scoreAt (m0 :: scores) 0) with (Ok m0) in H. cbn [bind] in H.
  inversion H. reflexivity.
Qed.

Lemma overallOf_confidence (metric : RepData.t -> loc) (rs : list RepData.t)
      (h h' : heap) (l : loc) :
  overallOf metric rs h = Ok (l, h') ->
  (forall l0 c0, confidenceAt h l0 c0 -> confidenceAt h' l0 c0)
  /\ (forall r0 rest c, rs = r0 :: rest -> confidenceAt h (metric r0) c ->
                        confidenceAt h' l c).
Proof.
  intro H. unfold overallOf in H.
  apply bindH_Ok in H. destruct H as (scores & h1 & H1 & H).
  apply mapH_read_inv in H1. destruct H1 as [-> F].
  unfold new in H. destruct (averageMetricScores scores) as [m|] eqn:E; [|discriminate].
  inversion H; subst l h'; clear H.
  split; [intros l0 c0; apply confidenceAt_app|].
  intros r0 rest c -> (m0 & Em0 & C0).
  inversion F as [|? m0' ? scores' Hr0 F' Ea Eb]; subst.
  assert (m0' = m0) by congruence. subst m0'.
  exists m. split.
  - rewrite nth_error_app2 by lia. now rewrite Nat.sub_diag.
  - now rewrite (averageMetricScores_confidence _ _ _ E).
Qed.

Lemma stamped_mono (angle : CameraAngle) (dcs : loc) (h h' : heap) (r : RepData.t) :
  (forall l c, confidenceAt h l c -> confidenceAt h' l c) ->
  stamped angle dcs h r -> stamped angle dcs h' r.
Proof.
  intros P S key Hk. destruct (S key Hk) as (l & E & C & D).
  exists l. split; [exact E|]. split; [apply P; exact C | exact D].
Qed.

Lemma Forall_stamped_mono (angle : CameraAngle) (dcs : loc) (h h' : heap)
      (rs : list RepData.t) :
  (forall l c, confidenceAt h l c -> confidenceAt h' l c) ->
  Forall (stamped angle dcs h) rs -> Forall (stamped angle dcs h') rs.
Proof.
  intros P F. eapply Forall_impl; [|exact F]. intros r. now apply stamped_mono.
Qed.

(** The key of the metric accessor [g], passed to [tac]. *)
Ltac with_key_of g tac :=
  let rec go keys :=
    lazymatch keys with
    | ?k :: ?rest =>
        first [ let Hk := fresh "Hk" in
                assert (Hk : forall r', repField k r' = Some (g r'))
                  by (intro; reflexivity);
                tac k Hk
              | go rest ]
    end in
  let keys := eval unfold metricKeys in metricKeys in
  go keys.

(** What a successful analysis leaves in the confidence fields. *)
Lemma analyzeSquat_stamped (M : MathLib) (frames : list PoseFrame)
      (et : option ExerciseType) (ca : option CameraAngle)
      (res : SquatAnalysisResult) (h : heap) :
  analyzeSquat M frames et ca [] = Ok (res, h) ->
  let angle := match ca with Some a => a | None => uncertain end in
  Forall (stamped angle 0%nat h) (reps res)
  /\ forall key, In key metricKeys ->
       exists l, overallField key (overall res) = Some l
                 /\ confidenceAt h l (getMetricConfidence key angle).
Proof.
  intros H angle. unfold analyzeSquat in H. fold angle in H.
  apply bindH_Ok in H. destruct H as (detectedReps & h0 & H0 & H).
  unfold lift in H0. destruct (detectReps frames) as [dr|] eqn:Ed; [|discriminate].
  inversion H0; subst detectedReps h0; clear H0.
  apply bindH_Ok in H. destruct H as (repsToAnalyze & h0 & H0 & H).
  unfold lift in H0.
  destruct (if (Zlength' dr >? 0)%Z then Ok dr else wholeClipRep frames)
    as [ra|] eqn:Er; [|discriminate].
  inversion H0; subst repsToAnalyze h0; clear H0.
  destruct (repsToAnalyze_valid frames dr ra Ed Er) as [_ Hne].
  apply bindH_new in H. destruct H as (m0 & E0 & H). cbn [List.length app] in H.
  apply bindH_Ok in H. destruct H as (rs & h1 & H1 & H).
  destruct (mapiH_stamped M frames angle 0%nat ra 0 [m0] h1 rs ltac:(simpl; lia) H1)
    as (St & _ & _ & Cd).
  specialize (Cd Hne).
  assert (Hrs : exists r0 rs', rs = r0 :: rs').
  { destruct ra as [|rep ra']; [congruence|]. cbn [mapiH] in H1.
    apply bindH_Ok in H1. destruct H1 as (r & h2 & _ & H1).
    apply bindH_Ok in H1. destruct H1 as (rs' & h3 & _ & H1).
    unfold retH in H1. inversion H1. eauto. }
  destruct Hrs as (r0 & rs' & ->). clear H1.
  repeat match type of H with
         | bindH (overallOf ?g _) _ ?hh = Ok _ =>
             apply bindH_Ok in H;
             let l := fresh "l" in
             let hn := fresh "hn" in
             let Ho := fresh "Ho" in
             let P := fresh "P" in
             let Q := fresh "Q" in
             destruct H as (l & hn & Ho & H);
             destruct (overallOf_confidence _ _ _ _ _ Ho) as [P Q];
             with_key_of g ltac:(fun k Hk =>
               let l' := fresh "l'" in
               let El' := fresh "El'" in
               let Cl' := fresh "Cl'" in
               destruct (Forall_inv St k ltac:(in_keys)) as (l' & El' & Cl' & _);
               rewrite Hk in El'; injection El' as El'; subst l';
               apply (Q r0 rs' _ eq_refl) in Cl'; clear Hk);
             apply (Forall_stamped_mono _ _ _ _ _ P) in St;
             repeat match goal with
                    | C : confidenceAt hh _ _ |- _ => apply P in C
                    end;
             clear P Q Ho
         end.
  unfold retH in H. inversion H; subst res h; clear H.
  split; [exact St|].
  intros key Hk. cbn [overall].
  each_key Hk;
    (eexists; split; [reflexivity|];
     cbn [Overall.depth Overall.kneeTracking Overall.backAngle
          Overall.barPath Overall.symmetry Overall.buttWink Overall.tempo
          Overall.heelRise Overall.stanceWidth Overall.hipShift
          Overall.kneeValgus Overall.kneeTravel Overall.depthConsistency
          Overall.thoracicRounding Overall.hipRiseRate
          Overall.reversalControl Overall.stanceWidthShift
          Overall.headPosition fst snd];
     assumption).
Qed.

(** X8. Every metric object of a result, each metric of every rep and each
    overall metric, carries the confidence that the confidence matrix gives
    its key for the camera angle of the clip ([uncertain] when none was
    passed): the overall metrics take it over from the first rep, and the
    shared depth-consistency object is stamped with the same value by every
    rep. *)
Theorem analyzeSquat_confidence (M : MathLib) (frames : list PoseFrame)
        (et : option ExerciseType) (ca : option CameraAngle)
        (res : SquatAnalysisResult) (h : heap) :
  analyzeSquat M frames et ca [] = Ok (res, h) ->
  forall key, In key metricKeys ->
    let c := getMetricConfidence key
               (match ca with Some a => a | None => uncertain end) in
    (exists l, overallField key (overall res) = Some l /\ confidenceAt h l c)
    /\ forall r, In r (reps res) ->
         exists l, repField key r = Some l /\ confidenceAt h l c.
Proof.
  intros H key Hk c. destruct (analyzeSquat_stamped _ _ _ _ _ _ H) as [St Ov].
  cbv zeta in St, Ov. split; [exact (Ov key Hk)|].
  intros r Hr. rewrite Forall_forall in St.
  destruct (St r Hr key Hk) as (l & El & Cl & _). eauto.
Qed.

Lemma analyzeSquat_confidence_witness :
  exists res h,
    analyzeSquat hostMath threeSquats (Some squat) (Some left_side) [] = Ok (res, h)
    /\ exists l, overallField "kneeTracking" (overall res) = Some l
                 /\ confidenceAt h l low.
Proof.
  assert (E : analyzeSquat hostMath threeSquats (Some squat) (Some left_side) []
              = threeSquatsRun) by (vm_compute; reflexivity).
  unfold threeSquatsRun in E.
  match type of E with
  | _ = Ok (?res, ?h) => exists res, h
  end.
  split; [exact E|].
  exact (proj1 (analyzeSquat_confidence _ _ _ _ _ _ E "kneeTracking"%string
                  ltac:(in_keys))).
Defined.

(** ** Issue frames lie within the rep *)

Lemma foldM_inv {A S : Type} (P : S -> Prop) (body : A -> S -> result S)
      (xs : list A) (acc r : S) :
  foldM body xs acc = Ok r -> P acc ->
  (forall x a a', In x xs -> P a -> body x a = Ok a' -> P a') ->
  P r.
Proof.
  revert acc. induction xs as [|x xs IH]; intros acc H Ha Hb.
  - inversion H; subst. exact Ha.
  - cbn [foldM] in H. destruct (body x acc) as [a'|] eqn:E; cbn [bind] in H;
      [|discriminate].
    apply (IH a' H).
    + apply (Hb x acc a'); [now left | exact Ha | exact E].
    + intros y a a'' Hy. apply Hb. now right.
Qed.

Lemma Forall_snoc {A : Type} (P : A -> Prop) (l : list A) (a : A) :
  Forall P l -> P a -> Forall P (l ++ [a]).
Proof. intros Hl Ha. apply Forall_app. split; [exact Hl | now constructor]. Qed.

Lemma Forall_Zrange (P : Z -> Prop) (lo hi : Z) :
  (forall i, (lo <= i <= hi)%Z -> P i) -> Forall P (Zrange lo hi).
Proof. intro H. apply Forall_forall. intros i Hi. apply H. now apply Zrange_In. Qed.

(** The issue frames collected by a loop over frames of the rep. *)
Ltac issue_loop rep H :=
  match type of H with
  | context [foldM ?body ?xs ?acc] =>
      let Eloop := fresh "Eloop" in
      let Hiss := fresh "Hiss" in
      let q := fresh "q" in
      let iss := fresh "iss" in
      destruct (foldM body xs acc) as [[q iss]|] eqn:Eloop;
      [ assert (Hiss : Forall (inRep rep) iss);
        [ apply (foldM_inv (fun s => Forall (inRep rep) (snd s)) _ _ _ _ Eloop);
          [ constructor
          | let i := fresh "i" in
            let Hi := fresh "Hi" in
            let Hp := fresh "Hp" in
            let Hb := fresh "Hb" in
            intros i [? ?] [? ?] Hi Hp Hb; cbn [snd] in *;
            returned Hb;
            repeat first [ assumption
                         | apply Forall_snoc; [assumption|] ] ]
        | clear Eloop ]
      | cbn [bind] in H; try discriminate H ]
  end.

(** A frame visited by a loop over the rep lies within it. *)
Ltac visited H1 H2 :=
  match goal with
  | Hin : In ?i (Zrange _ _) |- inRep _ ?i =>
      apply Zrange_In in Hin; unfold inRep; lia
  | Hin : In ?i (Zsteps _ _ _) |- inRep _ ?i =>
      apply Zsteps_In in Hin; [unfold inRep; lia | lia]
  end.

(** The result of a scorer whose issue frames are known to lie in the rep. *)
Ltac issues_done H :=
  returned H; cbn [MetricScore.issueFrames];
  repeat first [ assumption | apply Forall_nil | apply Forall_cons
               | apply Forall_snoc; [assumption|] ].

Lemma scoreDepth_issues (M : MathLib) (frames : list PoseFrame) (rep : DetectedRep)
      (m : MetricScore.t) :
  scoreDepth M frames rep = Ok m -> validRep frames rep ->
  Forall (inRep rep) (MetricScore.issueFrames m).
Proof.
  unfold scoreDepth. intros H (H1 & H2). issues_done H; unfold inRep; lia.
Qed.

Lemma scoreKneeTracking_issues (frames : list PoseFrame) (rep : DetectedRep)
      (m : MetricScore.t) :
  scoreKneeTracking frames rep = Ok m -> validRep frames rep ->
  Forall (inRep rep) (MetricScore.issueFrames m).
Proof.
  unfold scoreKneeTracking. intros H (H1 & H2).
  issue_loop rep H; try visited H1 H2. issues_done H.
Qed.

Lemma scoreBackAngle_issues (M : MathLib) (frames : list PoseFrame) (rep : DetectedRep)
      (m : MetricScore.t) :
  scoreBackAngle M frames rep = Ok m -> validRep frames rep ->
  Forall (inRep rep) (MetricScore.issueFrames m).
Proof.
  unfold scoreBackAngle. intros H (H1 & H2).
  issue_loop rep H; try visited H1 H2. issues_done H.
Qed.

Lemma scoreSymmetry_issues (M : MathLib) (frames : list PoseFrame) (rep : DetectedRep)
      (m : MetricScore.t) :
  scoreSymmetry M frames rep = Ok m -> validRep frames rep ->
  Forall (inRep rep) (MetricScore.issueFrames m).
Proof.
  unfold scoreSymmetry. intros H (H1 & H2). issues_done H; unfold inRep; lia.
Qed.

Lemma scoreHeelRise_issues (frames : list PoseFrame) (rep : DetectedRep)
      (m : MetricScore.t) :
  scoreHeelRise frames rep = Ok m -> validRep frames rep ->
  Forall (inRep rep) (MetricScore.issueFrames m).
Proof.
  unfold scoreHeelRise. intros H (H1 & H2).
  destruct (frameAt frames (startFrame rep)); cbn [bind] in H; [|discriminate].
  destruct (lm _ LEFT_HEEL); cbn [bind] in H; [|discriminate].
  destruct (lm _ RIGHT_HEEL); cbn [bind] in H; [|discriminate].
  cbv zeta in H.
  issue_loop rep H; try visited H1 H2. issues_done H.
Qed.

Lemma scoreStanceWidth_issues (frames : list PoseFrame) (rep : DetectedRep)
      (m : MetricScore.t) :
  scoreStanceWidth frames rep = Ok m -> validRep frames rep ->
  Forall (inRep rep) (MetricScore.issueFrames m).
Proof.
  unfold scoreStanceWidth. intros H (H1 & H2). issues_done H; unfold inRep; lia.
Qed.

Lemma scoreKneeValgus_issues (M : MathLib) (frames : list PoseFrame) (rep : DetectedRep)
      (m : MetricScore.t) :
  scoreKneeValgus M frames rep = Ok m -> validRep frames rep ->
  Forall (inRep rep) (MetricScore.issueFrames m).
Proof.
  unfold scoreKneeValgus. intros H (H1 & H2).
  issue_loop rep H; try visited H1 H2. issues_done H.
Qed.

Lemma scoreKneeTravel_issues (frames : list PoseFrame) (rep : DetectedRep)
      (m : MetricScore.t) :
  scoreKneeTravel frames rep = Ok m -> validRep frames rep ->
  Forall (inRep rep) (MetricScore.issueFrames m).
Proof.
  unfold scoreKneeTravel. intros H (H1 & H2). issues_done H; unfold inRep; lia.
Qed.

Lemma scoreThoracicRounding_issues (M : MathLib) (frames : list PoseFrame)
      (rep : DetectedRep) (m : MetricScore.t) :
  scoreThoracicRounding M frames rep = Ok m -> validRep frames rep ->
  Forall (inRep rep) (MetricScore.issueFrames m).
Proof.
  unfold scoreThoracicRounding. intros H (H1 & H2).
  issue_loop rep H; try visited H1 H2. issues_done H.
Qed.

Lemma scoreHeadPosition_issues (M : MathLib) (frames : list PoseFrame)
      (rep : DetectedRep) (m : MetricScore.t) :
  scoreHeadPosition M frames rep = Ok m -> validRep frames rep ->
  Forall (inRep rep) (MetricScore.issueFrames m).
Proof.
  unfold scoreHeadPosition. intros H (H1 & H2).
  issue_loop rep H; try visited H1 H2. issues_done H.
Qed.

Lemma foldM_snoc_length {A : Type} (body : Z -> list A -> result (list A))
      (xs : list Z) (acc r : list A) :
  (forall x a a', body x a = Ok a' -> List.length a' = S (List.length a)) ->
  foldM body xs acc = Ok r ->
  List.length r = (List.length acc + List.length xs)%nat.
Proof.
  intro Hb. revert acc. induction xs as [|x xs IH]; intros acc H.
  - inversion H; subst. simpl. lia.
  - cbn [foldM] in H. destruct (body x acc) as [a'|] eqn:E; cbn [bind] in H;
      [|discriminate].
    rewrite (IH _ H), (Hb _ _ _ E). simpl. lia.
Qed.

(** The flagging loop of [scoreBarPath] and [scoreHipShift]: offsets from
    [base]. *)
Lemma offset_issues (rep : DetectedRep) (base : Z) (flag : Z -> bool) (n : Z)
      (acc : list Z) :
  (forall i, (0 <= i <= n)%Z -> inRep rep (base + i)) ->
  Forall (inRep rep) acc ->
  Forall (inRep rep)
         (fold_left (fun issueFrames i =>
                       if flag i then issueFrames ++ [(base + i)%Z] else issueFrames)
                    (Zrange 0 n) acc).
Proof.
  intro Hr. assert (Hin : forall i, In i (Zrange 0 n) -> (0 <= i <= n)%Z)
    by (intros i Hi; now apply Zrange_In).
  revert acc. induction (Zrange 0 n) as [|i l IH]; intros acc Ha; cbn [fold_left];
    [exact Ha|].
  apply IH; [intros j Hj; apply Hin; now right|].
  destruct (flag i); [|exact Ha].
  apply Forall_snoc; [exact Ha|]. apply Hr, Hin. now left.
Qed.

Lemma scoreBarPath_issues (frames : list PoseFrame) (rep : DetectedRep)
      (m : MetricScore.t) :
  scoreBarPath frames rep = Ok m -> validRep frames rep ->
  Forall (inRep rep) (MetricScore.issueFrames m).
Proof.
  unfold scoreBarPath. intros H (H1 & H2).
  match type of H with
  | context [foldM ?body ?xs ?acc] =>
      destruct (foldM body xs acc) as [xPositions|] eqn:Eloop; cbn [bind] in H;
      [|discriminate]
  end.
  apply foldM_snoc_length in Eloop.
  2:{ intros x a a' Hb. returned Hb. rewrite length_app. simpl. lia. }
  rewrite Zrange_length in Eloop. cbn [List.length] in Eloop.
  destruct (Zlength' xPositions =? 0)%Z.
  { inversion H. apply Forall_nil. }
  cbv zeta in H.
  match type of H with
  | context [fold_left ?f (Zrange 0 ?n) []] =>
      assert (Hiss : Forall (inRep rep) (fold_left f (Zrange 0 n) []));
      [ apply (offset_issues rep (startFrame rep)
                 (fun i => Math_abs (at_ xPositions i
                                     - sum xPositions / ofZ (Zlength' xPositions))
                           * estimatedFrameHeightInches >? 4));
        [ intros i Hi; unfold inRep, Zlength' in *; lia | apply Forall_nil ]
      | set (issueFrames := fold_left f (Zrange 0 n) []) in * ]
  end.
  issues_done H.
Qed.

Lemma scoreHipShift_issues (frames : list PoseFrame) (rep : DetectedRep)
      (m : MetricScore.t) :
  scoreHipShift frames rep = Ok m -> validRep frames rep ->
  Forall (inRep rep) (MetricScore.issueFrames m).
Proof.
  unfold scoreHipShift. intros H (H1 & H2).
  match type of H with
  | context [foldM ?body ?xs ?acc] =>
      destruct (foldM body xs acc) as [xPositions|] eqn:Eloop; cbn [bind] in H;
      [|discriminate]
  end.
  apply foldM_snoc_length in Eloop.
  2:{ intros x a a' Hb. returned Hb. rewrite length_app. simpl. lia. }
  rewrite Zrange_length in Eloop. cbn [List.length] in Eloop.
  destruct (Zlength' xPositions <? 2)%Z.
  { inversion H. apply Forall_nil. }
  cbv zeta in H.
  match type of H with
  | context [fold_left ?f (Zrange 0 ?n) []] =>
      assert (Hiss : Forall (inRep rep) (fold_left f (Zrange 0 n) []));
      [ apply (offset_issues rep (bottomFrame rep)
                 (fun i => Math_abs (at_ xPositions i
                                     - sum xPositions / ofZ (Zlength' xPositions))
                           * estimatedFrameHeightInches >? 1.5));
        [ intros i Hi; unfold inRep, Zlength' in *; lia | apply Forall_nil ]
      | set (issueFrames := fold_left f (Zrange 0 n) []) in * ]
  end.
  issues_done H.
Qed.

Lemma scoreButtWink_issues (M : MathLib) (frames : list PoseFrame) (rep : DetectedRep)
      (m : MetricScore.t) :
  scoreButtWink M frames rep = Ok m -> validRep frames rep ->
  Forall (inRep rep) (MetricScore.issueFrames m).
Proof.
  unfold scoreButtWink. intros H (H1 & H2). cbv zeta in H.
  destruct (mapM _ _); cbn [bind] in H; [|discriminate].
  destruct (mapM _ _); cbn [bind] in H; [|discriminate].
  match type of H with
  | context [Zrange ?a ?b] =>
      assert (Hiss : Forall (inRep rep) (Zrange a b))
        by (apply Forall_Zrange; intros i Hi; unfold inRep; lia);
      set (window := Zrange a b) in *
  end.
  issues_done H.
Qed.

Lemma scoreTempo_issues (frames : list PoseFrame) (rep : DetectedRep)
      (m : MetricScore.t) :
  scoreTempo frames rep = Ok m -> validRep frames rep ->
  Forall (inRep rep) (MetricScore.issueFrames m).
Proof.
  unfold scoreTempo. intros H (H1 & H2).
  destruct (frameAt frames (startFrame rep)); cbn [bind] in H; [|discriminate].
  destruct (frameAt frames (bottomFrame rep)); cbn [bind] in H; [|discriminate].
  destruct (frameAt frames (endFrame rep)); cbn [bind] in H; [|discriminate].
  cbv zeta in H.
  assert (Hiss : Forall (inRep rep) (Zrange (startFrame rep) (endFrame rep)))
    by (apply Forall_Zrange; intros i Hi; exact Hi).
  set (whole := Zrange (startFrame rep) (endFrame rep)) in *.
  destruct (_ <? 1) in H; cbv beta iota in H;
    repeat match type of H with
           | context [match ?p with (_, _) => _ end] => destruct p
           end;
    inversion H; cbn [MetricScore.issueFrames]; [exact Hiss | apply Forall_nil].
Qed.

Lemma scoreHipRiseRate_issues (frames : list PoseFrame) (rep : DetectedRep)
      (m : MetricScore.t) :
  scoreHipRiseRate frames rep = Ok m -> validRep frames rep ->
  Forall (inRep rep) (MetricScore.issueFrames m).
Proof.
  unfold scoreHipRiseRate. intros H (H1 & H2). cbv zeta in H.
  destruct (_ <? 3)%Z eqn:E3; [inversion H; apply Forall_nil|].
  apply Z.ltb_ge in E3.
  issue_loop rep H; try visited H1 H2. issues_done H.
Qed.

Lemma scoreReversalControl_issues (frames : list PoseFrame) (rep : DetectedRep)
      (m : MetricScore.t) :
  scoreReversalControl frames rep = Ok m -> validRep frames rep ->
  Forall (inRep rep) (MetricScore.issueFrames m).
Proof.
  unfold scoreReversalControl. intros H (H1 & H2). cbv zeta in H.
  destruct (_ <? 3)%Z; [inversion H; apply Forall_nil|].
  destruct (foldM _ _ _); cbn [bind] in H; [|discriminate].
  destruct (foldM _ _ _); cbn [bind] in H; [|discriminate].
  match type of H with
  | context [Zrange ?a ?b] =>
      assert (Hiss : Forall (inRep rep) (Zrange a b))
        by (apply Forall_Zrange; intros i Hi; unfold inRep; lia);
      set (window := Zrange a b) in *
  end.
  issues_done H; unfold inRep; lia.
Qed.

Lemma scoreStanceWidthShift_issues (frames : list PoseFrame) (rep : DetectedRep)
      (m : MetricScore.t) :
  scoreStanceWidthShift frames rep = Ok m -> validRep frames rep ->
  Forall (inRep rep) (MetricScore.issueFrames m).
Proof.
  unfold scoreStanceWidthShift. intros H (H1 & H2).
  destruct (frameAt frames (startFrame rep)); cbn [bind] in H; [|discriminate].
  destruct (lm _ LEFT_ANKLE); cbn [bind] in H; [|discriminate].
  destruct (lm _ RIGHT_ANKLE); cbn [bind] in H; [|discriminate].
  cbv zeta in H.
  destruct (_ <? 0.01); [inversion H; apply Forall_nil|].
  issue_loop rep H; try visited H1 H2. issues_done H; unfold inRep; lia.
Qed.

Lemma scoreDepthConsistency_issues (M : MathLib) (frames : list PoseFrame)
      (allReps : list DetectedRep) (m : MetricScore.t) :
  scoreDepthConsistency M frames allReps = Ok m ->
  Forall (validRep frames) allReps ->
  issuesIn allReps m.
Proof.
  unfold scoreDepthConsistency, issuesIn. intros H Hv.
  assert (Hall : Forall (fun i => exists rep, In rep allReps /\ inRep rep i)
                        (map bottomFrame allReps)).
  { apply Forall_forall. intros i Hi. apply in_map_iff in Hi.
    destruct Hi as (rep & <- & Hrep). exists rep. split; [exact Hrep|].
    rewrite Forall_forall in Hv. destruct (Hv rep Hrep) as [V1 V2].
    unfold inRep. lia. }
  set (bottoms := map bottomFrame allReps) in *.
  destruct (Zlength' allReps <? 2)%Z; [inversion H; apply Forall_nil|].
  destruct (mapM _ allReps) as [bottomDepths|]; cbn [bind] in H; [|discriminate].
  cbv zeta in H.
  destruct (_ <? 0.02); cbn [bind] in H.
  { inversion H. apply Forall_nil. }
  destruct (_ <? 0.05); cbn [bind] in H.
  - unfold repAt in H. destruct (_ <? 0)%Z; cbn [bind] in H; [discriminate|].
    destruct (nth_error allReps _) as [r|] eqn:En; cbn [bind] in H; [|discriminate].
    inversion H. cbn [MetricScore.issueFrames].
    apply Forall_cons; [|apply Forall_nil].
    apply nth_error_In in En. exists r. split; [exact En|].
    rewrite Forall_forall in Hv. destruct (Hv r En) as [V1 V2]. unfold inRep. lia.
  - inversion H. exact Hall.
Qed.

Lemma averageMetricScores_issues (reps : list DetectedRep) (scores : list MetricScore.t)
      (m : MetricScore.t) :
  Forall (issuesIn reps) scores -> averageMetricScores scores = Ok m ->
  issuesIn reps m.
Proof.
  unfold averageMetricScores, issuesIn. intros Hs H.
  destruct (Zlength' scores =? 0)%Z; [inversion H; apply Forall_nil|].
  cbv zeta in H.
  destruct (scoreAt _ _); cbn [bind] in H; [|discriminate].
  destruct (scoreAt _ _); cbn [bind] in H; [|discriminate].
  inversion H. cbn [MetricScore.issueFrames].
  apply Forall_forall. intros i Hi. apply in_flat_map in Hi.
  destruct Hi as (s & Hin & Hi). rewrite Forall_forall in Hs.
  specialize (Hs s Hin). unfold issuesIn in Hs. rewrite Forall_forall in Hs. auto.
Qed.

Lemma update_Forall (P : MetricScore.t -> Prop) (h : heap) (l : loc)
      (f : MetricScore.t -> MetricScore.t) :
  (forall m, P m -> P (f m)) -> Forall P h -> Forall P (update h l f).
Proof.
  intros Hf Hh. revert l. induction Hh as [|m rest Hm Hrest IH]; intros [|l]; simpl;
    try apply Forall_nil; apply Forall_cons; auto.
Qed.

Lemma stamp_issues (reps : list DetectedRep) (angle : CameraAngle)
      (repData : RepData.t) (keys : list string) (h h' : heap) :
  Forall (issuesIn reps) h ->
  foldH (fun key (_ : unit) =>
           match repField key repData with
           | Some l => setConfidence l (getMetricConfidence key angle)
           | None => lift (Throw TypeError)
           end) keys tt h = Ok (tt, h') ->
  Forall (issuesIn reps) h'.
Proof.
  revert h. induction keys as [|key keys IH]; intros h Hh H.
  - simpl in H. unfold retH in H. inversion H; subst. exact Hh.
  - cbn [foldH] in H. apply bindH_Ok in H. destruct H as ([] & h1 & H1 & H2).
    destruct (repField key repData); [|discriminate].
    unfold setConfidence in H1. destruct (nth_error h l); [|discriminate].
    inversion H1; subst h1; clear H1.
    apply IH in H2; [exact H2|]. apply update_Forall; [|exact Hh].
    intros m Hm. exact Hm.
Qed.

Lemma inRep_issuesIn (reps : list DetectedRep) (rep : DetectedRep) (m : MetricScore.t) :
  In rep reps -> Forall (inRep rep) (MetricScore.issueFrames m) -> issuesIn reps m.
Proof.
  intros Hin H. unfold issuesIn. eapply Forall_impl; [|exact H].
  intros i Hi. exists rep. auto.
Qed.

Lemma scoreRep_issues (M : MathLib) (frames : list PoseFrame) (angle : CameraAngle)
      (dcs : loc) (reps : list DetectedRep) (rep : DetectedRep) (idx : Z)
      (h h' : heap) (r : RepData.t) :
  Forall (issuesIn reps) h -> In rep reps -> validRep frames rep ->
  scoreRep M frames angle dcs rep idx h = Ok (r, h') ->
  Forall (issuesIn reps) h'.
Proof.
  intros Hh Hin Hv H. unfold scoreRep in H.
  repeat match type of H with
         | bindH (new ?c) _ _ = Ok _ =>
             apply bindH_new in H;
             let m := fresh "m" in
             let E := fresh "E" in
             destruct H as (m & E & H);
             first [ apply scoreDepth_issues in E | apply scoreKneeTracking_issues in E
                   | apply scoreBackAngle_issues in E | apply scoreBarPath_issues in E
                   | apply scoreSymmetry_issues in E | apply scoreButtWink_issues in E
                   | apply scoreTempo_issues in E | apply scoreHeelRise_issues in E
                   | apply scoreStanceWidth_issues in E | apply scoreHipShift_issues in E
                   | apply scoreKneeValgus_issues in E | apply scoreKneeTravel_issues in E
                   | apply scoreThoracicRounding_issues in E
                   | apply scoreHipRiseRate_issues in E
                   | apply scoreReversalControl_issues in E
                   | apply scoreStanceWidthShift_issues in E
                   | apply scoreHeadPosition_issues in E ];
             [apply (inRep_issuesIn reps rep _ Hin) in E | exact Hv]
         end.
  apply bindH_Ok in H. destruct H as ([] & h1 & Hs & Hr).
  unfold retH in Hr. inversion Hr; subst r h1; clear Hr.
  apply (stamp_issues reps) in Hs; [exact Hs|].
  repeat (apply Forall_snoc; [|assumption]). exact Hh.
Qed.

Lemma mapiH_scoreRep_issues (M : MathLib) (frames : list PoseFrame)
      (angle : CameraAngle) (dcs : loc) (reps todo : list DetectedRep) (idx : Z)
      (h h' : heap) (rs : list RepData.t) :
  Forall (issuesIn reps) h ->
  (forall rep, In rep todo -> In rep reps /\ validRep frames rep) ->
  mapiH (scoreRep M frames angle dcs) todo idx h = Ok (rs, h') ->
  Forall (issuesIn reps) h'.
Proof.
  revert idx h rs. induction todo as [|rep todo IH]; intros idx h rs Hh Hin H.
  - simpl in H. unfold retH in H. inversion H; subst. exact Hh.
  - cbn [mapiH] in H.
    apply bindH_Ok in H. destruct H as (r & h1 & H1 & H).
    apply bindH_Ok in H. destruct H as (rs' & h2 & H2 & H).
    unfold retH in H. inversion H; subst rs h2; clear H.
    destruct (Hin rep (or_introl eq_refl)) as [Hr Hv].
    apply (scoreRep_issues _ _ _ _ reps) in H1; try assumption.
    apply (IH _ _ _ H1) in H2; [exact H2|]. intros rep' Hrep'. apply Hin. now right.
Qed.

Lemma overallOf_issues (reps : list DetectedRep) (metric : RepData.t -> loc)
      (rs : list RepData.t) (h h' : heap) (l : loc) :
  Forall (issuesIn reps) h -> overallOf metric rs h = Ok (l, h') ->
  Forall (issuesIn reps) h'.
Proof.
  intros Hh H. unfold overallOf in H.
  apply bindH_Ok in H. destruct H as (scores & h1 & H1 & H).
  apply mapH_read_inv in H1. destruct H1 as [-> F].
  unfold new in H. destruct (averageMetricScores scores) as [m|] eqn:E; [|discriminate].
  inversion H; subst l h'; clear H.
  apply Forall_snoc; [exact Hh|].
  apply (averageMetricScores_issues reps scores); [|exact E].
  clear E. induction F as [|r m' rs' ms' Hr _ IH]; constructor; [|exact IH].
  rewrite Forall_forall in Hh. apply Hh. eapply nth_error_In; eauto.
Qed.

Lemma analyzeSquat_issues (M : MathLib) (frames : list PoseFrame)
      (et : option ExerciseType) (ca : option CameraAngle)
      (res : SquatAnalysisResult) (h : heap)
      (detectedReps repsToAnalyze : list DetectedRep) :
  analyzeSquat M frames et ca [] = Ok (res, h) ->
  detectReps frames = Ok detectedReps ->
  (if (Zlength' detectedReps >? 0)%Z then Ok detectedReps else wholeClipRep frames)
  = Ok repsToAnalyze ->
  Forall (issuesIn repsToAnalyze) h.
Proof.
  intros H Ed Er. unfold analyzeSquat in H.
  unfold bindH at 1, lift at 1 in H. rewrite Ed in H.
  unfold bindH at 1, lift at 1 in H. rewrite Er in H.
  destruct (repsToAnalyze_valid frames _ _ Ed Er) as [Hv _].
  apply bindH_new in H. destruct H as (m0 & E0 & H). cbn [List.length app] in H.
  apply scoreDepthConsistency_issues in E0; [|exact Hv].
  apply bindH_Ok in H. destruct H as (rs & h1 & H1 & H).
  apply (mapiH_scoreRep_issues _ _ _ _ repsToAnalyze) in H1.
  2:{ apply Forall_cons; [exact E0 | apply Forall_nil]. }
  2:{ intros rep Hrep. split; [exact Hrep|]. rewrite Forall_forall in Hv. auto. }
  repeat match type of H with
         | bindH (overallOf ?g ?rs) _ ?hh = Ok _ =>
             apply bindH_Ok in H;
             let l := fresh "l" in
             let hn := fresh "hn" in
             let Ho := fresh "Ho" in
             destruct H as (l & hn & Ho & H);
             apply (overallOf_issues repsToAnalyze) in Ho; [|assumption]
         end.
  unfold retH in H. inversion H; subst res h; clear H. assumption.
Qed.

Lemma allScoredAs_rep (dcs : loc) (h : heap) (reps : list DetectedRep) (idx : Z)
      (rs : list RepData.t) (rep : DetectedRep) :
  allScoredAs dcs h reps idx rs -> In rep reps ->
  exists r, In r rs
            /\ RepData.startFrame r = startFrame rep
            /\ RepData.endFrame r = endFrame rep.
Proof.
  revert idx rs. induction reps as [|rep' reps IH]; intros idx [|r rs] H Hin;
    simpl in *; try contradiction.
  destruct H as [(_ & S2 & S3 & _) H2]. destruct Hin as [->|Hin].
  - exists r. auto.
  - destruct (IH _ _ H2 Hin) as (r' & Hr' & E). exists r'. auto.
Qed.

(** X9. Every issue frame that a result reports, for any metric of any rep
    and for any overall metric, is a frame of the clip and lies within one
    of the reps of the result: the scorers flag only frames of the rep they
    score, the depth-consistency metric flags bottom frames of reps, and
    the overall metrics collect the flags of the reps. *)
Theorem analyzeSquat_issue_frames (M : MathLib) (frames : list PoseFrame)
        (et : option ExerciseType) (ca : option CameraAngle)
        (res : SquatAnalysisResult) (h : heap) :
  analyzeSquat M frames et ca [] = Ok (res, h) ->
  (forall r key,
      In r (reps res) -> In key metricKeys ->
      exists l m, repField key r = Some l /\ nth_error h l = Some m
                  /\ flagsWithin frames (reps res) m)
  /\ (forall key,
        In key metricKeys ->
        exists l m, overallField key (overall res) = Some l
                    /\ nth_error h l = Some m
                    /\ flagsWithin frames (reps res) m).
Proof.
  intro H.
  destruct (analyzeSquat_inv _ _ _ _ _ _ H)
    as (dr & ra & Ed & Er & _ & _ & _ & Hs & Ho & _).
  pose proof (analyzeSquat_issues _ _ _ _ _ _ _ _ H Ed Er) as Hi.
  destruct (repsToAnalyze_valid frames dr ra Ed Er) as [Hv _].
  assert (F : forall l, (l < List.length h)%nat ->
                        exists m, nth_error h l = Some m
                                  /\ flagsWithin frames (reps res) m).
  { intros l Hl. destruct (nth_error h l) as [m|] eqn:E;
      [|apply nth_error_None in E; lia].
    exists m. split; [reflexivity|]. intros i Hin.
    rewrite Forall_forall in Hi. pose proof (Hi m (nth_error_In _ _ E)) as Hm.
    unfold issuesIn in Hm. rewrite Forall_forall in Hm.
    destruct (Hm i Hin) as (rep & Hrep & R1 & R2).
    rewrite Forall_forall in Hv. destruct (Hv rep Hrep) as [V1 V2].
    split; [lia|].
    destruct (allScoredAs_rep _ _ _ _ _ rep Hs Hrep) as (r & Hr & Es & Ee).
    exists r. split; [exact Hr|]. rewrite Es, Ee. lia. }
  split.
  - intros r key Hr Hk.
    destruct (allScoredAs_field _ _ _ _ _ key r Hs Hr Hk) as (l & El & Bl).
    destruct (F l Bl) as (m & Em & Fm). exists l, m. auto.
  - intros key Hk. destruct (Ho key Hk) as (l & El & Bl).
    destruct (F l Bl) as (m & Em & Fm). exists l, m. auto.
Qed.

Lemma analyzeSquat_issue_frames_witness :
  exists res h,
    analyzeSquat hostMath threeSquats (Some squat) (Some left_side) [] = Ok (res, h)
    /\ forall key,
         In key metricKeys ->
         exists l m, overallField key (overall res) = Some l
                     /\ nth_error h l = Some m
                     /\ flagsWithin threeSquats (reps res) m.
Proof.
  assert (E : analyzeSquat hostMath threeSquats (Some squat) (Some left_side) []
              = threeSquatsRun) by (vm_compute; reflexivity).
  unfold threeSquatsRun in E.
  match type of E with
  | _ = Ok (?res, ?h) => exists res, h
  end.
  split; [exact E|].
  exact (proj2 (analyzeSquat_issue_frames _ _ _ _ _ _ E)).
Defined.

(** ** The tiers of the depth metric *)

Lemma rating_of_band (value : Q) (lo hi : Z) :
  (lo <= hi)%Z ->
  (lo <= Math_round (clamp value (inject_Z lo) (inject_Z hi)) <= hi)%Z.
Proof.
  intro H. apply Math_round_bounds. apply clamp_bounds.
  rewrite <- Zle_Qle. exact H.
Qed.

(** X10. The depth metric of a rep, read at its bottom frame: it is rated
    green exactly when the hip midpoint is below the knee midpoint (image
    y grows downward), yellow exactly when the hips are above it by less
    than 0.03, red otherwise; only a red rating flags a frame, the bottom
    frame. *)
Theorem scoreDepth_tiers (M : MathLib) (frames : list PoseFrame) (rep : DetectedRep) :
  wellFormed frames -> validRep frames rep ->
  exists m f,
    scoreDepth M frames rep = Ok m
    /\ nth_error frames (Z.to_nat (bottomFrame rep)) = Some f
    /\ (MetricScore.rating m = green <-> avgKneeY f < avgHipY f)
    /\ (MetricScore.rating m = yellow
        <-> avgHipY f <= avgKneeY f /\ avgKneeY f - avgHipY f < 0.03)
    /\ (MetricScore.rating m = red <-> 0.03 <= avgKneeY f - avgHipY f)
    /\ MetricScore.issueFrames m
       = match MetricScore.rating m with
         | red => [bottomFrame rep]
         | _ => []
         end.
Proof.
  intros Hw (H1 & H2). unfold scoreDepth.
  destruct (frameAt_wf frames (bottomFrame rep) Hw ltac:(lia)) as (f & E & En & L).
  rewrite E. cbn [bind].
  rewrite !(lm_wf f) by (assumption || (unfold LEFT_SHOULDER, RIGHT_SHOULDER,
    LEFT_HIP, RIGHT_HIP, LEFT_KNEE, RIGHT_KNEE; lia)).
  cbn [bind]. cbv zeta. fold (avgHipY f). fold (avgKneeY f).
  destruct (avgHipY f >? avgKneeY f) eqn:C1.
  - apply Qgtb_gt in C1. eexists. exists f. split; [reflexivity|].
    split; [exact En|]. cbn [MetricScore.rating MetricScore.issueFrames].
    pose proof (rating_of_band (80 + (avgHipY f - avgKneeY f) * 200) 80 100
                               ltac:(lia)) as B.
    change (inject_Z 80) with 80 in B. change (inject_Z 100) with 100 in B.
    unfold getRating.
    destruct (_ >=? 80)%Z eqn:G; [|rewrite Z.geb_leb in G; apply Z.leb_gt in G; lia].
    repeat split; intros; try discriminate; try lra; try reflexivity.
  - apply Qgtb_le in C1.
    destruct (avgKneeY f - avgHipY f <? 0.03) eqn:C2.
    + apply Qltb_lt in C2. eexists. exists f. split; [reflexivity|].
      split; [exact En|]. cbn [MetricScore.rating MetricScore.issueFrames].
      pose proof (rating_of_band (50 + (1 - (avgKneeY f - avgHipY f) / 0.03) * 29)
                                 50 79 ltac:(lia)) as B.
      change (inject_Z 50) with 50 in B. change (inject_Z 79) with 79 in B.
      unfold getRating.
      destruct (_ >=? 80)%Z eqn:G; [rewrite Z.geb_leb in G; apply Z.leb_le in G; lia|].
      destruct (_ >=? 50)%Z eqn:G'; [|rewrite Z.geb_leb in G'; apply Z.leb_gt in G'; lia].
      repeat split; intros; try discriminate; try lra; try reflexivity.
    + apply Qltb_ge in C2. eexists. exists f. split; [reflexivity|].
      split; [exact En|]. cbn [MetricScore.rating MetricScore.issueFrames].
      pose proof (rating_of_band (49 - (avgKneeY f - avgHipY f) * 300) 0 49
                                 ltac:(lia)) as B.
      change (inject_Z 0) with 0 in B. change (inject_Z 49) with 49 in B.
      unfold getRating.
      destruct (_ >=? 80)%Z eqn:G; [rewrite Z.geb_leb in G; apply Z.leb_le in G; lia|].
      destruct (_ >=? 50)%Z eqn:G'; [rewrite Z.geb_leb in G'; apply Z.leb_le in G'; lia|].
      repeat split; intros; try discriminate; try lra; try reflexivity.
Qed.

Lemma scoreDepth_tiers_witness :
  wellFormed (clip 0.1 oneSquat)
  /\ exists m f,
       scoreDepth hostMath (clip 0.1 oneSquat)
                  {| startFrame := 0; endFrame := 16; bottomFrame := 8 |} = Ok m
       /\ nth_error (clip 0.1 oneSquat) 8 = Some f
       /\ (MetricScore.rating m = green <-> avgKneeY f < avgHipY f).
Proof.
  assert (Hw : wellFormed (clip 0.1 oneSquat))
    by (apply wellFormedb_true; vm_compute; reflexivity).
  split; [exact Hw|].
  destruct (scoreDepth_tiers hostMath (clip 0.1 oneSquat)
              {| startFrame := 0; endFrame := 16; bottomFrame := 8 |} Hw)
    as (m & f & E & En & G & _).
  { unfold validRep. cbn [startFrame endFrame bottomFrame].
    change (Zlength' (clip 0.1 oneSquat)) with 17%Z. lia. }
  exists m, f. auto.
Defined.

(** ** Active frames *)

Lemma getHipY_wf (frames : list PoseFrame) (i : Z) :
  wellFormed frames -> (0 <= i < Zlength' frames)%Z ->
  (f <- frameAt frames i ;; hipY f) = Ok (at_ (hipHeights frames) i).
Proof.
  intros Hw Hi. destruct (frameAt_wf frames i Hw Hi) as (f & E & En & L).
  rewrite E. cbn [bind]. rewrite (hipY_wf f L). f_equal.
  unfold at_, hipHeights.
  rewrite (nth_indep _ 0 (avgHipY f)) by (rewrite length_map; unfold Zlength' in Hi; lia).
  rewrite map_nth. f_equal. symmetry. now apply nth_error_nth.
Qed.

(** X11. The active zone of a rep in a clip of well-formed frames: the bottom
    frame is always active, and when the hips drop (or rise) by 0.01 or more
    between the start frame and the bottom frame the start frame is not
    active, so the scorers that skip inactive frames always look at the
    bottom and never at the standing start of such a rep. *)
Theorem isActiveFrame_zone (frames : list PoseFrame) (rep : DetectedRep) :
  wellFormed frames -> validRep frames rep ->
  isActiveFrame frames rep (bottomFrame rep) = Ok true
  /\ (0.01 <= Math_abs (at_ (hipHeights frames) (bottomFrame rep)
                        - at_ (hipHeights frames) (startFrame rep)) ->
      isActiveFrame frames rep (startFrame rep) = Ok false).
Proof.
  intros Hw (H1 & H2). unfold isActiveFrame. cbv zeta.
  rewrite !getHipY_wf by (assumption || lia). cbn [bind].
  set (s := at_ (hipHeights frames) (startFrame rep)).
  set (b := at_ (hipHeights frames) (bottomFrame rep)).
  destruct (Math_abs (b - s) <? 0.01) eqn:C.
  - split; [reflexivity|]. intro Hd. apply Qltb_lt in C. lra.
  - apply Qltb_ge in C.
    assert (Hne : ~ b - s == 0).
    { intro E. unfold Math_abs in C. rewrite E in C. 
      change (Qabs 0) with 0 in C. lra. }
    split.
    + f_equal. apply Qgeb_ge.
      assert (E1 : (b - s) / (b - s) == 1)
        by (unfold Qdiv; now rewrite Qmult_inv_r).
      rewrite E1. lra.
    + intros _. f_equal. apply Qgeb_lt.
      assert (E0 : (s - s) / (b - s) == 0).
      { unfold Qdiv. setoid_replace (s - s) with 0 by ring. ring. }
      rewrite E0. lra.
Qed.

Lemma isActiveFrame_zone_witness :
  wellFormed (clip 0.1 oneSquat)
  /\ isActiveFrame (clip 0.1 oneSquat)
                   {| startFrame := 0; endFrame := 16; bottomFrame := 8 |} 8 = Ok true
  /\ isActiveFrame (clip 0.1 oneSquat)
                   {| startFrame := 0; endFrame := 16; bottomFrame := 8 |} 0 = Ok false.
Proof.
  assert (Hw : wellFormed (clip 0.1 oneSquat))
    by (apply wellFormedb_true; vm_compute; reflexivity).
  split; [exact Hw|].
  destruct (isActiveFrame_zone (clip 0.1 oneSquat)
              {| startFrame := 0; endFrame := 16; bottomFrame := 8 |} Hw)
    as [B S].
  { unfold validRep. cbn [startFrame endFrame bottomFrame].
    change (Zlength' (clip 0.1 oneSquat)) with 17%Z. lia. }
  split; [exact B|]. apply S. apply Qle_bool_iff. vm_compute. reflexivity.
Defined.

(** ** Trimming keeps the reps *)

Lemma slice_all {A : Type} (arr : list A) : slice arr 0 (Zlength' arr) = arr.
Proof.
  unfold slice. cbv zeta. change (0 <? 0)%Z with false. cbv iota.
  assert (E : (Zlength' arr <? 0)%Z = false) by (apply Z.ltb_ge; unfold Zlength'; lia).
  rewrite E. rewrite Z.min_id.
  replace (Z.min 0 (Zlength' arr)) with 0%Z by (unfold Zlength'; lia).
  change (Z.to_nat 0) with 0%nat. cbn [skipn].
  rewrite Z.sub_0_r. unfold Zlength'. rewrite Nat2Z.id. apply firstn_all.
Qed.

Lemma frameAt_timestamp (frames : list PoseFrame) (i : Z) :
  (0 <= i < Zlength' frames)%Z ->
  exists f, frameAt frames i = Ok f /\ timestamp f = timestampAt frames i.
Proof.
  intro Hi. unfold frameAt, timestampAt.
  assert (E : (i <? 0)%Z = false) by (apply Z.ltb_ge; lia). rewrite E.
  destruct (nth_error frames (Z.to_nat i)) as [f|] eqn:En; [eauto|].
  apply nth_error_None in En. unfold Zlength' in Hi. lia.
Qed.

Lemma repAt_In (reps : list DetectedRep) (i : Z) :
  (0 <= i < Zlength' reps)%Z ->
  exists r, repAt reps i = Ok r /\ nth_error reps (Z.to_nat i) = Some r.
Proof.
  intro Hi. unfold repAt.
  assert (E : (i <? 0)%Z = false) by (apply Z.ltb_ge; lia). rewrite E.
  destruct (nth_error reps (Z.to_nat i)) as [r|] eqn:En; [eauto|].
  apply nth_error_None in En. unfold Zlength' in Hi. lia.
Qed.

(** The first rep starts first and the last rep ends last. *)
Lemma detectReps_span (frames : list PoseFrame) (reps : list DetectedRep)
      (firstRep lastRep : DetectedRep) :
  detectReps frames = Ok reps ->
  nth_error reps 0 = Some firstRep ->
  nth_error reps (Z.to_nat (Zlength' reps - 1)) = Some lastRep ->
  (0 <= startFrame firstRep)%Z /\ (endFrame lastRep < Zlength' frames)%Z
  /\ forall r, In r reps ->
       (startFrame firstRep <= startFrame r)%Z
       /\ (startFrame r <= endFrame r)%Z
       /\ (endFrame r <= endFrame lastRep)%Z.
Proof.
  intros E Hf Hl.
  destruct (detectReps_inv _ _ E) as [->|(smoothed & bottoms & Hn & Hs & Hb & ->)];
    [discriminate|].
  set (n := Zlength' frames) in *.
  assert (Hk : (0 < Zlength' bottoms)%Z).
  { destruct bottoms; [discriminate Hf|]. unfold Zlength'. simpl. lia. }
  assert (Hlen : Zlength' (map (segment smoothed n bottoms)
                               (Zrange 0 (Zlength' bottoms - 1)))
                 = Zlength' bottoms).
  { unfold Zlength'. rewrite length_map, Zrange_length. lia. }
  rewrite Hlen in Hl.
  apply nth_error_segments in Hf. destruct Hf as [-> _].
  apply nth_error_segments in Hl. destruct Hl as [-> _].
  rewrite Z2Nat.id by lia. change (Z.of_nat 0) with 0%Z.
  pose proof (segment_spec smoothed n bottoms 0 Hn Hs Hb ltac:(lia)) as S0.
  pose proof (segment_spec smoothed n bottoms (Zlength' bottoms - 1) Hn Hs Hb
                           ltac:(lia)) as Sl.
  cbv zeta in S0, Sl.
  destruct S0 as (B0 & S01 & S02 & _). destruct Sl as (Bl & Sl1 & Sl2 & _).
  split; [lia|]. split; [lia|].
  intros r Hr. apply in_map_iff in Hr. destruct Hr as (i & <- & Hi).
  apply Zrange_In in Hi.
  pose proof (segment_spec smoothed n bottoms i Hn Hs Hb ltac:(lia)) as Si.
  cbv zeta in Si. destruct Si as (Bi & Si1 & Si2 & Si3 & Si4).
  split; [|split; [lia|]].
  - destruct (Z.eq_dec i 0) as [->|Hne]; [lia|].
    rewrite Si3 by lia.
    pose proof (atZ_mono bottoms 0 (i - 1) Hs ltac:(lia) ltac:(lia)).
    pose proof (atZ_mono bottoms (i - 1) i Hs ltac:(lia) ltac:(lia)).
    zlia.
  - destruct (Z.eq_dec i (Zlength' bottoms - 1)) as [->|Hne]; [lia|].
    rewrite Si4 by lia.
    pose proof (atZ_mono bottoms (i + 1) (Zlength' bottoms - 1) Hs ltac:(lia) ltac:(lia)).
    pose proof (atZ_mono bottoms i (i + 1) Hs ltac:(lia) ltac:(lia)).
    zlia.
Qed.

Lemma Math_ceil_pos (q : Q) : 0 < q -> (0 < Math_ceil q)%Z.
Proof.
  intro H. unfold Math_ceil. pose proof (Qle_ceiling q) as C.
  apply Z.lt_nge. intro N.
  assert (inject_Z (Qceiling q) <= 0).
  { replace 0 with (inject_Z 0) by reflexivity. now rewrite <- Zle_Qle. }
  lra.
Qed.

(** X12. Trimming a non-empty clip whose last timestamp is not before its
    first keeps a contiguous run of frames that contains every detected
    rep in full, and reports the timestamps of the first and the last frame
    kept; without a detected rep it keeps the whole clip. *)
Theorem trimFramesToReps_keeps_reps (frames : list PoseFrame)
        (reps : list DetectedRep) :
  frames <> [] ->
  detectReps frames = Ok reps ->
  timestampAt frames 0 <= timestampAt frames (Zlength' frames - 1) ->
  exists t a b,
    trimFramesToReps frames = Ok t
    /\ (0 <= a <= b)%Z /\ (b < Zlength' frames)%Z
    /\ Trimmed.frames t = slice frames a (b + 1)
    /\ Trimmed.startTimestamp t = timestampAt frames a
    /\ Trimmed.endTimestamp t = timestampAt frames b
    /\ (reps = [] -> a = 0%Z /\ b = (Zlength' frames - 1)%Z)
    /\ forall r, In r reps -> (a <= startFrame r)%Z /\ (endFrame r <= b)%Z.
Proof.
  intros Hne Ed Hts. unfold trimFramesToReps.
  assert (Hn : (0 < Zlength' frames)%Z).
  { unfold Zlength'. destruct frames; [congruence|]. simpl. lia. }
  assert (E0 : (Zlength' frames =? 0)%Z = false) by (apply Z.eqb_neq; lia).
  rewrite E0, Ed. cbn [bind].
  destruct (frameAt_timestamp frames 0 ltac:(lia)) as (f0 & Ef0 & T0).
  destruct (frameAt_timestamp frames (Zlength' frames - 1) ltac:(lia))
    as (fl & Efl & Tl).
  destruct (Zlength' reps =? 0)%Z eqn:Er.
  - apply Z.eqb_eq in Er. rewrite Ef0, Efl. cbn [bind].
    assert (reps = []) by (destruct reps; [reflexivity | unfold Zlength' in Er; simpl in Er; lia]).
    subst reps.
    eexists. exists 0%Z, (Zlength' frames - 1)%Z. split; [reflexivity|].
    cbn [Trimmed.frames Trimmed.startTimestamp Trimmed.endTimestamp].
    split; [lia|]. split; [lia|].
    split; [replace (Zlength' frames - 1 + 1)%Z with (Zlength' frames) by lia;
            now rewrite slice_all|].
    split; [exact T0|]. split; [exact Tl|]. split; [auto|]. intros r [].
  - apply Z.eqb_neq in Er.
    assert (Hk : (0 < Zlength' reps)%Z) by (unfold Zlength' in *; lia).
    destruct (repAt_In reps 0 ltac:(lia)) as (firstRep & Efr & Nf).
    destruct (repAt_In reps (Zlength' reps - 1) ltac:(lia)) as (lastRep & Elr & Nl).
    rewrite Efr, Elr. cbn [bind].
    destruct (detectReps_span frames reps firstRep lastRep Ed Nf Nl)
      as (S0 & Sl & Sall).
    pose proof (Sall firstRep (nth_error_In _ _ Nf)) as (_ & Sf & Sfl).
    set (avg := if (Zlength' frames >? 1)%Z
                then last <- frameAt frames (Zlength' frames - 1) ;;
                     first <- frameAt frames 0 ;;
                     Ok ((timestamp last - timestamp first) / ofZ (Zlength' frames - 1))
                else Ok (1 / 30)).
    assert (Ha : exists d, avg = Ok d /\ 0 <= d).
    { subst avg. destruct (Zlength' frames >? 1)%Z eqn:E1.
      - rewrite Efl, Ef0. cbn [bind]. eexists. split; [reflexivity|].
        rewrite Z.gtb_ltb in E1. apply Z.ltb_lt in E1.
        apply Qle_shift_div_l.
        + unfold ofZ. replace 0 with (inject_Z 0) by reflexivity.
          rewrite <- Zlt_Qlt. lia.
        + rewrite T0, Tl. lra.
      - eexists. split; [reflexivity|]. apply Qle_bool_iff. reflexivity. }
    destruct Ha as (d & Ea & Hd). rewrite Ea. cbn [bind]. cbv zeta.
    destruct (d =? 0) eqn:Ez.
    + destruct (frameAt_timestamp frames 0 ltac:(lia)) as (fa & Efa & Ta).
      rewrite Efa, Efl. cbn [bind].
      eexists. exists 0%Z, (Zlength' frames - 1)%Z. split; [reflexivity|].
      cbn [Trimmed.frames Trimmed.startTimestamp Trimmed.endTimestamp].
      split; [lia|]. split; [lia|]. split; [reflexivity|].
      split; [exact Ta|]. split; [exact Tl|]. split; [auto|].
      intros r Hr. destruct (Sall r Hr) as (R1 & R2 & R3). lia.
    + assert (Hpos : 0 < d).
      { apply Qle_lteq in Hd. destruct Hd as [Hd|Hd]; [exact Hd|].
        symmetry in Hd. apply Qeq_bool_iff in Hd. congruence. }
      assert (Hb : (0 < Math_ceil (BUFFER_SECONDS / d))%Z).
      { apply Math_ceil_pos. apply Qlt_shift_div_l; [exact Hpos|].
        unfold BUFFER_SECONDS. lra. }
      set (bf := Math_ceil (BUFFER_SECONDS / d)) in *.
      set (a := Z.max 0 (startFrame firstRep - bf)).
      set (b := Z.min (Zlength' frames - 1) (endFrame lastRep + bf)).
      destruct (frameAt_timestamp frames a ltac:(subst a; lia)) as (fa & Efa & Ta).
      destruct (frameAt_timestamp frames b ltac:(subst b; lia)) as (fb & Efb & Tb).
      rewrite Efa, Efb. cbn [bind].
      eexists. exists a, b. split; [reflexivity|].
      cbn [Trimmed.frames Trimmed.startTimestamp Trimmed.endTimestamp].
      split; [subst a b; lia|]. split; [subst b; lia|]. split; [reflexivity|].
      split; [exact Ta|]. split; [exact Tb|].
      split; [intros ->; discriminate Nf|].
      intros r Hr. destruct (Sall r Hr) as (R1 & R2 & R3). subst a b. lia.
Qed.

Lemma trimFramesToReps_keeps_reps_witness :
  exists reps t a b,
    detectReps threeSquats = Ok reps
    /\ trimFramesToReps threeSquats = Ok t
    /\ Trimmed.frames t = slice threeSquats a (b + 1)
    /\ forall r, In r reps -> (a <= startFrame r)%Z /\ (endFrame r <= b)%Z.
Proof.
  assert (T : exists reps, detectReps threeSquats = Ok reps)
    by (vm_compute; eexists; reflexivity).
  destruct T as [reps E].
  destruct (trimFramesToReps_keeps_reps threeSquats reps ltac:(discriminate) E
              ltac:(apply Qle_bool_iff; vm_compute; reflexivity))
    as (t & a & b & Et & _ & _ & Ef & _ & _ & _ & Hr).
  exists reps, t, a, b. auto.
Defined.

(** ** The One Euro filter stays within the samples *)







(** ** Conditioning of the detections *)

Lemma mapiM_rejectOne_visibility (M : MathLib) (prev : list Landmark.t) (threshold : Q)
      (raw out : list Landmark.t) (i0 : nat) :
  mapiM (rejectOne M prev threshold) raw i0 = Ok out ->
  map Landmark.visibility out = map Landmark.visibility raw.
Proof.
  revert i0 out. induction raw as [|l raw IH]; intros i0 out H; cbn [mapiM] in H.
  - inversion H. reflexivity.
  - destruct (rejectOne M prev threshold l i0) as [o|] eqn:Eo; cbn [bind] in H;
      [|discriminate].
    destruct (mapiM _ raw (S i0)) as [os|] eqn:Eos; cbn [bind] in H; [|discriminate].
    inversion H; subst out. cbn [map]. rewrite (IH _ _ Eos). f_equal.
    unfold rejectOne in Eo. destruct (nth_error prev i0); [|discriminate].
    cbv zeta in Eo. destruct (_ >? threshold); inversion Eo; reflexivity.
Qed.

Lemma rejectOutliers_visibility (M : MathLib) (raw : list Landmark.t)
      (prev : option (list Landmark.t)) (bodyHeight : Q) (out : list Landmark.t) :
  rejectOutliers M raw prev bodyHeight = Ok out ->
  map Landmark.visibility out = map Landmark.visibility raw.
Proof.
  unfold rejectOutliers. destruct prev as [prev|]; [|intro H; now inversion H].
  destruct (bodyHeight <=? 0); [intro H; now inversion H|].
  cbv zeta. apply mapiM_rejectOne_visibility.
Qed.

Lemma filterLandmarks_visibility (M : MathLib) (filters : list Filters)
      (raw : list Landmark.t) (time : Q) (out : list Landmark.t)
      (filters' : list Filters) :
  filterLandmarks M filters raw time = Ok (out, filters') ->
  map Landmark.visibility out = map Landmark.visibility raw
  /\ List.length filters' = List.length filters.
Proof.
  revert filters out filters'. induction raw as [|l raw IH]; intros filters out filters' H.
  - destruct filters; simpl in H; inversion H; subst; split; reflexivity.
  - destruct filters as [|[[fx fy] fz] others]; [discriminate|].
    cbn [filterLandmarks] in H.
    destruct (OneEuroFilter.filter M fx _ time) as [x fx'].
    destruct (OneEuroFilter.filter M fy _ time) as [y fy'].
    destruct (OneEuroFilter.filter M fz _ time) as [z fz'].
    destruct (filterLandmarks M others raw time) as [[ls others']|] eqn:E;
      cbn [bind] in H; [|discriminate].
    inversion H; subst out filters'. destruct (IH _ _ _ E) as [V L].
    cbn [map List.length Landmark.visibility]. rewrite V, L. auto.
Qed.

(** Filters that have seen no sample pass the landmarks through. *)
Lemma filterLandmarks_fresh (M : MathLib) (filters : list Filters)
      (raw : list Landmark.t) (time : Q) :
  Forall (fun '(fx, fy, fz) =>
            OneEuroFilter.initialized fx = false
            /\ OneEuroFilter.initialized fy = false
            /\ OneEuroFilter.initialized fz = false) filters ->
  (List.length raw <= List.length filters)%nat ->
  exists filters', filterLandmarks M filters raw time = Ok (raw, filters').
Proof.
  intro Hf. revert raw. induction Hf as [|[[fx fy] fz] others (Hx & Hy & Hz) _ IH];
    intros raw Hl.
  - destruct raw; [|simpl in Hl; lia]. exists []. reflexivity.
  - destruct raw as [|l raw]; [eexists; reflexivity|].
    cbn [filterLandmarks]. unfold OneEuroFilter.filter. rewrite Hx, Hy, Hz.
    cbn [negb]. destruct (IH raw) as [others' E]; [simpl in Hl; lia|].
    rewrite E. cbn [bind]. destruct l. eexists. reflexivity.
Qed.

Lemma newFilters_fresh :
  Forall (fun '(fx, fy, fz) =>
            OneEuroFilter.initialized fx = false
            /\ OneEuroFilter.initialized fy = false
            /\ OneEuroFilter.initialized fz = false) newFilters
  /\ List.length newFilters = 33%nat.
Proof.
  split; [|reflexivity]. unfold newFilters. apply Forall_forall.
  intros [[fx fy] fz] H. apply in_map_iff in H. destruct H as (i & E & _).
  destruct (getFilterParams i) as [mc b]. inversion E. auto.
Qed.

(** X14. The first detection of a video is stored as the landmarker gave it:
    there is no previous pose to reject against and the filters pass their
    first sample through; it becomes the previous pose and the body height
    is estimated from it. *)
Theorem conditionFrame_first (M : MathLib) (rawLandmarks : list Landmark.t)
        (others : list (list Landmark.t)) (time : Q) :
  List.length rawLandmarks = 33%nat ->
  exists c,
    conditionFrame M newConditioner (rawLandmarks :: others) time = Ok c
    /\ Conditioner.frames c = [ {| timestamp := time; landmarks := rawLandmarks |} ]
    /\ Conditioner.prevLandmarks c = Some rawLandmarks
    /\ estimateBodyHeight rawLandmarks = Ok (Conditioner.bodyHeight c).
Proof.
  intro Hl. unfold conditionFrame, newConditioner.
  cbn [Conditioner.bodyHeight Conditioner.prevLandmarks Conditioner.filters
       Conditioner.frames].
  change (0 =? 0) with true. cbv iota.
  assert (Hb : exists bh, estimateBodyHeight rawLandmarks = Ok bh).
  { unfold estimateBodyHeight. cbv zeta.
    repeat match goal with
           | |- context [nth_error rawLandmarks ?k] =>
               let E := fresh "E" in
               destruct (nth_error rawLandmarks k) eqn:E;
               [|apply nth_error_None in E;
                 unfold LEFT_SHOULDER, RIGHT_SHOULDER, LEFT_ANKLE, RIGHT_ANKLE in E; lia]
           end.
    cbn [bind]. eauto. }
  destruct Hb as [bh Eb]. rewrite Eb. cbn [bind]. unfold rejectOutliers. cbn [bind].
  destruct newFilters_fresh as [Hf Hn].
  destruct (filterLandmarks_fresh M newFilters rawLandmarks time Hf ltac:(lia))
    as [filters' Ef].
  rewrite Ef. cbn [bind]. eexists. split; [reflexivity|].
  cbn [Conditioner.frames Conditioner.prevLandmarks Conditioner.bodyHeight app].
  auto.
Qed.

Lemma conditionFrame_first_witness :
  List.length jumpBefore = 33%nat
  /\ exists c,
       conditionFrame hostMath newConditioner [jumpBefore] 0.1 = Ok c
       /\ Conditioner.frames c = [ {| timestamp := 0.1; landmarks := jumpBefore |} ]
       /\ Conditioner.prevLandmarks c = Some jumpBefore
       /\ estimateBodyHeight jumpBefore = Ok (Conditioner.bodyHeight c).
Proof.
  split; [reflexivity|].
  apply (conditionFrame_first hostMath jumpBefore [] 0.1). reflexivity.
Defined.

(** X15. Conditioning a detection appends exactly one frame, stamped with the
    time of the detection, whose landmarks carry the visibilities the
    landmarker reported: neither the outlier rejection nor the filters touch
    them.  A body height once estimated (not zero) is kept. *)
Theorem conditionFrame_visibility (M : MathLib) (this c : Conditioner.t)
        (rawLandmarks : list Landmark.t) (others : list (list Landmark.t)) (time : Q) :
  conditionFrame M this (rawLandmarks :: others) time = Ok c ->
  exists f,
    Conditioner.frames c = Conditioner.frames this ++ [f]
    /\ timestamp f = time
    /\ map Landmark.visibility (landmarks f) = map Landmark.visibility rawLandmarks
    /\ List.length (Conditioner.filters c) = List.length (Conditioner.filters this)
    /\ (~ Conditioner.bodyHeight this == 0 ->
        Conditioner.bodyHeight c = Conditioner.bodyHeight this).
Proof.
  unfold conditionFrame. intro H.
  destruct (if Conditioner.bodyHeight this =? 0 then estimateBodyHeight rawLandmarks
            else Ok (Conditioner.bodyHeight this)) as [bh|] eqn:Eb;
    cbn [bind] in H; [|discriminate].
  destruct (rejectOutliers M rawLandmarks (Conditioner.prevLandmarks this) bh)
    as [kept|] eqn:Er; cbn [bind] in H; [|discriminate].
  destruct (filterLandmarks M (Conditioner.filters this) kept time)
    as [[ls filters']|] eqn:Ef; cbn [bind] in H; [|discriminate].
  inversion H; subst c; clear H.
  cbn [Conditioner.frames Conditioner.filters Conditioner.bodyHeight].
  destruct (filterLandmarks_visibility _ _ _ _ _ _ Ef) as [V L].
  eexists. split; [reflexivity|]. cbn [timestamp landmarks].
  split; [reflexivity|].
  split; [rewrite V; now apply (rejectOutliers_visibility M _ _ _ _ Er)|].
  split; [exact L|].
  intro Hne. destruct (Conditioner.bodyHeight this =? 0) eqn:E0.
  - apply Qeq_bool_iff in E0. contradiction.
  - now inversion Eb.
Qed.

Lemma conditionFrame_visibility_witness :
  exists c f,
    conditionFrame hostMath newConditioner [jumpNow] 0.1 = Ok c
    /\ Conditioner.frames c = Conditioner.frames newConditioner ++ [f]
    /\ timestamp f = 0.1
    /\ map Landmark.visibility (landmarks f) = map Landmark.visibility jumpNow.
Proof.
  assert (T : exists c, conditionFrame hostMath newConditioner [jumpNow] 0.1 = Ok c)
    by (vm_compute; eexists; reflexivity).
  destruct T as [c E].
  destruct (conditionFrame_visibility hostMath newConditioner c jumpNow [] 0.1 E)
    as (f & F1 & F2 & F3 & _).
  exists c, f. auto.
Defined.

(** ** The checks after the frame loop *)






(** ** The overall score of the results page *)

Lemma rounded_mean_bounds (scores : list MetricScore.t) :
  scores <> [] -> Forall validScore scores ->
  (0 <= Math_round (ofZ (sumScores scores) / ofZ (Zlength' scores)) <= 100)%Z.
Proof.
  intros Hne Hv. unfold sumScores. rewrite fold_left_totalScore, Z.add_0_l.
  assert (Hn : (0 < Zlength' scores)%Z).
  { unfold Zlength'. destruct scores; [congruence|]. simpl. lia. }
  pose proof (Math_round_mean (totalScore scores) (Zlength' scores) Hn).
  pose proof (totalScore_bounds scores Hv). nia.
Qed.

Lemma overallScore_bounds (allMetrics : list MetricScore.t) :
  allMetrics <> [] -> Forall validScore allMetrics ->
  (0 <= overallScore allMetrics <= 100)%Z.
Proof.
  intros Hne Hv. unfold overallScore. cbv zeta.
  destruct (Zlength' (filter notLow allMetrics) >? 0)%Z eqn:C.
  - apply rounded_mean_bounds.
    + intro E. rewrite E in C. discriminate.
    + apply Forall_forall. intros m Hm. apply filter_In in Hm.
      rewrite Forall_forall in Hv. apply Hv, Hm.
  - now apply rounded_mean_bounds.
Qed.

Lemma tempo_confident (angle : CameraAngle) :
  getMetricConfidence "tempo" angle = high.
Proof. destruct angle; reflexivity. Qed.

Lemma mapH_read_lookup (ls : list loc) (h : heap) :
  (forall l, In l ls -> (l < List.length h)%nat) ->
  exists ms, mapH read ls h = Ok (ms, h)
             /\ Forall2 (fun l m => nth_error h l = Some m) ls ms.
Proof.
  induction ls as [|l ls IH]; intro Hl.
  - exists []. split; [reflexivity | constructor].
  - cbn [mapH]. unfold bindH at 1, read at 1.
    destruct (nth_error h l) as [m|] eqn:E.
    2:{ apply nth_error_None in E. specialize (Hl l (or_introl eq_refl)). lia. }
    destruct IH as (ms & Es & F); [intros l' Hl'; apply Hl; now right|].
    unfold bindH. rewrite Es. unfold retH. exists (m :: ms).
    split; [reflexivity | now constructor].
Qed.

Lemma Forall2_lookup {A B : Type} (R : A -> B -> Prop) (xs : list A) (ys : list B)
      (x : A) :
  Forall2 R xs ys -> In x xs -> exists y, In y ys /\ R x y.
Proof.
  induction 1 as [|x' y' xs ys Hxy _ IH]; intro Hin; [contradiction|].
  destruct Hin as [->|Hin]; [exists y'; split; [now left | exact Hxy]|].
  destruct (IH Hin) as (y & Hy & Rxy). exists y. split; [now right | exact Rxy].
Qed.

(** The key of the overall accessor in the goal [g o < length h], looked up
    in [Hov]. *)
Ltac overall_bound Hov :=
  let rec go keys :=
    lazymatch keys with
    | ?k :: ?rest =>
        first [ let l' := fresh "l'" in
                let El := fresh "El" in
                let Bl := fresh "Bl" in
                destruct (Hov k ltac:(in_keys)) as (l' & El & Bl);
                match goal with
                | |- (?g ?o < _)%nat =>
                    assert (El' : Some (g o) = Some l') by exact El;
                    injection El' as El'; rewrite El'; exact Bl
                end
              | go rest ]
    end in
  let keys := eval unfold metricKeys in metricKeys in
  go keys.

(** X17. The overall score that the results page shows for an analysis: the
    eighteen overall metrics are read from the result; since the tempo
    metric is of high confidence under every camera angle, there is always a
    metric that is not of low confidence, so the score is the rounded mean
    of the scores of those metrics; it is an integer from 0 to 100. *)
Theorem overallScore_of_analysis (M : MathLib) (frames : list PoseFrame)
        (et : option ExerciseType) (ca : option CameraAngle)
        (res : SquatAnalysisResult) (h : heap) :
  analyzeSquat M frames et ca [] = Ok (res, h) ->
  exists allMetrics,
    mapH read (overallMetrics (overall res)) h = Ok (allMetrics, h)
    /\ List.length allMetrics = 18%nat
    /\ filter notLow allMetrics <> []
    /\ overallScore allMetrics
       = Math_round (ofZ (sumScores (filter notLow allMetrics))
                     / ofZ (Zlength' (filter notLow allMetrics)))
    /\ (0 <= overallScore allMetrics <= 100)%Z.
Proof.
  intro H.
  destruct (analyzeSquat_inv _ _ _ _ _ _ H)
    as (dr & ra & _ & _ & Hv & _ & _ & _ & Hov & _).
  destruct (analyzeSquat_stamped _ _ _ _ _ _ H) as [_ Hconf]. cbv zeta in Hconf.
  assert (Hl : forall l, In l (overallMetrics (overall res)) ->
                         (l < List.length h)%nat).
  { intros l Hin. unfold overallMetrics in Hin. cbn [In] in Hin.
    repeat (destruct Hin as [<-|Hin]; [overall_bound Hov|]). contradiction. }
  destruct (mapH_read_lookup _ h Hl) as (ms & Em & F).
  exists ms. split; [exact Em|].
  assert (Hlen : List.length ms = 18%nat).
  { rewrite <- (Forall2_length F). reflexivity. }
  split; [exact Hlen|].
  assert (Hval : Forall validScore ms).
  { apply Forall_forall. intros m Hm.
    destruct (Forall2_lookup (fun m l => nth_error h l = Some m) ms
                             (overallMetrics (overall res)) m) as (l & _ & E);
      [apply Forall2_flip; exact F | exact Hm |].
    unfold validHeap in Hv. rewrite Forall_forall in Hv.
    apply Hv. eapply nth_error_In; eauto. }
  assert (Hne : filter notLow ms <> []).
  { destruct (Hconf "tempo"%string ltac:(in_keys)) as (l & El & (m & Em' & Cm)).
    assert (El' : Some (Overall.tempo (overall res)) = Some l) by exact El.
    injection El' as El'. subst l.
    destruct (Forall2_lookup _ _ _ (Overall.tempo (overall res)) F) as (m' & Hm' & E');
      [unfold overallMetrics; cbn [In]; tauto|].
    assert (m' = m) by congruence. subst m'.
    intro E. assert (Hin : In m (filter notLow ms)).
    { apply filter_In. split; [exact Hm'|]. unfold notLow.
      rewrite Cm, tempo_confident. reflexivity. }
    rewrite E in Hin. contradiction. }
  split; [exact Hne|].
  split.
  - unfold overallScore. cbv zeta.
    destruct (Zlength' (filter notLow ms) >? 0)%Z eqn:C; [reflexivity|].
    apply Zlength'_zero in C. contradiction.
  - apply overallScore_bounds; [|exact Hval]. intros ->. discriminate Hlen.
Qed.

Lemma overallScore_of_analysis_witness :
  exists res h allMetrics,
    analyzeSquat hostMath threeSquats (Some squat) (Some left_side) [] = Ok (res, h)
    /\ mapH read (overallMetrics (overall res)) h = Ok (allMetrics, h)
    /\ (0 <= overallScore allMetrics <= 100)%Z.
Proof.
  assert (E : analyzeSquat hostMath threeSquats (Some squat) (Some left_side) []
              = threeSquatsRun) by (vm_compute; reflexivity).
  unfold threeSquatsRun in E.
  destruct (overallScore_of_analysis _ _ _ _ _ _ E) as (ms & Em & _ & _ & _ & B).
  match type of E with
  | _ = Ok (?res, ?h) => exists res, h, ms
  end.
  split; [exact E|]. split; [exact Em | exact B].
Defined.

(** ** The nearest frame of the replay *)

Lemma Zrange_cons (lo hi : Z) :
  (lo <= hi)%Z -> Zrange lo hi = lo :: Zrange (lo + 1) hi.
Proof.
  intro H. unfold Zrange.
  replace (Z.to_nat (hi - lo + 1)) with (S (Z.to_nat (hi - (lo + 1) + 1))) by lia.
  cbn [seq map]. f_equal; [lia|].
  rewrite <- seq_shift, map_map. apply map_ext. intro k. lia.
Qed.

Lemma Zrange_empty (lo hi : Z) : (hi < lo)%Z -> Zrange lo hi = [].
Proof.
  intro H. unfold Zrange. replace (Z.to_nat (hi - lo + 1)) with 0%nat by lia.
  reflexivity.
Qed.

Lemma Qabs_cases (x : Q) : (0 <= x /\ Qabs x == x) \/ (x <= 0 /\ Qabs x == - x).
Proof.
  destruct (Qlt_le_dec x 0) as [H|H].
  - right. split; [lra|]. apply Qabs_neg. lra.
  - left. split; [exact H|]. now apply Qabs_pos.
Qed.

(** Past a frame that is no nearer than its predecessor, later frames are
    no nearer either. *)
Lemma past_the_minimum (a b c time : Q) :
  a < b -> b <= c ->
  Math_abs (a - time) <= Math_abs (b - time) ->
  Math_abs (a - time) <= Math_abs (c - time).
Proof.
  unfold Math_abs. intros Hab Hbc H.
  destruct (Qabs_cases (a - time)) as [[Sa Ea]|[Sa Ea]];
    destruct (Qabs_cases (b - time)) as [[Sb Eb]|[Sb Eb]];
    destruct (Qabs_cases (c - time)) as [[Sc Ec]|[Sc Ec]];
    rewrite Ea, ?Ec; rewrite Ea, Eb in H; lra.
Qed.

Lemma findNearest_loop_spec (frames : list PoseFrame) (time : Q) (k : nat) (i : Z) :
  increasingTimestamps frames ->
  (1 <= i <= Zlength' frames)%Z -> k = Z.to_nat (Zlength' frames - i) ->
  (forall j, (0 <= j < i - 1)%Z ->
             timeDistance frames time (i - 1) < timeDistance frames time j) ->
  exists r,
    findNearest_loop frames time (Zrange i (Zlength' frames - 1)) (i - 1)
                     (timeDistance frames time (i - 1)) = Ok r
    /\ (i - 1 <= r < Zlength' frames)%Z
    /\ forall j, (0 <= j < Zlength' frames)%Z ->
                 timeDistance frames time r <= timeDistance frames time j.
Proof.
  intro Hinc. revert i. induction k as [|k IH]; intros i Hi Hk Hbest.
  - rewrite Zrange_empty by lia. cbn [findNearest_loop].
    exists (i - 1)%Z. split; [reflexivity|]. split; [lia|].
    intros j Hj. destruct (Z.eq_dec j (i - 1)) as [->|Hne]; [apply Qle_refl|].
    apply Qlt_le_weak, Hbest. lia.
  - rewrite Zrange_cons by lia. cbn [findNearest_loop].
    destruct (frameAt_timestamp frames i ltac:(lia)) as (f & Ef & Tf).
    rewrite Ef. cbn [bind]. cbv zeta. rewrite Tf.
    fold (timeDistance frames time i).
    destruct (timeDistance frames time i <? timeDistance frames time (i - 1)) eqn:C.
    + apply Qltb_lt in C.
      destruct (IH (i + 1)%Z ltac:(lia) ltac:(lia)) as (r & Er & Br & Hr).
      { intros j Hj. replace (i + 1 - 1)%Z with i by lia.
        destruct (Z.eq_dec j (i - 1)) as [->|Hne]; [exact C|].
        specialize (Hbest j ltac:(lia)). lra. }
      replace (i + 1 - 1)%Z with i in Er by lia.
      exists r. split; [exact Er|]. split; [lia | exact Hr].
    + apply Qltb_ge in C. exists (i - 1)%Z. split; [reflexivity|]. split; [lia|].
      intros j Hj.
      destruct (Z_lt_le_dec j (i - 1)) as [Hlt|Hge];
        [apply Qlt_le_weak, Hbest; lia|].
      destruct (Z.eq_dec j (i - 1)) as [->|Hne]; [apply Qle_refl|].
      unfold timeDistance in *.
      apply (past_the_minimum _ (timestampAt frames i)); [| |exact C].
      * apply Hinc; lia.
      * destruct (Z.eq_dec j i) as [->|Hni]; [apply Qle_refl|].
        apply Qlt_le_weak, Hinc; lia.
Qed.

(** X18. With timestamps that increase from frame to frame,
    [findNearestFrameIdx] returns the index of a frame nearest in time to
    [time]: the scan may stop at the first frame that is no nearer than its
    predecessor. *)
Theorem findNearestFrameIdx_nearest (frames : list PoseFrame) (time : Q) :
  frames <> [] -> increasingTimestamps frames ->
  exists r,
    findNearestFrameIdx frames time = Ok r
    /\ (0 <= r < Zlength' frames)%Z
    /\ forall j, (0 <= j < Zlength' frames)%Z ->
                 timeDistance frames time r <= timeDistance frames time j.
Proof.
  intros Hne Hinc. unfold findNearestFrameIdx.
  assert (Hn : (0 < Zlength' frames)%Z).
  { unfold Zlength'. destruct frames; [congruence|]. simpl. lia. }
  assert (E0 : (Zlength' frames =? 0)%Z = false) by (apply Z.eqb_neq; lia).
  rewrite E0.
  destruct (frameAt_timestamp frames 0 ltac:(lia)) as (f & Ef & Tf).
  rewrite Ef. cbn [bind]. rewrite Tf. fold (timeDistance frames time 0).
  destruct (findNearest_loop_spec frames time (Z.to_nat (Zlength' frames - 1)) 1
                                  Hinc ltac:(lia) eq_refl)
    as (r & Er & Br & Hr); [intros j Hj; lia|].
  change (1 - 1)%Z with 0%Z in Er, Br.
  exists r. split; [exact Er|]. split; [lia | exact Hr].
Qed.

Lemma findNearestFrameIdx_nearest_witness :
  increasingTimestamps threeFrames
  /\ exists r,
       findNearestFrameIdx threeFrames 0.16 = Ok r
       /\ (0 <= r < Zlength' threeFrames)%Z
       /\ forall j, (0 <= j < Zlength' threeFrames)%Z ->
                    timeDistance threeFrames 0.16 r <= timeDistance threeFrames 0.16 j.
Proof.
  assert (Hinc : increasingTimestamps threeFrames).
  { intros i j Hij Hj. change (Zlength' threeFrames) with 3%Z in Hj.
    assert (C : ((i = 0 /\ j = 1) \/ (i = 0 /\ j = 2) \/ (i = 1 /\ j = 2))%Z) by lia.
    destruct C as [[-> ->]|[[-> ->]|[-> ->]]]; reflexivity. }
  split; [exact Hinc|].
  apply (findNearestFrameIdx_nearest threeFrames 0.16); [discriminate | exact Hinc].
Defined.

(** ** The display rectangle of the replay *)



(** ** The clock of the replay *)

Lemma Qfloor_shift (q : Q) (k : Z) : Qfloor (q - inject_Z k) = (Qfloor q - k)%Z.
Proof.
  assert (E : forall a b, inject_Z (a - b) == inject_Z a - inject_Z b).
  { intros a b. unfold Z.sub. rewrite inject_Z_plus, inject_Z_opp. reflexivity. }
  assert (L : inject_Z (Qfloor q - k) <= q - inject_Z k).
  { rewrite E. pose proof (Qfloor_le q). lra. }
  assert (U : q - inject_Z k < inject_Z (Qfloor q - k + 1)).
  { rewrite inject_Z_plus, E. pose proof (Qlt_floor q) as H.
    rewrite inject_Z_plus in H. lra. }
  pose proof (Qfloor_le (q - inject_Z k)) as L'.
  pose proof (Qlt_floor (q - inject_Z k)) as U'.
  rewrite inject_Z_plus in U'.
  assert (A : (Qfloor q - k < Qfloor (q - inject_Z k) + 1)%Z)
    by (rewrite Zlt_Qlt, inject_Z_plus; lra).
  assert (B : (Qfloor (q - inject_Z k) < Qfloor q - k + 1)%Z)
    by (rewrite Zlt_Qlt; lra).
  lia.
Qed.

Lemma two_digits (s : Z) :
  (0 <= s < 60)%Z ->
  padStart 2 "0" (Z_to_string s)
  = ((if (s <? 10)%Z then "0" else "") ++ Z_to_string s)%string.
Proof.
  intro H.
  assert (V : forallb (fun s => String.eqb
                         (padStart 2 "0" (Z_to_string s))
                         ((if (s <? 10)%Z then "0" else "") ++ Z_to_string s))
                      (Zrange 0 59) = true) by (vm_compute; reflexivity).
  rewrite forallb_forall in V. apply String.eqb_eq, V, Zrange_In. lia.
Qed.

(** X20. The clock of the replay shows a time that is not negative as the
    whole minutes, a colon and the remaining whole seconds in two digits:
    the seconds are below 60, and 60 times the minutes plus the seconds is
    the time rounded down to a whole second. *)
Theorem formatTimestamp_clock (seconds : Q) :
  0 <= seconds ->
  exists m s,
    formatTimestamp seconds
    = (Z_to_string m ++ ":" ++ (if (s <? 10)%Z then "0" else "") ++ Z_to_string s)%string
    /\ (0 <= m)%Z /\ (0 <= s < 60)%Z
    /\ (60 * m + s)%Z = Math_floor seconds.
Proof.
  intro H. unfold formatTimestamp. cbv zeta.
  set (m := Math_floor (seconds / 60)).
  assert (Hq : 0 <= seconds / 60) by (apply Qle_shift_div_l; lra).
  assert (Hm : (0 <= m)%Z).
  { subst m. unfold Math_floor. change 0%Z with (Qfloor 0).
    now apply Qfloor_resp_le. }
  assert (Et : Math_trunc (seconds / 60) = m).
  { unfold Math_trunc. destruct (seconds / 60 <? 0) eqn:C; [|reflexivity].
    apply Qltb_lt in C. lra. }
  assert (Lm : inject_Z m <= seconds / 60) by apply Qfloor_le.
  assert (Um : seconds / 60 < inject_Z (m + 1)) by apply Qlt_floor.
  rewrite inject_Z_plus in Um.
  assert (E60 : seconds / 60 == seconds * (1 # 60)) by reflexivity.
  rewrite E60 in Lm, Um.
  assert (Es : Math_floor (remainder seconds 60) = (Math_floor seconds - 60 * m)%Z).
  { unfold remainder, Math_floor. rewrite Et. unfold ofZ.
    rewrite <- Qfloor_shift. apply Qfloor_comp.
    rewrite inject_Z_mult. reflexivity. }
  set (s := Math_floor (remainder seconds 60)) in *.
  assert (Ls : inject_Z (Math_floor seconds) <= seconds) by apply Qfloor_le.
  assert (Us : seconds < inject_Z (Math_floor seconds + 1)) by apply Qlt_floor.
  rewrite inject_Z_plus in Us.
  change (inject_Z 1) with 1 in Um, Us.
  assert (Bs : (0 <= s < 60)%Z).
  { rewrite Es. split.
    - assert ((60 * m < Math_floor seconds + 1)%Z); [|lia].
      rewrite Zlt_Qlt, inject_Z_plus, inject_Z_mult. change (inject_Z 60) with 60.
      change (inject_Z 1) with 1. lra.
    - assert ((Math_floor seconds < 60 * (m + 1))%Z); [|lia].
      rewrite Zlt_Qlt, inject_Z_mult, inject_Z_plus. change (inject_Z 60) with 60.
      change (inject_Z 1) with 1. lra. }
  exists m, s. split; [now rewrite (two_digits s Bs)|].
  split; [exact Hm|]. split; [exact Bs | lia].
Qed.

Lemma formatTimestamp_clock_witness :
  formatTimestamp 75.5 = "1:15"%string
  /\ exists m s,
       formatTimestamp 75.5
       = (Z_to_string m ++ ":" ++ (if (s <? 10)%Z then "0" else "")
            ++ Z_to_string s)%string
       /\ (0 <= m)%Z /\ (0 <= s < 60)%Z
       /\ (60 * m + s)%Z = Math_floor 75.5.
Proof.
  split; [vm_compute; reflexivity|].
  apply (formatTimestamp_clock 75.5). apply Qle_bool_iff. reflexivity.
Defined.
